(** * NodeBB: a shallow embedding of selected modules

    The development follows the JavaScript sources module by module:
    - [Js]            the JavaScript values and coercions the code relies on;
    - [SortedAdd]     src/database/mongo/sorted/add.js;
    - [Jobs]          the user cron jobs (getDigesthour, User.startJobs, User.stopJobs);
    - [GroupsCreate]  Groups.create and Groups.validateGroupName;
    - [Picture]       src/user/picture.js;
    - [Auth]          User.auth.addSession and its helpers;
    - [PostDelay]     User.isReadyToPost, known from its tests;
    - [Mods]          src/controllers/mods.js;
    - [Search]        src/user/search.js and its second version;
    - [Invite]        src/user/invite.js;
    - [ModsFilters]   the helpers of the flag list and of the post queue;
    - [Composer]      the composer controller;
    - [CoverPhoto]    src/coverPhoto.js;
    - [WebServer]     the listening part of src/webserver.js.
    The modules ending in [Eval] are concrete environments on which the
    embedding runs.

    A function that may throw returns a [result]: [Ok v], or [Throw msg] for a
    thrown [Error] whose [message] is [msg].  An asynchronous function is a
    state transformer returning a [result], fulfilled or rejected.  A string
    is the sequence of its code units, those below 256. *)

From Stdlib Require Import ZArith QArith Qround String Ascii List Bool Lia.
From stdpp Require Import base option list strings gmap pretty.

(** ** JavaScript values *)

Module Js.

(** A JavaScript number: the finite doubles are rationals, so comparisons on
    them are exact in [Q]. *)
Inductive jsnum : Type :=
| NaN
| PosInf
| NegInf
| Fin (q : Q).

#[warning="-register-all"]
Inductive value : Type :=
| VUndefined
| VNull
| VBool (b : bool)
| VNum (n : jsnum)
| VStr (s : string)
| VArr (xs : list value).

(** A settled promise, or the outcome of a synchronous call that may throw. *)
Inductive result (A : Type) : Type :=
| Ok (a : A)
| Throw (msg : string).

Arguments Ok {A} a.
Arguments Throw {A} msg.

Definition num_of_Z (z : Z) : jsnum := Fin (inject_Z z).

(** [a < b] on numbers: every comparison with NaN is false. *)
Definition num_lt (a b : jsnum) : bool :=
  match a, b with
  | NaN, _ | _, NaN => false
  | PosInf, _ => false
  | _, NegInf => false
  | NegInf, _ => true
  | _, PosInf => true
  | Fin x, Fin y => negb (Qle_bool y x)
  end.

Definition num_isNaN (a : jsnum) : bool :=
  match a with NaN => true | _ => false end.

(** The builtins and helper modules the sources call but do not define.
    [isNumber] is utils.isNumber; the others are ECMAScript builtins. *)
Class Host : Type := {
  isNumber : value -> bool;
  parseFloat : value -> jsnum;
  parseInt10 : value -> jsnum;
  NumberToString : jsnum -> string;
  StringToNumber : string -> jsnum;
  toLowerCase : string -> string;
}.

(** Array.prototype.join inserts the empty string for undefined and null. *)
Fixpoint ToString `{Host} (v : value) : string :=
  match v with
  | VUndefined => "undefined"
  | VNull => "null"
  | VBool true => "true"
  | VBool false => "false"
  | VNum n => NumberToString n
  | VStr s => s
  | VArr xs =>
      String.concat ","
        (List.map (fun x => match x with
                            | VUndefined | VNull => ""
                            | _ => ToString x
                            end) xs)
  end.

Definition ToNumber `{Host} (v : value) : jsnum :=
  match v with
  | VUndefined => NaN
  | VNull => num_of_Z 0
  | VBool true => num_of_Z 1
  | VBool false => num_of_Z 0
  | VNum n => n
  | VStr s => StringToNumber s
  | VArr _ => StringToNumber (ToString v)
  end.

(** [a === b] on numbers: NaN differs from itself. *)
Definition num_eq (a b : jsnum) : bool :=
  match a, b with
  | Fin x, Fin y => Qeq_bool x y
  | PosInf, PosInf | NegInf, NegInf => true
  | _, _ => false
  end.

(** [a - b] when [a] is finite. *)
Definition num_sub_from (a : Z) (b : jsnum) : jsnum :=
  match b with
  | Fin q => Fin (inject_Z a - q)
  | NaN => NaN
  | PosInf => NegInf
  | NegInf => PosInf
  end.

(** ToIntegerOrInfinity, clamped to the indices of an array of [len] elements
    as [Array.prototype.slice] does for its [end] argument. *)
Definition slice_end (len : nat) (n : jsnum) : nat :=
  match n with
  | NaN => 0
  | PosInf => len
  | NegInf => 0
  | Fin q =>
      let z := Z.quot (Qnum q) (Zpos (Qden q)) in
      if (z <? 0)%Z then Z.to_nat (Z.max (Z.of_nat len + z) 0)
      else Nat.min (Z.to_nat z) len
  end.

(** [n * k] for a positive integer [k]. *)
Definition num_scale (n : jsnum) (k : Z) : jsnum :=
  match n with
  | Fin q => Fin (q * inject_Z k)
  | _ => n
  end.

(** ToBoolean: what [if (v)], [!v] and [v || w] test. *)
Definition truthy (v : value) : bool :=
  match v with
  | VUndefined | VNull => false
  | VBool b => b
  | VNum NaN => false
  | VNum (Fin q) => negb (Qeq_bool q 0)
  | VNum _ => true
  | VStr s => negb (String.eqb s "")
  | VArr _ => true
  end.

(** [v === s] for a string [s]. *)
Definition is_str (v : value) (s : string) : bool :=
  match v with
  | VStr s' => String.eqb s' s
  | _ => false
  end.

(** [n === k] for an integer [k]. *)
Definition num_is_Z (n : jsnum) (k : Z) : bool :=
  match n with
  | Fin q => Qeq_bool q (inject_Z k)
  | _ => false
  end.

(** [s.includes(sub)] *)
Fixpoint includes (sub s : string) : bool :=
  String.prefix sub s ||
  match s with
  | EmptyString => false
  | String _ s' => includes sub s'
  end.

(** [s.split(sep).pop()]: what follows the last [sep], or all of [s]. *)
Fixpoint after_last (sep : ascii) (acc : string) (s : string) : string :=
  match s with
  | EmptyString => acc
  | String c s' =>
      if Ascii.eqb c sep then after_last sep s' s' else after_last sep acc s'
  end.

(** [s.substring(s.indexOf(sub) + 1)] when [s] includes [sub]. *)
Fixpoint after_first_char_of (sub s : string) : string :=
  match s with
  | EmptyString => EmptyString
  | String c s' => if String.prefix sub s then s' else after_first_char_of sub s'
  end.

(** [a || b] *)
Definition or_else (a b : value) : value := if truthy a then a else b.

(** [v] is undefined or null: reading a property of it throws. *)
Definition nullish (v : value) : bool :=
  match v with VUndefined | VNull => true | _ => false end.

(** The global [isNaN(v)]. *)
Definition isNaN `{Host} (v : value) : bool := num_isNaN (ToNumber v).

(** [v > k] and [v < k] against a number [k]: the operands are compared
    as numbers. *)
Definition gt_num `{Host} (v : value) (k : jsnum) : bool := num_lt k (ToNumber v).
Definition lt_num `{Host} (v : value) (k : jsnum) : bool := num_lt (ToNumber v) k.

(** [v.length]: numbers and booleans have no such property. *)
Definition length_of (v : value) : result value :=
  match v with
  | VUndefined => Throw "Cannot read properties of undefined"
  | VNull => Throw "Cannot read properties of null"
  | VArr xs => Ok (VNum (num_of_Z (Z.of_nat (length xs))))
  | VStr s => Ok (VNum (num_of_Z (Z.of_nat (String.length s))))
  | _ => Ok VUndefined
  end.

(** [a > b] when the operands are not both strings: they are compared as
    numbers. *)
Definition gt `{Host} (a b : value) : bool := num_lt (ToNumber b) (ToNumber a).

(** [xs.push(x)] appends [x] and returns the new length. *)
Definition push (xs : list value) (x : value) : list value * value :=
  (xs ++ [x], VNum (num_of_Z (Z.of_nat (length xs + 1)))).

(** [v[i]]: reading an index of undefined or null throws a TypeError; any
    other value without that index yields undefined. *)
Definition get_index (v : value) (i : nat) : result value :=
  match v with
  | VUndefined => Throw "Cannot read properties of undefined"
  | VNull => Throw "Cannot read properties of null"
  | VArr xs => Ok (default VUndefined (xs !! i))
  | VStr s => Ok (match String.get i s with
                  | Some c => VStr (String c EmptyString)
                  | None => VUndefined
                  end)
  | _ => Ok VUndefined
  end.

(** A host for evaluating the embedding on concrete inputs.  It agrees with
    JavaScript on the values used below, and is not meant beyond them:
    finite numbers and non-empty strings of digits are numbers, which
    [parseFloat] and [parseInt] read in decimal; no signed or fractional
    numeral is used, and no other string, null or undefined is a number;
    integers and fractions with a short decimal expansion print in plain
    decimal notation; the empty string converts to 0 and ASCII letters are
    lowered. *)
Definition digits_only (s : string) : bool :=
  forallb (fun c => (48 <=? nat_of_ascii c)%nat && (nat_of_ascii c <=? 57)%nat)
          (list_ascii_of_string s).

Fixpoint decimal_value (acc : Z) (cs : list ascii) : Z :=
  match cs with
  | [] => acc
  | c :: cs' => decimal_value (10 * acc + (Z.of_nat (nat_of_ascii c) - 48)) cs'
  end.

(** The decimal digits of [num / den] after the point, for [0 <= num < den]. *)
Fixpoint fraction_digits (fuel : nat) (num den : Z) : string :=
  match fuel with
  | O => ""
  | S fuel' =>
      if (num =? 0)%Z then ""
      else pretty (10 * num / den)%Z +:+ fraction_digits fuel' ((10 * num) mod den)%Z den
  end.

Definition print_decimal (q : Q) : string :=
  let den := Zpos (Qden q) in
  let a := Z.abs (Qnum q) in
  (if (Qnum q <? 0)%Z then "-" else "")
  +:+ pretty (a / den)%Z
  +:+ (if (a mod den =? 0)%Z then "" else "." +:+ fraction_digits 20 (a mod den)%Z den).

Definition numeral (s : string) : option jsnum :=
  if negb (String.eqb s "") && digits_only s
  then Some (num_of_Z (decimal_value 0 (list_ascii_of_string s)))
  else None.

Definition evalHost : Host := {|
  isNumber := fun v =>
    match v with
    | VNum (Fin _) => true
    | VStr s => bool_decide (is_Some (numeral s))
    | _ => false
    end;
  parseFloat := fun v =>
    match v with
    | VNum n => n
    | VStr s => default NaN (numeral s)
    | _ => NaN
    end;
  parseInt10 := fun v =>
    match v with
    | VNum (Fin q) => Fin (inject_Z (Z.quot (Qnum q) (Zpos (Qden q))))
    | VStr s => default NaN (numeral s)
    | _ => NaN
    end;
  NumberToString := fun n =>
    match n with
    | NaN => "NaN"
    | PosInf => "Infinity"
    | NegInf => "-Infinity"
    | Fin q => print_decimal q
    end;
  StringToNumber := fun s =>
    if String.eqb s "" then num_of_Z 0 else default NaN (numeral s);
  toLowerCase := fun s =>
    string_of_list_ascii
      (List.map (fun c => let n := nat_of_ascii c in
                          if (65 <=? n)%nat && (n <=? 90)%nat then ascii_of_nat (n + 32) else c)
                (list_ascii_of_string s));
|}.

(** The error monad of synchronous code that may throw. *)
Definition bind {A B : Type} (m : result A) (k : A -> result B) : result B :=
  match m with
  | Ok a => k a
  | Throw e => Throw e
  end.

(** An asynchronous function: it transforms the state [S] of the outside
    world and either fulfils or throws. *)
Definition M (S A : Type) : Type := S -> result A * S.

Definition ret {S A : Type} (a : A) : M S A := fun st => (Ok a, st).
Definition throw {S A : Type} (e : string) : M S A := fun st => (Throw e, st).
Definition lift {S A : Type} (r : result A) : M S A := fun st => (r, st).
Definition bindM {S A B : Type} (m : M S A) (k : A -> M S B) : M S B :=
  fun st =>
    match m st with
    | (Ok a, st') => k a st'
    | (Throw e, st') => (Throw e, st')
    end.
(** Where the state is the log of the calls made on the outside world, oldest
    first: a call is issued, then settled as the environment says. *)
Definition call {E A : Type} (e : E) (r : result A) : M (list E) A :=
  fun log => (r, log ++ [e]).

(** [m] only appends to the log, and every event it appends satisfies [P]. *)
Definition appends {E A : Type} (P : E -> Prop) (m : M (list E) A) : Prop :=
  forall log, exists mid, (m log).2 = log ++ mid /\ Forall P mid.

(** [a <= b] on numbers: false when either is NaN. *)
Definition num_le (a b : jsnum) : bool :=
  negb (num_isNaN a) && negb (num_isNaN b) && negb (num_lt b a).

(** [a === b] between values that are not one and the same array: two
    arrays obtained separately are different objects. *)
Definition strict_eq (a b : value) : bool :=
  match a, b with
  | VUndefined, VUndefined | VNull, VNull => true
  | VBool x, VBool y => Bool.eqb x y
  | VNum x, VNum y => num_eq x y
  | VStr x, VStr y => String.eqb x y
  | _, _ => false
  end.

End Js.

Export Js.

Notation "x <- m ;; k" := (Js.bind m (fun x => k))
  (at level 100, m at next level, right associativity, only parsing).
Notation "x <~ m ;; k" := (Js.bindM m (fun x => k))
  (at level 100, m at next level, right associativity, only parsing).

(** ** src/database/mongo/sorted/add.js *)

Module SortedAdd.

(** One [bulk.find({_key, value}).upsert().updateOne({$set: {score}})]. *)
Record upsert : Type := {
  find_key : value;
  find_value : string;
  set_score : jsnum;
}.

(** One bulk operation handed to the driver: the collection it was
    initialised on and the operations queued on it, in queueing order. *)
Record bulk_write : Type := {
  collection : string;
  ops : list upsert;
}.

(** The document store is the driver's: the adapter's effect on it is the
    sequence of bulk writes it has called [execute()] on, oldest first. *)
Definition mongo : Type := list bulk_write.

Section WithHost.
Context `{Host}.

(** [await bulk.execute()] settles as the driver decides.  When it rejects,
    the unordered bulk may have applied none, some or all of its operations:
    what the store then holds is the driver's business. *)
Variable execute : bulk_write -> result unit.

(** Modelled from the spec: helpers.valueToString (src/database/mongo/helpers.js)
    is not under src/; the documents are matched on [value: String(value)]. *)
Definition valueToString (v : value) : string := ToString v.

Definition invalid_score (scores : value) : string :=
  "[[error:invalid-score, " +:+ ToString scores +:+ "]]".

(** Returns [(isArrayOfScores, scores)]. *)
Definition normalizeScores (keys : list value) (scores : value)
  : result (bool * value) :=
  match scores with
  | VArr ss =>
      if negb (length ss =? length keys)%nat then Throw "[[error:invalid-data]]"
      else if negb (forallb isNumber ss) then Throw (invalid_score scores)
      else Ok (true, scores)
  | _ =>
      if negb (isNumber scores) then Throw (invalid_score scores)
      else Ok (false, scores)
  end.

(** [isArrayOfScores ? normalizedScores[i] : normalizedScores] *)
Definition score_at (isArrayOfScores : bool) (normalizedScores : value) (i : nat)
  : value :=
  if isArrayOfScores then
    match normalizedScores with
    | VArr ss => default VUndefined (ss !! i)
    | _ => VUndefined
    end
  else normalizedScores.

Definition sortedSetsAdd (keys scores value0 : value) (db : mongo)
  : result unit * mongo :=
  match keys with
  | VArr (k :: ks) =>
      match normalizeScores (k :: ks) scores with
      | Throw e => (Throw e, db)
      | Ok (isArrayOfScores, normalizedScores) =>
          let value1 := valueToString value0 in
          let bulk :=
            imap (fun i key =>
                    {| find_key := key;
                       find_value := value1;
                       set_score := parseFloat (score_at isArrayOfScores normalizedScores i) |})
                 (k :: ks) in
          (execute {| collection := "objects"; ops := bulk |},
           db ++ [ {| collection := "objects"; ops := bulk |} ])
      end
  | _ => (Ok tt, db)
  end.

(** The loop of sortedSetAddBulk: the operations queued so far are [acc]; a
    throw leaves the loop before [bulk.execute()]. *)
Fixpoint queue_items (items : list value) (acc : list upsert) : result (list upsert) :=
  match items with
  | [] => Ok acc
  | item :: rest =>
      score <- get_index item 1 ;;
      if negb (isNumber score) then Throw (invalid_score score)
      else
        key <- get_index item 0 ;;
        v <- get_index item 2 ;;
        queue_items rest
          (acc ++ [ {| find_key := key;
                       find_value := ToString v;
                       set_score := parseFloat score |} ])
  end.

Definition sortedSetAddBulk (data : value) (db : mongo) : result unit * mongo :=
  match data with
  | VArr (item :: rest) =>
      match queue_items (item :: rest) [] with
      | Throw e => (Throw e, db)
      | Ok bulk =>
          (execute {| collection := "objects"; ops := bulk |},
           db ++ [ {| collection := "objects"; ops := bulk |} ])
      end
  | _ => (Ok tt, db)
  end.

(** Valid scores: one number, or as many numbers as there are keys. *)
Definition valid_scores (keys : list value) (scores : value) : Prop :=
  match scores with
  | VArr ss => length ss = length keys /\ Forall (fun s => isNumber s = true) ss
  | _ => isNumber scores = true
  end.

(** One upsert per key, for the score of its index or for the single score. *)
Definition expected_upserts (keys : list value) (scores value0 : value) : list upsert :=
  match scores with
  | VArr ss =>
      zip_with (fun key s => {| find_key := key; find_value := ToString value0;
                                set_score := parseFloat s |}) keys ss
  | _ =>
      List.map (fun key => {| find_key := key; find_value := ToString value0;
                              set_score := parseFloat scores |}) keys
  end.

Definition triple_item (t : value * value * value) : value :=
  let '(key, score, v) := t in VArr [key; score; v].

Definition triple_upsert (t : value * value * value) : upsert :=
  let '(key, score, v) := t in
  {| find_key := key; find_value := ToString v; set_score := parseFloat score |}.

(** The triples [[keys[i], score, value]] of a call
    [sortedSetsAdd(keys, scores, value)], the score being [scores[i]] when
    scores is an array and [scores] otherwise. *)
Definition keyed_triples (keys : list value) (scores value0 : value)
  : list (value * value * value) :=
  imap (fun i key =>
          (key,
           match scores with
           | VArr ss => default VUndefined (ss !! i)
           | _ => scores
           end,
           value0)) keys.

End WithHost.

(** Two drivers the adapter runs on below: one whose [execute()] always
    fulfils, one that rejects every bulk. *)
Definition fulfilling : bulk_write -> result unit := fun _ => Ok tt.
Definition rejecting : bulk_write -> result unit :=
  fun _ => Throw "MongoBulkWriteError".

End SortedAdd.

(** ** The user cron jobs (getDigesthour, User.startJobs, User.stopJobs) *)

Module Jobs.

(** The callback a cron job runs on each tick: the digest closure of
    [startDigestJob], which captures [name] and [term], or [User.reset.clean]. *)
Inductive onTick : Type :=
| DigestTick (name term : string)
| ResetClean.

(** A [CronJob] object; [timer] is its identity in the cron library. *)
Record cronJob : Type := {
  cronTime : string;
  tick : onTick;
  timer : nat;
}.

(** The module-level registry [jobs], the timers the cron library currently
    runs, and the identity the next [new cronJob] receives. *)
Record state : Type := {
  jobs : gmap string cronJob;
  running : gset nat;
  next_timer : nat;
}.

Definition initial : state := {| jobs := ∅; running := ∅; next_timer := 0 |}.

(** The body of the loop of [User.stopJobs]: [jobs[jobId].stop(); delete jobs[jobId]]. *)
Definition stop_job (s : state) (jobId : string) : state :=
  match jobs s !! jobId with
  | Some job =>
      {| jobs := delete jobId (jobs s);
         running := running s ∖ {[timer job]};
         next_timer := next_timer s |}
  | None => s
  end.

(** [Object.keys(jobs)] is taken once, before the loop deletes entries. *)
Definition stopJobs (s : state) : state :=
  foldl stop_job s (map_to_list (jobs s)).*1.

Section WithHost.
Context `{Host}.

(** The cron library reads the schedule first ([new CronTime(cronString)])
    and throws on one it cannot parse. *)
Variable cron_parse : string -> result unit.

(** [jobs[name] = new cronJob(cronString, fn, null, true)]: the fourth argument
    starts the job at once.  When the constructor throws, nothing is assigned
    and no timer starts. *)
Definition new_cronJob (name cronString : string) (fn : onTick) : Js.M state unit :=
  fun s =>
    match cron_parse cronString with
    | Throw e => (Throw e, s)
    | Ok _ =>
        (Ok tt,
         {| jobs := <[name := {| cronTime := cronString; tick := fn;
                                 timer := next_timer s |}]> (jobs s);
            running := {[next_timer s]} ∪ running s;
            next_timer := S (next_timer s) |})
    end.

Definition getDigesthour (dhour : value) : value :=
  if isNaN dhour then VNum (num_of_Z 17)
  else if gt_num dhour (num_of_Z 23) || lt_num dhour (num_of_Z 0) then VNum (num_of_Z 0)
  else dhour.

Definition startResetCleanJob : Js.M state unit :=
  new_cronJob "reset.clean" "0 0 * * *" ResetClean.

Definition startDigestJob (name cronString term : string) : Js.M state unit :=
  new_cronJob name cronString (DigestTick name term).

(** [configDigestHour] is [meta.config.digestHour].  Nothing catches what a
    constructor throws: the jobs after it are not started. *)
Definition startJobs (configDigestHour : value) : Js.M state unit :=
  let digestHour := getDigesthour configDigestHour in
  _ <~ (fun s => (Ok tt, stopJobs s)) ;;
  _ <~ startDigestJob "digest.daily" ("0 " +:+ ToString digestHour +:+ " * * *") "day" ;;
  _ <~ startDigestJob "digest.weekly" ("0 " +:+ ToString digestHour +:+ " * * 0") "week" ;;
  _ <~ startDigestJob "digest.monthly" ("0 " +:+ ToString digestHour +:+ " 1 * *") "month" ;;
  startResetCleanJob.

(** The calls the rest of the application makes on this module. *)
Inductive request : Type :=
| StartJobs (configDigestHour : value)
| StopJobs.

(** The registry after a call, fulfilled or not. *)
Definition serve (s : state) (c : request) : state :=
  match c with
  | StartJobs h => (startJobs h s).2
  | StopJobs => stopJobs s
  end.

(** The state after a history of calls, starting with no job. *)
Definition run (history : list request) : state := foldl serve initial history.

End WithHost.

(** Two cron libraries on which the module runs below.  [lenient] accepts
    every schedule.  [strict] accepts five fields separated by single spaces,
    each of them [*] or a string of decimal digits, and throws on any other
    schedule, as the cron package does on the schedules built from the hours
    used below; it does not check the range of a numeral, and the text of
    the library's error is not modelled. *)
Definition lenient : string -> result unit := fun _ => Ok tt.

Fixpoint fields (acc s : string) : list string :=
  match s with
  | EmptyString => [acc]
  | String c s' =>
      if Ascii.eqb c " " then acc :: fields "" s'
      else fields (acc +:+ String c "") s'
  end.

Definition field_ok (f : string) : bool :=
  String.eqb f "*" || (negb (String.eqb f "") && digits_only f).

Definition strict : string -> result unit :=
  fun cronString =>
    let fs := fields "" cronString in
    if (length fs =? 5)%nat && forallb field_ok fs then Ok tt
    else Throw "CronError".

(** The timers of the registered jobs. *)
Definition timers_of (m : gmap string cronJob) : gset nat := map_img (timer <$> m).

(** The registry of four jobs with digest hour [H], the first timer being [n]. *)
Definition four_jobs (H : string) (n : nat) : gmap string cronJob :=
  <["reset.clean" := {| cronTime := "0 0 * * *"; tick := ResetClean; timer := n + 3 |}]>
  (<["digest.monthly" := {| cronTime := "0 " +:+ H +:+ " 1 * *";
                            tick := DigestTick "digest.monthly" "month"; timer := n + 2 |}]>
  (<["digest.weekly" := {| cronTime := "0 " +:+ H +:+ " * * 0";
                           tick := DigestTick "digest.weekly" "week"; timer := n + 1 |}]>
  (<["digest.daily" := {| cronTime := "0 " +:+ H +:+ " * * *";
                          tick := DigestTick "digest.daily" "day"; timer := n |}]> ∅))).

Definition four_timers (n : nat) : gset nat := {[n + 3]} ∪ ({[n + 2]} ∪ ({[n + 1]} ∪ {[n]})).

(** The schedules [User.startJobs] hands to the cron library when the digest
    hour prints as [H], in the order of the calls. *)
Definition schedules (H : string) : list string :=
  ["0 " +:+ H +:+ " * * *"; "0 " +:+ H +:+ " * * 0"; "0 " +:+ H +:+ " 1 * *";
   "0 0 * * *"].

(** [0 <= n <= 23] on numbers. *)
Definition hour_in_range (n : jsnum) : Prop :=
  match n with
  | Fin q => (0 <= q)%Q /\ (q <= 23)%Q
  | _ => False
  end.

(** *** The callback of a digest job *)

(** What a tick of a digest job does to the outside world: the lines it
    logs, the counter it increments, the digests it executes. *)
Inductive tick_event : Type :=
| Verbose (msg : string)
| Increment (key : string)
| DigestExecute (interval : string)
| WinstonError (err : string).

(** [db.increment], which resolves to the new value of the counter, and
    [User.digest.execute]. *)
Record tickEnv : Type := {
  increment : string -> result Z;
  digest_execute : string -> result unit;
}.

(** The body of the try block of the callback: [counter % 2] is the
    remainder of the truncated division. *)
Definition digest_tick_body (env : tickEnv) (name term : string)
  : Js.M (list tick_event) unit :=
  _ <~ (if String.eqb name "digest.weekly" then
          counter <~ call (Increment "biweeklydigestcounter")
                          (increment env "biweeklydigestcounter") ;;
          if negb (Z.rem counter 2 =? 0)%Z
          then call (DigestExecute "biweek") (digest_execute env "biweek")
          else ret tt
        else ret tt) ;;
  call (DigestExecute term) (digest_execute env term).

(** The callback [startDigestJob] hands to [new cronJob]; the error the catch
    block logs is named by its message. *)
Definition digest_tick (env : tickEnv) (name term : string)
  : Js.M (list tick_event) unit :=
  _ <~ call (Verbose ("[user/jobs] Digest job (" +:+ name +:+ ") started.")) (Ok tt) ;;
  fun log =>
    match digest_tick_body env name term log with
    | (Ok _, log') => (Ok tt, log')
    | (Throw e, log') => (Ok tt, log' ++ [WinstonError e])
    end.

(** The digests a tick has executed, oldest first. *)
Definition executed (log : list tick_event) : list string :=
  omap (fun ev => match ev with DigestExecute i => Some i | _ => None end) log.

End Jobs.

(** ** Group creation (Groups.create, Groups.validateGroupName) *)

Module GroupsCreate.

(** The argument of [Groups.create]; [None] is an absent property where the
    code asks [hasOwnProperty]. *)
Record createData : Type := {
  name : value;
  timestamp : value;
  disableJoinRequests : value;
  disableLeave : value;
  hidden : value;
  private : option value;
  ownerUid : option value;
  system : value;
  userTitle : value;
  userTitleEnabled : value;
  description : value;
}.

Record groupConfig : Type := {
  isSystem : bool;
  cfg_timestamp : value;
  cfg_disableJoinRequests : Z;
  cfg_disableLeave : Z;
  isHidden : bool;
  isPrivate : bool;
  cfg_memberCount : Z;
}.

Record groupData : Type := {
  g_name : value;
  g_slug : string;
  g_createtime : value;
  g_userTitle : value;
  g_userTitleEnabled : Z;
  g_description : value;
  g_memberCount : Z;
  g_hidden : Z;
  g_system : Z;
  g_private : Z;
  g_disableJoinRequests : Z;
  g_disableLeave : Z;
}.

(** The writes [processGroupCreation] sends to the database. *)
Inductive write : Type :=
| SortedSetAdd (key : string) (score : value) (member : value)
| SetObject (key : string) (obj : groupData)
| SetAdd (key : string) (member : value)
| SortedSetAddBulk (items : list (string * value * value))
| SetObjectField (key field : string) (v : value).

(** What the module requires from the rest of the application: group
    predicates, slugs, configuration, database lookups and plugin hooks, and
    how the database settles each write it is sent. *)
Record Env : Type := {
  db_write : write -> result unit;
  isPrivilegeGroup : value -> bool;
  systemGroups : list string;
  slugify : string -> string;
  maximumGroupNameLength : value;
  now : value;
  slugTaken : value -> result bool;
  isSortedSetMember : string -> value -> result bool;
  filter_group_create : groupData -> createData -> result (groupData * createData);
  getGroupData : value -> result groupData;
  action_group_create : groupData -> result unit;
}.

Section WithEnv.
Context `{Host} (env : Env).

Definition validateGroupName (name : value) : result unit :=
  if negb (truthy name) then Throw "[[error:group-name-too-short]]"
  else
    match name with
    | VStr s =>
        if negb (isPrivilegeGroup env name)
           && lt_num (maximumGroupNameLength env) (num_of_Z (Z.of_nat (String.length s)))
        then Throw "[[error:group-name-too-long]]"
        else if String.eqb s "guests"
                || (negb (isPrivilegeGroup env name) && includes ":" s)
        then Throw "[[error:invalid-group-name]]"
        else if includes "/" s || String.eqb (slugify env s) ""
        then Throw "[[error:invalid-group-name]]"
        else Ok tt
    | _ => Throw "[[error:invalid-group-name]]"
    end.

Definition one_if (b : bool) : Z := if b then 1%Z else 0%Z.

Definition isSystemGroup (data : createData) : bool :=
  match system data with VBool true => true | _ => false end
  || num_is_Z (parseInt10 (system data)) 1
  || existsb (is_str (name data)) (systemGroups env)
  || isPrivilegeGroup env (name data).

Definition prepareGroupConfig (data : createData) : groupConfig :=
  {| isSystem := isSystemGroup data;
     cfg_timestamp := or_else (timestamp data) (now env);
     cfg_disableJoinRequests :=
       if is_str (name data) "administrators" then 1%Z
       else one_if (num_is_Z (parseInt10 (disableJoinRequests data)) 1);
     cfg_disableLeave := one_if (num_is_Z (parseInt10 (disableLeave data)) 1);
     isHidden := num_is_Z (parseInt10 (hidden data)) 1;
     isPrivate :=
       match private data with
       | Some VUndefined | None => true
       | Some p => num_is_Z (parseInt10 p) 1
       end;
     cfg_memberCount := one_if (bool_decide (is_Some (ownerUid data))) |}.

(** The second element of the array awaits its lookup while the array is
    still being built, so its rejection is the one thrown. *)
Definition validateGroupCreation (data : createData) : result unit :=
  _ <- validateGroupName (name data) ;;
  let exists_ := slugTaken env (name data) in
  privGroupExists <-
    (if isPrivilegeGroup env (name data)
     then isSortedSetMember env "groups:createtime" (name data)
     else Ok false) ;;
  exists_ <- exists_ ;;
  if exists_ || privGroupExists then Throw "[[error:group-already-exists]]"
  else Ok tt.

Definition buildGroupData (data : createData) (config : groupConfig) : groupData :=
  {| g_name := name data;
     g_slug := slugify env (ToString (name data));
     g_createtime := cfg_timestamp config;
     g_userTitle := or_else (userTitle data) (name data);
     g_userTitleEnabled := one_if (num_is_Z (parseInt10 (userTitleEnabled data)) 1);
     g_description := or_else (description data) (VStr "");
     g_memberCount := cfg_memberCount config;
     g_hidden := one_if (isHidden config);
     g_system := one_if (isSystem config);
     g_private := one_if (isPrivate config);
     g_disableJoinRequests := cfg_disableJoinRequests config;
     g_disableLeave := cfg_disableLeave config |}.

(** An awaited write: it is sent, then settles as the database decides.
    What follows a rejected write is not run. *)
Definition db_call (w : write) : Js.M (list write) unit := call w (db_write env w).

Definition persistGroupData (g : groupData) : Js.M (list write) unit :=
  _ <~ db_call (SortedSetAdd "groups:createtime" (g_createtime g) (g_name g)) ;;
  db_call (SetObject ("group:" +:+ ToString (g_name g)) g).

Definition addGroupOwner (groupName owner timestamp0 : value) : Js.M (list write) unit :=
  _ <~ db_call (SetAdd ("group:" +:+ ToString groupName +:+ ":owners") owner) ;;
  db_call (SortedSetAdd ("group:" +:+ ToString groupName +:+ ":members") timestamp0 owner).

(** The three sets a visible group is listed in, written in one bulk. *)
Definition listing (g : groupData) : write :=
  SortedSetAddBulk
    [ ("groups:visible:createtime", g_createtime g, g_name g);
      ("groups:visible:memberCount", VNum (num_of_Z (g_memberCount g)), g_name g);
      ("groups:visible:name", VNum (num_of_Z 0),
       VStr (toLowerCase (ToString (g_name g)) +:+ ":" +:+ ToString (g_name g))) ].

Definition addToVisibleGroups (g : groupData) : Js.M (list write) unit :=
  db_call (listing g).

Definition storeGroupSlug (g : groupData) : Js.M (list write) unit :=
  db_call (SetObjectField "groupslug:groupname" (g_slug g) (g_name g)).

(** Returns the outcome and the writes sent to the database, oldest first;
    a write the database rejected is the last one sent.  The plugins of
    'filter:group.create' may change both objects they are handed. *)
Definition processGroupCreation (data : createData) : result groupData * list write :=
  let groupConfig := prepareGroupConfig data in
  match validateGroupCreation data with
  | Throw e => (Throw e, [])
  | Ok _ =>
      match filter_group_create env (buildGroupData data groupConfig) data with
      | Throw e => (Throw e, [])
      | Ok (g, data) =>
          (_ <~ persistGroupData g ;;
           _ <~ match ownerUid data with
                | Some owner => addGroupOwner (g_name g) owner (g_createtime g)
                | None => ret tt
                end ;;
           _ <~ (if negb (isHidden groupConfig) && negb (isSystem groupConfig)
                 then addToVisibleGroups g else ret tt) ;;
           _ <~ (if negb (isPrivilegeGroup env (g_name g))
                 then storeGroupSlug g else ret tt) ;;
           g' <~ lift (getGroupData env (g_name g)) ;;
           _ <~ lift (action_group_create env g') ;;
           ret g') []
      end
  end.

Definition create (data : createData) : result groupData * list write :=
  processGroupCreation data.

(** The writes of a creation that the database does not reject, for the
    group [g] and the request [data] as the plugins leave them. *)
Definition writes_of (config : groupConfig) (g : groupData) (data : createData)
  : list write :=
  [ SortedSetAdd "groups:createtime" (g_createtime g) (g_name g);
    SetObject ("group:" +:+ ToString (g_name g)) g ]
  ++ match ownerUid data with
     | Some owner =>
         [ SetAdd ("group:" +:+ ToString (g_name g) +:+ ":owners") owner;
           SortedSetAdd ("group:" +:+ ToString (g_name g) +:+ ":members")
                        (g_createtime g) owner ]
     | None => []
     end
  ++ (if negb (isHidden config) && negb (isSystem config) then [listing g] else [])
  ++ (if negb (isPrivilegeGroup env (g_name g))
      then [SetObjectField "groupslug:groupname" (g_slug g) (g_name g)] else []).

End WithEnv.

(** The members written to the sorted set 'group:<groupName>:members'. *)
Definition member_writes (groupName : string) (w : list write) : list value :=
  omap (fun x => match x with
                 | SortedSetAdd key _ member =>
                     if String.eqb key ("group:" +:+ groupName +:+ ":members")
                     then Some member else None
                 | _ => None
                 end) w.

(** The write that lists a group among the visible ones. *)
Definition is_listing (x : write) : bool :=
  match x with SortedSetAddBulk _ => true | _ => false end.

End GroupsCreate.

(** An environment for evaluating group creation: group names are limited
    to 10 characters, slugs lower the name and replace spaces and slashes by
    dashes, a user with the slug 'a-b' exists, the privilege groups are the
    names starting with 'cid:' that contain ':privileges:', plugins leave
    the group untouched and the database accepts every write. *)
Module GroupsEval.
Import GroupsCreate.

Definition slugify (s : string) : string :=
  string_of_list_ascii
    (List.map (fun c => if Ascii.eqb c " " || Ascii.eqb c "/" then "-"%char else c)
              (list_ascii_of_string (@toLowerCase evalHost s))).

Definition evalEnv : Env := {|
  db_write := fun _ => Ok tt;
  isPrivilegeGroup := fun v =>
    match v with
    | VStr s => String.prefix "cid:" s && includes ":privileges:" s
    | _ => false
    end;
  systemGroups := ["registered-users"; "administrators"; "Global Moderators"];
  GroupsCreate.slugify := slugify;
  maximumGroupNameLength := VNum (num_of_Z 10);
  now := VNum (num_of_Z 1700000000000);
  slugTaken := fun v =>
    match v with
    | VStr s => Ok (String.eqb (slugify s) "a-b")
    | _ => Throw "[[error:invalid-data]]"
    end;
  isSortedSetMember := fun _ _ => Ok false;
  filter_group_create := fun g d => Ok (g, d);
  getGroupData := fun v =>
    Ok {| g_name := v; g_slug := slugify (@ToString evalHost v); g_createtime := VNull;
          g_userTitle := v; g_userTitleEnabled := 0; g_description := VStr "";
          g_memberCount := 0; g_hidden := 0; g_system := 0; g_private := 1;
          g_disableJoinRequests := 0; g_disableLeave := 0 |};
  action_group_create := fun _ => Ok tt;
|}.

Definition named (n : value) : createData :=
  {| name := n; timestamp := VUndefined; disableJoinRequests := VUndefined;
     disableLeave := VUndefined; hidden := VUndefined; private := None;
     ownerUid := None; system := VUndefined; userTitle := VUndefined;
     userTitleEnabled := VUndefined; description := VUndefined |}.

(** The same application on a database that rejects every write to a set
    of owners. *)
Definition ownerlessEnv : Env := {|
  db_write := fun w =>
    match w with
    | SetAdd _ _ => Throw "MongoNetworkError"
    | _ => Ok tt
    end;
  isPrivilegeGroup := isPrivilegeGroup evalEnv;
  systemGroups := systemGroups evalEnv;
  GroupsCreate.slugify := slugify;
  maximumGroupNameLength := maximumGroupNameLength evalEnv;
  now := now evalEnv;
  slugTaken := slugTaken evalEnv;
  isSortedSetMember := isSortedSetMember evalEnv;
  filter_group_create := filter_group_create evalEnv;
  getGroupData := getGroupData evalEnv;
  action_group_create := action_group_create evalEnv;
|}.

(** A request for a group with an owner and a [hidden] flag. *)
Definition owned (n hidden0 owner : value) : createData :=
  {| name := n; timestamp := VUndefined; disableJoinRequests := VUndefined;
     disableLeave := VUndefined; hidden := hidden0; private := None;
     ownerUid := Some owner; system := VUndefined; userTitle := VUndefined;
     userTitleEnabled := VUndefined; description := VUndefined |}.

End GroupsEval.

(** ** src/user/picture.js *)

Module Picture.

(** The calls that write or delete files and user fields, as issued. *)
Inductive effect : Type :=
| Warn (msg : string)
| WriteTempFile (imageData : value)
| Normalise (path : string)
| FileDelete (path : string)
| ResizeImage (path : string) (width height : value)
| UploadImage (filename folder path : string)
| UpdateProfile (callerUid uid : value) (url : string)
| SetUserField (uid : value) (field : string) (v : value).

(** The asynchronous functions of this module log [effect]s. *)
Abbreviation M := (Js.M (list effect)).

(** [data.file] of an upload request. *)
Record userPhoto : Type := {
  size : value;
  type : value;
  path : string;
}.

Record fileUpload : Type := {
  file : userPhoto;
  uid : value;
  callerUid : value;
}.

(** The argument of the base64 uploads and of [updateCoverPicture]. *)
Record imageUpload : Type := {
  imageData : value;
  position : value;
  i_uid : value;
  i_callerUid : value;
}.

(** meta.config, nconf and the modules file, image and User. *)
Record Env : Type := {
  allowProfileImageUploads : value;
  maximumProfileImageSize : value;
  maximumCoverImageSize : value;
  convertProfileImageToPNG : value;
  keepAllUserImages : value;
  profileImageDimension : value;
  relative_path : string;
  upload_path : string;
  now : value;
  typeToExtension : value -> value;
  sizeFromBase64 : value -> value;
  mimeFromBase64 : value -> value;
  path_join : string -> string -> string -> string;
  writeImageDataToTempFile : value -> result string;
  normalise : string -> result string;
  file_delete : string -> result unit;
  resizeImage : string -> result unit;
  uploadImage : string -> string -> string -> result string;
  getUserField : value -> string -> result value;
  setUserField : value -> string -> value -> result unit;
  updateProfile : value -> value -> string -> result unit;
}.

Definition getAllowedImageTypes : list string :=
  ["image/png"; "image/jpeg"; "image/bmp"; "image/gif"].

(** The regular expression [/^[\d.]+%\s[\d.]+%$/].  A string is the sequence
    of its code units; [\s] lists the white space among the code units
    below 256. *)
Definition is_digit_or_dot (c : ascii) : bool :=
  let n := nat_of_ascii c in
  ((48 <=? n)%nat && (n <=? 57)%nat) || (n =? 46)%nat.

Definition is_space (c : ascii) : bool :=
  let n := nat_of_ascii c in
  ((9 <=? n)%nat && (n <=? 13)%nat) || (n =? 32)%nat || (n =? 160)%nat.

(** [[\d.]+%] at the head of [cs]: the rest of the input after the sign, when
    at least one character of the class came before it. *)
Fixpoint percentage (seen : bool) (cs : list ascii) : option (list ascii) :=
  match cs with
  | [] => None
  | c :: cs' =>
      if is_digit_or_dot c then percentage true cs'
      else if seen && Ascii.eqb c "%" then Some cs'
      else None
  end.

Definition cover_position_re (s : string) : bool :=
  match percentage false (list_ascii_of_string s) with
  | Some (c :: rest) =>
      is_space c && match percentage false rest with
                    | Some [] => true
                    | _ => false
                    end
  | _ => false
  end.

(** Two percentage values, in the words of the specification: digits and
    dots, a percent sign, one white space, digits and dots, a percent sign. *)
Definition two_percentages (s : string) : Prop :=
  exists (a b : list ascii) (w : ascii),
    a <> [] /\ b <> [] /\
    forallb is_digit_or_dot a = true /\ forallb is_digit_or_dot b = true /\
    is_space w = true /\
    list_ascii_of_string s = a ++ "%"%char :: w :: b ++ ["%"%char].

Section WithEnv.
Context `{Host} (env : Env).

Definition updateCoverPosition (uid0 : value) (position0 : value) : M unit :=
  if negb (cover_position_re (ToString position0)) then
    _ <~ call (Warn ("[user/updateCoverPosition] Invalid position received: "
                     +:+ ToString position0)) (Ok tt) ;;
    throw "[[error:invalid-data]]"
  else
    call (SetUserField uid0 "cover:position" position0)
         (setUserField env uid0 "cover:position" position0).

Definition validateUpload (data : imageUpload) (maxSize : value) (allowedTypes : list string)
  : result unit :=
  if negb (truthy (imageData data)) then Throw "[[error:invalid-data]]"
  else
    let size0 := sizeFromBase64 env (imageData data) in
    if num_lt (num_scale (ToNumber maxSize) 1024) (ToNumber size0)
    then Throw ("[[error:file-too-big, " +:+ ToString maxSize +:+ "]]")
    else
      let type0 := mimeFromBase64 env (imageData data) in
      if negb (truthy type0) || negb (existsb (is_str type0) allowedTypes)
      then Throw "[[error:invalid-image]]"
      else Ok tt.

Definition convertToPNG (path0 : string) : M string :=
  if negb (match convertProfileImageToPNG env with
           | VNum n => num_is_Z n 1
           | _ => false
           end)
  then ret path0
  else
    newPath <~ call (Normalise path0) (normalise env path0) ;;
    _ <~ call (FileDelete path0) (file_delete env path0) ;;
    ret newPath.

Definition generateProfileImageFilename (uid0 : value) (extension : value) : string :=
  let convert := match convertProfileImageToPNG env with
                 | VNum n => num_is_Z n 1
                 | _ => false
                 end in
  ToString uid0 +:+ "-profileavatar-" +:+ ToString (now env)
    +:+ (if convert then ".png" else ToString extension).

(** [false] when the field holds no upload of this user. *)
Definition getPicturePath (uid0 : value) (field : string) : M (option string) :=
  v <~ lift (getUserField env uid0 field) ;;
  if negb (truthy v) then ret None
  else
    match v with
    | VStr s =>
        if negb (String.prefix (relative_path env +:+ "/assets/uploads/profile/uid-"
                                +:+ ToString uid0) s)
        then ret None
        else
          let filename := after_last "/" s s in
          ret (Some (path_join env (upload_path env)
                               ("profile/uid-" +:+ ToString uid0) filename))
    | _ => throw "value.startsWith is not a function"
    end.

Definition deletePicture (uid0 : value) (field : string) : M unit :=
  uploadPath <~ getPicturePath uid0 field ;;
  match uploadPath with
  | Some p => if negb (String.eqb p "") then call (FileDelete p) (file_delete env p) else ret tt
  | None => ret tt
  end.

Definition deleteCurrentPicture (uid0 : value) (field : string) : M unit :=
  if truthy (keepAllUserImages env) then ret tt
  else deletePicture uid0 field.

(** Returns the url of the uploaded image. *)
Definition uploadCroppedPictureFile (data : fileUpload) : M string :=
  let userPhoto := file data in
  if negb (truthy (allowProfileImageUploads env))
  then throw "[[error:profile-image-uploads-disabled]]"
  else if num_lt (num_scale (ToNumber (maximumProfileImageSize env)) 1024)
                 (ToNumber (size userPhoto))
  then throw ("[[error:file-too-big, " +:+ ToString (maximumProfileImageSize env) +:+ "]]")
  else if negb (truthy (type userPhoto))
          || negb (existsb (is_str (type userPhoto)) getAllowedImageTypes)
  then throw "[[error:invalid-image]]"
  else
    let extension := typeToExtension env (type userPhoto) in
    if negb (truthy extension) then throw "[[error:invalid-image-extension]]"
    else
      newPath <~ convertToPNG (path userPhoto) ;;
      _ <~ call (ResizeImage newPath (profileImageDimension env) (profileImageDimension env))
                (resizeImage env newPath) ;;
      let filename := generateProfileImageFilename (uid data) extension in
      let folder := "profile/uid-" +:+ ToString (uid data) in
      url <~ call (UploadImage filename folder newPath)
                  (uploadImage env filename folder newPath) ;;
      _ <~ deleteCurrentPicture (uid data) "uploadedpicture" ;;
      _ <~ call (UpdateProfile (callerUid data) (uid data) url)
                (updateProfile env (callerUid data) (uid data) url) ;;
      ret url.

(** [try { body } finally { if (picture.path) await file.delete(picture.path) }]
    once [picture.path] is [p]: a throwing cleanup replaces the outcome. *)
Definition finally_delete {A : Type} (p : string) (body : M A) : M A :=
  fun log =>
    let '(r, log') := body log in
    if negb (String.eqb p "") then
      match call (FileDelete p) (file_delete env p) log' with
      | (Ok _, log'') => (r, log'')
      | (Throw e, log'') => (Throw e, log'')
      end
    else (r, log').

Definition uploadCroppedPicture (data : imageUpload) : M string :=
  if negb (truthy (allowProfileImageUploads env))
  then throw "[[error:profile-image-uploads-disabled]]"
  else
    _ <~ lift (validateUpload data (maximumProfileImageSize env) getAllowedImageTypes) ;;
    let extension := typeToExtension env (mimeFromBase64 env (imageData data)) in
    if negb (truthy extension) then throw "[[error:invalid-image-extension]]"
    else
      tmp <~ call (WriteTempFile (imageData data))
                  (writeImageDataToTempFile env (imageData data)) ;;
      fun log =>
        match convertToPNG tmp log with
        | (Throw e, log') => finally_delete tmp (throw e) log'
        | (Ok newPath, log') =>
            finally_delete newPath
              (_ <~ call (ResizeImage newPath (profileImageDimension env)
                                      (profileImageDimension env))
                         (resizeImage env newPath) ;;
               let filename := generateProfileImageFilename (i_uid data) extension in
               let folder := "profile/uid-" +:+ ToString (i_uid data) in
               url <~ call (UploadImage filename folder newPath)
                           (uploadImage env filename folder newPath) ;;
               _ <~ deleteCurrentPicture (i_uid data) "uploadedpicture" ;;
               _ <~ call (UpdateProfile (i_callerUid data) (i_uid data) url)
                         (updateProfile env (i_callerUid data) (i_uid data) url) ;;
               ret url) log'
        end.

(** Returns the url, or [None] when only the position was updated. *)
Definition updateCoverPicture (data : imageUpload) : M (option string) :=
  if negb (truthy (imageData data)) && truthy (position data) then
    _ <~ updateCoverPosition (i_uid data) (position data) ;;
    ret None
  else
    _ <~ lift (validateUpload data (maximumCoverImageSize env)
                 ["image/png"; "image/jpeg"; "image/bmp"]) ;;
    tmp <~ call (WriteTempFile (imageData data))
                (writeImageDataToTempFile env (imageData data)) ;;
    finally_delete tmp
      (let extension := typeToExtension env (mimeFromBase64 env (imageData data)) in
       let filename := ToString (i_uid data) +:+ "-profilecover-" +:+ ToString (now env)
                         +:+ ToString extension in
       let folder := "profile/uid-" +:+ ToString (i_uid data) in
       url <~ call (UploadImage filename folder tmp)
                   (uploadImage env filename folder tmp) ;;
       _ <~ deleteCurrentPicture (i_uid data) "cover:url" ;;
       _ <~ call (SetUserField (i_uid data) "cover:url" (VStr url))
                 (setUserField env (i_uid data) "cover:url" (VStr url)) ;;
       _ <~ (if truthy (position data)
             then updateCoverPosition (i_uid data) (position data)
             else ret tt) ;;
       ret (Some url)).

End WithEnv.

End Picture.

(** An environment for evaluating the uploads: profile images are limited to
    256 KiB, and every external call succeeds. *)
Module PictureEval.
Import Picture.

Definition evalEnv (allowUploads : value) : Env := {|
  allowProfileImageUploads := allowUploads;
  maximumProfileImageSize := VNum (num_of_Z 256);
  maximumCoverImageSize := VNum (num_of_Z 2048);
  convertProfileImageToPNG := VNum (num_of_Z 0);
  keepAllUserImages := VNum (num_of_Z 0);
  profileImageDimension := VNum (num_of_Z 200);
  relative_path := "";
  upload_path := "/public/uploads";
  now := VNum (num_of_Z 1700000000000);
  typeToExtension := fun t => match t with VStr "image/png" => VStr ".png" | _ => VStr "" end;
  sizeFromBase64 := fun _ => VNum (num_of_Z 1000);
  mimeFromBase64 := fun _ => VStr "image/png";
  path_join := fun a b c => a +:+ "/" +:+ b +:+ "/" +:+ c;
  writeImageDataToTempFile := fun _ => Ok "/tmp/upload";
  normalise := fun p => Ok (p +:+ ".png");
  file_delete := fun _ => Ok tt;
  resizeImage := fun _ => Ok tt;
  uploadImage := fun filename folder _ => Ok ("/assets/uploads/" +:+ folder +:+ "/" +:+ filename);
  getUserField := fun _ _ => Ok (VStr "");
  setUserField := fun _ _ _ => Ok tt;
  updateProfile := fun _ _ _ => Ok tt;
|}.

Definition photo (bytes : Z) (mime : value) : fileUpload :=
  {| file := {| size := VNum (num_of_Z bytes); type := mime; path := "/tmp/photo" |};
     uid := VNum (num_of_Z 7);
     callerUid := VNum (num_of_Z 7) |}.

(** An environment in which user 7 has a stored picture and a stored cover,
    profile images are converted to PNG, [keep] is
    meta.config['profile:keepAllUserImages'] and [upload] is the outcome of
    [image.uploadImage]. *)
Definition storedEnv (keep : value) (upload : result string) : Env := {|
  allowProfileImageUploads := VNum (num_of_Z 1);
  maximumProfileImageSize := VNum (num_of_Z 256);
  maximumCoverImageSize := VNum (num_of_Z 2048);
  convertProfileImageToPNG := VNum (num_of_Z 1);
  keepAllUserImages := keep;
  profileImageDimension := VNum (num_of_Z 200);
  relative_path := "";
  upload_path := "/public/uploads";
  now := VNum (num_of_Z 1700000000000);
  typeToExtension := fun t => match t with VStr "image/png" => VStr ".png" | _ => VStr "" end;
  sizeFromBase64 := fun _ => VNum (num_of_Z 1000);
  mimeFromBase64 := fun _ => VStr "image/png";
  path_join := fun a b c => a +:+ "/" +:+ b +:+ "/" +:+ c;
  writeImageDataToTempFile := fun _ => Ok "/tmp/upload";
  normalise := fun p => Ok (p +:+ ".png");
  file_delete := fun _ => Ok tt;
  resizeImage := fun _ => Ok tt;
  uploadImage := fun _ _ _ => upload;
  getUserField := fun _ field => Ok (VStr ("/assets/uploads/profile/uid-7/" +:+ field +:+ ".png"));
  setUserField := fun _ _ _ => Ok tt;
  updateProfile := fun _ _ _ => Ok tt;
|}.

(** A base64 upload of user 7. *)
Definition base64 (position0 : value) : imageUpload :=
  {| imageData := VStr "data:image/png;base64,iVBORw0KGgo=";
     position := position0;
     i_uid := VNum (num_of_Z 7);
     i_callerUid := VNum (num_of_Z 7) |}.

End PictureEval.

(** ** User sessions (User.auth.addSession and its helpers) *)

Module Auth.

(** What the session store holds under a session id: an object without a
    [passport], or with a [passport] that is null, that has no [user], or
    that has one. *)
Inductive session : Type :=
| NoPassport
| NullPassport
| PassportWithoutUser
| PassportUser (user : value).

(** The sorted sets of the database, each a list of members with their
    scores in ascending order of score, and the session store. *)
Record db : Type := {
  sortedSets : gmap string (list (string * Z));
  sessionStore : gmap string session;
}.

(** Modelled from the spec: db.getSortedSetRange, db.sortedSetAdd and
    db.sortedSetRemove are not under src/; a sorted set is an
    ordered-by-score keyed collection, and adding a member that is present
    replaces its score. *)
Definition getSortedSetRange (d : db) (key : string) : list string :=
  (default [] (sortedSets d !! key)).*1.

(** Modelled from the spec: the place of a member in a collection ordered by
    score; among equal scores the newcomer is last. *)
Fixpoint insert_by_score (m : string) (score : Z) (l : list (string * Z))
  : list (string * Z) :=
  match l with
  | [] => [(m, score)]
  | (m', score') :: l' =>
      if (score <? score')%Z then (m, score) :: l
      else (m', score') :: insert_by_score m score l'
  end.

(** Modelled from the spec: db.sortedSetAdd(key, score, member). *)
Definition sortedSetAdd (key : string) (score : Z) (member : string) (d : db) : db :=
  let old := default [] (sortedSets d !! key) in
  let others := List.filter (fun e => negb (String.eqb e.1 member)) old in
  {| sortedSets := <[key := insert_by_score member score others]> (sortedSets d);
     sessionStore := sessionStore d |}.

(** Modelled from the spec: db.sortedSetRemove(key, members). *)
Definition sortedSetRemove (key : string) (members : list string) (d : db) : db :=
  let old := default [] (sortedSets d !! key) in
  {| sortedSets :=
       <[key := List.filter (fun e => negb (existsb (String.eqb e.1) members)) old]>
         (sortedSets d);
     sessionStore := sessionStore d |}.

(** Modelled from the spec: db.sessionStoreDestroy(sid) forgets the session. *)
Definition sessionStoreDestroy (sid : string) (d : db) : db :=
  {| sortedSets := sortedSets d; sessionStore := delete sid (sessionStore d) |}.

(** [`uid:${uid}:sessions`] *)
Definition sessions_key `{Host} (uid : value) : string :=
  "uid:" +:+ ToString uid +:+ ":sessions".

(** The session id an element of a JavaScript array stands for. *)
Definition sid_of (v : value) : string :=
  match v with VStr s => s | _ => "" end.

Section WithHost.
Context `{Host}.

(** [maxUserSessions] is meta.config.maxUserSessions, [now] is [Date.now()]. *)
Variable maxUserSessions : value.
Variable now : Z.

(** The callbacks of [sids.map] run concurrently: each pushes its session id
    when its own [db.sessionStoreGet] settles.  [settled sids] is [sids] in
    the order in which the lookups settle, a rearrangement of [sids] that
    the session store decides. *)
Variable settled : list string -> list string.

(** The callback's test on the session stored under [sid]; reading
    [hasOwnProperty] of a null passport throws a TypeError. *)
Definition expired (d : db) (uid : value) (sid : string) : result bool :=
  match sessionStore d !! sid with
  | None | Some NoPassport | Some PassportWithoutUser => Ok true
  | Some NullPassport => Throw "Cannot read properties of null"
  | Some (PassportUser user) => Ok (negb (num_eq (parseInt10 user) (parseInt10 uid)))
  end.

(** The session under [sid] carries a passport of the user [uid]. *)
Definition own_session (d : db) (uid : value) (sid : string) : bool :=
  match expired d uid sid with Ok false => true | _ => false end.

(** The two arrays the callbacks fill, expired ids first, each in the order
    in which the lookups settled.  A callback that throws rejects
    [Promise.all]; the lookups change nothing in the store. *)
Fixpoint sort_sessions (d : db) (uid : value) (sids : list string)
  : result (list string * list string) :=
  match sids with
  | [] => Ok ([], [])
  | sid :: rest =>
      e <- expired d uid sid ;;
      r <- sort_sessions d uid rest ;;
      Ok (if e then (sid :: r.1, r.2) else (r.1, sid :: r.2))
  end.

(** Returns the active session ids, in the order in which their lookups
    settled. *)
Definition cleanExpiredSessions (uid : value) (d : db) : result (list value) * db :=
  let sids := getSortedSetRange d (sessions_key uid) in
  match sids with
  | [] => (Ok [], d)
  | _ =>
      match sort_sessions d uid (settled sids) with
      | Throw e => (Throw e, d)
      | Ok (expiredSids, activeSids) =>
          (Ok (List.map VStr activeSids),
           sortedSetRemove (sessions_key uid) expiredSids d)
      end
  end.

(** The state carries the list of session ids handed to [revokeSession]. *)
Definition revokeSession (sessionIds : value) (uid : value) (st : db * list (list string))
  : db * list (list string) :=
  let ids := match sessionIds with
             | VArr xs => List.map sid_of xs
             | v => [sid_of v]
             end in
  let d := sortedSetRemove (sessions_key uid) ids st.1 in
  let d := foldl (fun d sid => sessionStoreDestroy sid d) d ids in
  (d, st.2 ++ [ids]).

(** [activeSids] is whatever the caller passes: its [length] is read as
    JavaScript reads it. *)
Definition revokeSessionsAboveThreshold (activeSids : value) (uid : value)
  (st : db * list (list string)) : result unit * (db * list (list string)) :=
  if negb (gt maxUserSessions (VNum (num_of_Z 0))) then (Ok tt, st)
  else
    match length_of activeSids with
    | Throw e => (Throw e, st)
    | Ok len =>
        if negb (gt len maxUserSessions) then (Ok tt, st)
        else
          match activeSids with
          | VArr xs =>
              let sessionsToRevoke :=
                take (slice_end (length xs)
                        (num_sub_from (Z.of_nat (length xs)) (ToNumber maxUserSessions))) xs in
              (Ok tt, revokeSession (VArr sessionsToRevoke) uid st)
          | VStr s =>
              let n := slice_end (String.length s)
                         (num_sub_from (Z.of_nat (String.length s))
                                       (ToNumber maxUserSessions)) in
              (Ok tt, revokeSession (VStr (String.substring 0 n s)) uid st)
          | _ => (Throw "activeSids.slice is not a function", st)
          end
    end.

(** [revokeSessionsAboveThreshold] receives [activeSids.push(sessionId)]. *)
Definition addSession (uid : value) (sessionId : string) (st : db * list (list string))
  : result unit * (db * list (list string)) :=
  if negb (num_lt (num_of_Z 0) (parseInt10 uid)) then (Ok tt, st)
  else
    match cleanExpiredSessions uid st.1 with
    | (Throw e, d) => (Throw e, (d, st.2))
    | (Ok activeSids, d) =>
        let d := sortedSetAdd (sessions_key uid) now sessionId d in
        revokeSessionsAboveThreshold (push activeSids (VStr sessionId)).2 uid (d, st.2)
    end.

End WithHost.

(** Two session stores: one whose lookups settle in the order they were
    started, one whose lookups settle in the opposite order. *)
Definition in_turn : list string -> list string := fun sids => sids.
Definition last_first : list string -> list string := fun sids => rev sids.

(** A user with one active session, [s1]. *)
Definition one_session : db := {|
  sortedSets := {[ "uid:1:sessions" := [("s1", 1000%Z)] ]};
  sessionStore := {[ "s1" := PassportUser (VNum (num_of_Z 1)) ]};
|}.

(** *** Revoking the sessions of several users *)

Section AllSessions.
Context `{Host}.

(** [sids[index].filter(id => id !== except)] *)
Definition other_sessions (except : value) (sids : list string) : list string :=
  List.filter (fun id => negb (is_str except id)) sids.

(** [db.getSortedSetsMembers] reads each sorted set in full, before any
    session is revoked; the revocations start in the order of [uids]. *)
Definition revokeAllSessions (uids except : value) (st : db * list (list string))
  : db * list (list string) :=
  let uids := match uids with VArr l => l | v => [v] end in
  let sids := List.map (fun uid => getSortedSetRange st.1 (sessions_key uid)) uids in
  foldl (fun st p =>
           let ids := other_sessions except p.2 in
           if negb (length ids =? 0)%nat
           then revokeSession (VArr (List.map VStr ids)) p.1 st
           else st)
        st (zip uids sids).

End AllSessions.

(** *** Failed logins and the lockout *)

(** The calls [logAttempt] makes on the database and on the event log. *)
Inductive attempt_event : Type :=
| DbExists (key : string)
| DbIncrement (key : string)
| DbPexpire (key : string) (ms : jsnum)
| DbSet (key : string) (v : value)
| DbDelete (key : string)
| EventsLog (type : string) (uid ip : value).

(** meta.config.loginAttempts and meta.config.lockoutDuration, and the
    outcomes of the calls. *)
Record lockoutEnv : Type := {
  loginAttempts : value;
  lockoutDuration : value;
  db_exists : string -> result value;
  db_increment : string -> result value;
  db_pexpire : string -> jsnum -> result unit;
  db_set : string -> value -> result unit;
  db_delete : string -> result unit;
  events_log : string -> value -> value -> result unit;
}.

Section Lockout.
Context `{Host} (env : lockoutEnv).

(** [attempts] is a number, so [attempts <= meta.config.loginAttempts]
    compares numbers. *)
Definition logAttempt (uid ip : value) : Js.M (list attempt_event) unit :=
  if negb (num_lt (num_of_Z 0) (parseInt10 uid)) then ret tt
  else
    let lockout := "lockout:" +:+ ToString uid in
    let counter := "loginAttempts:" +:+ ToString uid in
    exists_ <~ call (DbExists lockout) (db_exists env lockout) ;;
    if truthy exists_ then throw "[[error:account-locked]]"
    else
      attempts <~ call (DbIncrement counter) (db_increment env counter) ;;
      if num_le (ToNumber attempts) (ToNumber (loginAttempts env)) then
        call (DbPexpire counter (num_of_Z 3600000))
             (db_pexpire env counter (num_of_Z 3600000))
      else
        _ <~ call (DbSet lockout (VStr "")) (db_set env lockout (VStr "")) ;;
        let duration := num_scale (ToNumber (lockoutDuration env)) 60000 in
        _ <~ call (DbDelete counter) (db_delete env counter) ;;
        _ <~ call (DbPexpire lockout duration) (db_pexpire env lockout duration) ;;
        _ <~ call (EventsLog "account-locked" uid ip)
                  (events_log env "account-locked" uid ip) ;;
        throw "[[error:account-locked]]".

End Lockout.

(** The account of a user is being locked. *)
Definition locks (ev : attempt_event) : bool :=
  match ev with DbSet _ _ => true | _ => false end.

(** User 1 with two active sessions, [s1] and [s2], and a stale entry [s0]
    whose session has left the store. *)
Definition two_sessions : db := {|
  sortedSets := {[ "uid:1:sessions" := [("s0", 500%Z); ("s1", 1000%Z); ("s2", 2000%Z)] ]};
  sessionStore := {[ "s1" := PassportUser (VNum (num_of_Z 1));
                     "s2" := PassportUser (VStr "1") ]};
|}.

(** The sixth failed login in a row where five are allowed and a lockout
    lasts 60 minutes; the account is not locked yet and every call succeeds. *)
Definition sixth_attempt : lockoutEnv := {|
  loginAttempts := VNum (num_of_Z 5);
  lockoutDuration := VNum (num_of_Z 60);
  db_exists := fun _ => Ok (VBool false);
  db_increment := fun _ => Ok (VNum (num_of_Z 6));
  db_pexpire := fun _ _ => Ok tt;
  db_set := fun _ _ => Ok tt;
  db_delete := fun _ => Ok tt;
  events_log := fun _ _ _ => Ok tt;
|}.

End Auth.

(** ** Post delays (User.isReadyToPost) *)

Module PostDelay.

(** The delays of meta.config, in seconds, and the reputation threshold. *)
Record config : Type := {
  postDelay : Z;
  newbiePostDelay : Z;
  newbieReputationThreshold : Z;
  initialPostDelay : Z;
}.

(** The fields of the user the check reads; the times are in milliseconds. *)
Record userData : Type := {
  lastposttime : option Z;
  joindate : Z;
  reputation : Z;
}.

Section WithMessages.
(** The tests fix only how the messages of the last two limits begin; the
    rest of each message is a parameter. *)
Variable newbie_rest : config -> string.
Variable too_new_rest : config -> string.

(** Modelled from the spec: User.isReadyToPost and its helper checkPostDelays
    (src/user/posts.js) are not under src/; only their tests are
    (test/posts/posts.js).  A user who posts again within
    meta.config.postDelay seconds of lastposttime is rejected with
    '[[error:too-many-posts, <postDelay>]]'.  The tests name two more limits,
    which they reach with the standard delay switched off: a newbie, whose
    reputation is below meta.config.newbieReputationThreshold, within
    meta.config.newbiePostDelay seconds ('[[error:too-many-posts-newbie...');
    and a user who joined less than meta.config.initialPostDelay seconds ago
    ('[[error:user-too-new...'). *)
Definition checkPostDelays (cfg : config) (now : Z) (u : userData) : result unit :=
  let lasttime := default 0%Z (lastposttime u) in
  if (now - lasttime <? postDelay cfg * 1000)%Z then
    Throw ("[[error:too-many-posts, " +:+ pretty (postDelay cfg) +:+ "]]")
  else if (0 <? newbiePostDelay cfg)%Z
          && (reputation u <? newbieReputationThreshold cfg)%Z
          && (now - lasttime <? newbiePostDelay cfg * 1000)%Z then
    Throw ("[[error:too-many-posts-newbie" +:+ newbie_rest cfg)
  else if (now - joindate u <? initialPostDelay cfg * 1000)%Z then
    Throw ("[[error:user-too-new" +:+ too_new_rest cfg)
  else Ok tt.

(** Modelled from the spec: see [checkPostDelays]. *)
Definition isReadyToPost (cfg : config) (now : Z) (u : userData) : result unit :=
  checkPostDelays cfg now u.

End WithMessages.

End PostDelay.

(** ** src/controllers/mods.js *)

Module Mods.

(** What a controller does to the response and to its callbacks.  A callback
    is named by the caller that supplied it; the data handed to the template
    is not tracked.  [helpers.notAllowed(req, res)] is an asynchronous
    function that [flags.list] calls without awaiting it: the event carries
    the error its promise is rejected with, if any, which nothing catches.
    [Threw] records an error thrown inside a try block, by the call or
    computation named. *)
Inductive event : Type :=
| NotAllowed (rejected : option string)
| Render (template : string)
| Called (callback : string) (err : option string)
| ConsoleError (err : string)
| Threw (what : string) (err : string).

Abbreviation M := (Js.M (list event)).

(** A step of a try block that may throw: an awaited call, or a synchronous
    computation. *)
Definition await {A : Type} (what : string) (r : result A) : M A :=
  fun log =>
    (r, match r with
        | Ok _ => log
        | Throw e => log ++ [Threw what e]
        end).

(** A call that leaves a trace whether it throws or not. *)
Definition traced {A : Type} (ev : event) (what : string) (r : result A) : M A :=
  _ <~ call ev (Ok tt) ;; await what r.

(** [cb && cb()]; [returns] is how the callback ends when called without
    an argument. *)
Definition call_if_given (cb : option string) (returns : result unit) : M unit :=
  match cb with
  | Some c => traced (Called c None) c returns
  | None => ret tt
  end.

(** [(async () => { try { body } catch (err) { done ? done(err) : console.error(err); } })()]:
    [done_with err] is how [done(err)] ends.  Nothing awaits the promise of
    this function: when it rejects, the rejection is unhandled. *)
Definition try_catch_done (done : option string) (done_with : string -> result unit)
  (body : M unit) : M unit :=
  fun log =>
    match body log with
    | (Ok _, log') => (Ok tt, log')
    | (Throw e, log') =>
        match done with
        | Some c => (done_with e, log' ++ [Called c (Some e)])
        | None => (Ok tt, log' ++ [ConsoleError e])
        end
    end.

(** [await Promise.all([a, b])] rejects with the rejection that comes first
    in time: [first e1 e2] is that one of the two. *)
Definition both {A B : Type} (first : string -> string -> string)
  (a : result A) (b : result B) : result (A * B) :=
  match a, b with
  | Ok x, Ok y => Ok (x, y)
  | Throw e, Ok _ => Throw e
  | Ok _, Throw e => Throw e
  | Throw e1, Throw e2 => Throw (first e1 e2)
  end.

(** The outcomes of the calls [modsController.flags.list] makes for a request,
    in the order of the source: user, plugins, the helpers of the controller
    that parse the filters and the sort, flags, analytics, helpers, the
    selected users, the argument of [res.render] and [res.render] itself;
    then how [helpers.notAllowed] settles, which of two rejections comes
    first, and how the callback [done] ends without and with an error. *)
Record listEnv : Type := {
  l_isAdminOrGlobalMod : result bool;
  l_getModeratedCids : result (list value);
  l_validateFilters : result unit;
  l_validateSort : result unit;
  l_parseFilters : result unit;
  l_flags_list : result unit;
  l_getDailyStatsForSet : result unit;
  l_getSelectedCategory : result unit;
  l_getSelectedUsers : result unit;
  l_view_model : result unit;
  l_render : result unit;
  l_notAllowed : result unit;
  l_first : string -> string -> string;
  l_done : result unit;
  l_done_with : string -> result unit;
}.

Definition error_of {A : Type} (r : result A) : option string :=
  match r with Ok _ => None | Throw e => Some e end.

(** The body of the try block of [modsController.flags.list]. *)
Definition list_body (env : listEnv) (done : option string) : M unit :=
  r <~ await "Promise.all"
         (both (l_first env)
               (both (l_first env) (l_isAdminOrGlobalMod env) (l_getModeratedCids env))
               (both (l_first env) (l_validateFilters env) (l_validateSort env))) ;;
  let isAdminOrGlobalMod := r.1.1 in
  let moderatedCids := r.1.2 in
  if negb (isAdminOrGlobalMod || negb (length moderatedCids =? 0)%nat) then
    _ <~ call (NotAllowed (error_of (l_notAllowed env))) (Ok tt) ;;
    call_if_given done (l_done env)
  else
    _ <~ await "parseFilters" (l_parseFilters env) ;;
    _ <~ await "Promise.all"
           (both (l_first env)
                 (both (l_first env) (l_flags_list env) (l_getDailyStatsForSet env))
                 (l_getSelectedCategory env)) ;;
    _ <~ await "getSelectedUsers" (l_getSelectedUsers env) ;;
    _ <~ await "view model" (l_view_model env) ;;
    _ <~ traced (Render "flags/list") "res.render" (l_render env) ;;
    call_if_given done (l_done env).

(** [modsController.flags.list = function (req, res, done)] *)
Definition flags_list (env : listEnv) (done : option string) : M unit :=
  try_catch_done done (l_done_with env) (list_body env done).

(** [flagData.type]: 'user', 'post', or anything else. *)
Inductive flagType : Type := UserFlag | PostFlag | OtherFlag.

(** The outcomes of the calls [modsController.flags.detail] makes for a
    request, in the order of the source; [flags.get] resolves to the flag or
    to nothing, [posts.getCidByPid] to a category id or to none.  Then which
    of two rejections comes first, and how the callbacks end: [next], [done]
    without an error and [done] with one. *)
Record detailEnv : Type := {
  d_isAdminOrGlobalMod : result bool;
  d_getModeratedCids : result (list value);
  d_flags_get : result (option flagType);
  d_privileges : result unit;
  d_isMemberOfSortedSets : result (list bool);
  d_getMembers_administrators : result unit;
  d_getMembers_globalMods : result unit;
  d_admin_getUidsWithPrivilege : result unit;
  d_getCidByPid : result bool;
  d_categories_getUidsWithPrivilege : result unit;
  d_getUsersData : result unit;
  d_getHistory : result unit;
  d_view_model : result unit;
  d_render : result unit;
  d_first : string -> string -> string;
  d_next : result unit;
  d_done : result unit;
  d_done_with : string -> result unit;
}.

(** The inner function [getAssignees]. *)
Definition getAssignees (env : detailEnv) (type : flagType) : result unit :=
  _ <- both (d_first env) (d_getMembers_administrators env) (d_getMembers_globalMods env) ;;
  _ <- match type with
       | UserFlag => d_admin_getUidsWithPrivilege env
       | PostFlag =>
           cid <- d_getCidByPid env ;;
           if cid then d_categories_getUidsWithPrivilege env else Ok tt
       | OtherFlag => Ok tt
       end ;;
  d_getUsersData env.

(** [flags.detail] from [getAssignees] on, once the flag may be shown. *)
Definition detail_rest (env : detailEnv) (type : flagType) (done : option string) : M unit :=
  _ <~ await "getAssignees" (getAssignees env type) ;;
  _ <~ await "flags.getHistory" (d_getHistory env) ;;
  _ <~ await "view model" (d_view_model env) ;;
  _ <~ traced (Render "flags/detail") "res.render" (d_render env) ;;
  call_if_given done (d_done env).

(** The body of the try block of [modsController.flags.detail]; [return next()]
    leaves it without calling [done]. *)
Definition detail_body (env : detailEnv) (next : string) (done : option string) : M unit :=
  r <~ await "utils.promiseParallel"
         (both (d_first env)
               (both (d_first env) (d_isAdminOrGlobalMod env) (d_getModeratedCids env))
               (both (d_first env) (d_flags_get env) (d_privileges env))) ;;
  let isAdminOrGlobalMod := r.1.1 in
  let moderatedCids := r.1.2 in
  match r.2.1 with
  | None => traced (Called next None) next (d_next env)
  | Some type =>
      if negb (isAdminOrGlobalMod || negb (length moderatedCids =? 0)%nat)
      then traced (Called next None) next (d_next env)
      else if isAdminOrGlobalMod then detail_rest env type done
      else
        match type with
        | UserFlag => traced (Called next None) next (d_next env)
        | PostFlag =>
            isFlagInModeratedCids <~ await "db.isMemberOfSortedSets"
                                       (d_isMemberOfSortedSets env) ;;
            if negb (existsb id isFlagInModeratedCids)
            then traced (Called next None) next (d_next env)
            else detail_rest env type done
        | OtherFlag => detail_rest env type done
        end
  end.

(** [modsController.flags.detail = function (req, res, next, done)] *)
Definition flags_detail (env : detailEnv) (next : string) (done : option string) : M unit :=
  try_catch_done done (d_done_with env) (detail_body env next done).

(** The outcomes of the calls [modsController.postQueue] makes for a request,
    in the order of the source; [q_filter_and_map] is the filtering of the
    queued posts, [q_view_model] the paging and the argument of [res.render].
    Then which of two rejections comes first, and how the callbacks end. *)
Record queueEnv : Type := {
  q_loggedIn : bool;
  q_getQueuedPosts : result unit;
  q_isAdministrator : result unit;
  q_isGlobalModerator : result unit;
  q_getModeratedCids : result unit;
  q_getSelectedCategory : result unit;
  q_privileges : result unit;
  q_filter_and_map : result unit;
  q_filter_post_queue_get : result unit;
  q_view_model : result unit;
  q_render : result unit;
  q_first : string -> string -> string;
  q_next : result unit;
  q_done : result unit;
  q_done_with : string -> result unit;
}.

(** The body of the try block of [modsController.postQueue]. *)
Definition postQueue_body (env : queueEnv) (next : string) (done : option string) : M unit :=
  if negb (q_loggedIn env) then
    _ <~ traced (Called next None) next (q_next env) ;;
    call_if_given done (q_done env)
  else
    _ <~ await "posts.getQueuedPosts" (q_getQueuedPosts env) ;;
    _ <~ await "Promise.all"
           (both (q_first env)
                 (both (q_first env)
                       (both (q_first env) (q_isAdministrator env) (q_isGlobalModerator env))
                       (both (q_first env) (q_getModeratedCids env)
                             (q_getSelectedCategory env)))
                 (q_privileges env)) ;;
    _ <~ await "filter and map" (q_filter_and_map env) ;;
    _ <~ await "filter:post-queue.get" (q_filter_post_queue_get env) ;;
    _ <~ await "view model" (q_view_model env) ;;
    _ <~ traced (Render "post-queue") "res.render" (q_render env) ;;
    call_if_given done (q_done env).

(** [modsController.postQueue = function (req, res, next, done)] *)
Definition postQueue (env : queueEnv) (next : string) (done : option string) : M unit :=
  try_catch_done done (q_done_with env) (postQueue_body env next done).

(** Of two rejections, the one named first. *)
Definition in_order : string -> string -> string := fun e1 _ => e1.

(** A request for a flag whose lookup fails. *)
Definition failing_detail : detailEnv := {|
  d_isAdminOrGlobalMod := Ok true;
  d_getModeratedCids := Ok [];
  d_flags_get := Throw "[[error:invalid-data]]";
  d_privileges := Ok tt;
  d_isMemberOfSortedSets := Ok [];
  d_getMembers_administrators := Ok tt;
  d_getMembers_globalMods := Ok tt;
  d_admin_getUidsWithPrivilege := Ok tt;
  d_getCidByPid := Ok true;
  d_categories_getUidsWithPrivilege := Ok tt;
  d_getUsersData := Ok tt;
  d_getHistory := Ok tt;
  d_view_model := Ok tt;
  d_render := Ok tt;
  d_first := in_order;
  d_next := Ok tt;
  d_done := Ok tt;
  d_done_with := fun _ => Ok tt;
|}.

(** A request to the post queue whose lookup fails. *)
Definition failing_queue : queueEnv := {|
  q_loggedIn := true;
  q_getQueuedPosts := Throw "[[error:no-privileges]]";
  q_isAdministrator := Ok tt;
  q_isGlobalModerator := Ok tt;
  q_getModeratedCids := Ok tt;
  q_getSelectedCategory := Ok tt;
  q_privileges := Ok tt;
  q_filter_and_map := Ok tt;
  q_filter_post_queue_get := Ok tt;
  q_view_model := Ok tt;
  q_render := Ok tt;
  q_first := in_order;
  q_next := Ok tt;
  q_done := Ok tt;
  q_done_with := fun _ => Ok tt;
|}.

(** A request for the list of flags whose database lookup fails. *)
Definition failing_list : listEnv := {|
  l_isAdminOrGlobalMod := Ok true;
  l_getModeratedCids := Ok [];
  l_validateFilters := Ok tt;
  l_validateSort := Ok tt;
  l_parseFilters := Ok tt;
  l_flags_list := Throw "[[error:invalid-data]]";
  l_getDailyStatsForSet := Ok tt;
  l_getSelectedCategory := Ok tt;
  l_getSelectedUsers := Ok tt;
  l_view_model := Ok tt;
  l_render := Ok tt;
  l_notAllowed := Ok tt;
  l_first := in_order;
  l_done := Ok tt;
  l_done_with := fun _ => Ok tt;
|}.

(** A request for the list of flags by a user who moderates nothing, on a
    response that cannot be written any more. *)
Definition refused_list : listEnv := {|
  l_isAdminOrGlobalMod := Ok false;
  l_getModeratedCids := Ok [];
  l_validateFilters := Ok tt;
  l_validateSort := Ok tt;
  l_parseFilters := Ok tt;
  l_flags_list := Ok tt;
  l_getDailyStatsForSet := Ok tt;
  l_getSelectedCategory := Ok tt;
  l_getSelectedUsers := Ok tt;
  l_view_model := Ok tt;
  l_render := Ok tt;
  l_notAllowed := Throw "Cannot set headers after they are sent to the client";
  l_first := in_order;
  l_done := Ok tt;
  l_done_with := fun _ => Ok tt;
|}.

(** No event of the log hands an error to a callback. *)
Definition no_error_call (log : list event) : Prop :=
  Forall (fun ev => match ev with Called _ (Some _) => False | _ => True end) log.

(** [m] adds no event that hands an error to a callback. *)
Definition quiet {A : Type} (m : M A) : Prop :=
  forall log, no_error_call log -> no_error_call (m log).2.

(** The errors thrown inside the try block, oldest first. *)
Definition thrown (log : list event) : list string :=
  omap (fun ev => match ev with Threw _ e => Some e | _ => None end) log.

(** [m] records the error it throws, and no other. *)
Definition recording {A : Type} (m : M A) : Prop :=
  forall log,
    thrown (m log).2
    = thrown log ++ match (m log).1 with Ok _ => [] | Throw e => [e] end.

(** The error [e] was handed to [done], or written to the console where
    there is no [done]. *)
Definition reported (done : option string) (e : string) (log : list event) : Prop :=
  match done with
  | Some c => In (Called c (Some e)) log
  | None => In (ConsoleError e) log
  end.

End Mods.

(** ** User search: src/user/search.js and its second version *)

Module Search.

(** A user object: its properties by name. *)
Abbreviation user := (gmap string value).

(** [u[k]] *)
Definition prop (u : user) (k : string) : value := default VUndefined (u !! k).

(** What activitypub.helpers.resolveLocalId resolves to. *)
Record localId : Type := {
  local_type : value;
  local_id : value;
}.

(** What activitypub.actors.assert resolves to: [true], an array of actors
    (here their ids), or anything else. *)
Inductive assertion : Type :=
| AssertTrue
| AssertActors (ids : list value)
| AssertOther.

(** What [map[key]] finds in an object literal: a property the literal
    defines, a property it inherits from [Object.prototype], or nothing. *)
Inductive lookup (A : Type) : Type :=
| Own (a : A)
| Inherited
| Absent.

Arguments Own {A} a.
Arguments Inherited {A}.
Arguments Absent {A}.

(** The property names of [Object.prototype]. *)
Definition object_prototype_keys : list string :=
  ["constructor"; "__defineGetter__"; "__defineSetter__"; "hasOwnProperty";
   "__lookupGetter__"; "__lookupSetter__"; "isPrototypeOf"; "propertyIsEnumerable";
   "toString"; "valueOf"; "__proto__"; "toLocaleString"].

Definition is_inherited (key : string) : bool :=
  existsb (String.eqb key) object_prototype_keys.

Section WithWorld.
(** [W] is the state of the database, the plugins and the network.  What the
    console shows is not part of it: the first file prints a line in
    [filterAndSortUids]. *)
Context {W : Type}.

(** The argument of [User.search]; [None] is an absent property, and
    [data_findUids] is [data.findUids]. *)
Record searchData : Type := {
  query : value;
  searchBy : value;
  page : value;
  uid : value;
  paginate : option value;
  data_findUids : option (value -> value -> value -> M W (list value));
  hardCap : value;
  filters : value;
  sortBy : value;
  sortDirection : value;
  groupName : value;
  resultsPerPage : value;
}.

(** The result of [User.search], without its [timing]. *)
Record searchResult : Type := {
  matchCount : nat;
  pageCount : option value;
  users : list (option user);
}.

(** The operators and library functions of JavaScript the search applies to
    values, meta.config, and the modules activitypub, User, db, groups and
    plugins.  [User.blocks.list] resolves to any value; [filter_inherited key]
    is [userData.filter(Object.prototype[key])]. *)
Record Env : Type := {
  sub : value -> value -> value;
  mul : value -> value -> value;
  add : value -> value -> value;
  div : value -> value -> value;
  math_max : value -> value -> value;
  math_ceil : value -> value;
  lt : value -> value -> bool;
  slice : list value -> value -> value -> list value;
  sort : (user -> user -> value) -> list user -> list user;
  uniq : list value -> list value;
  array_includes : list value -> value -> bool;
  activitypubEnabled : value;
  userSearchResultsPerPage : value;
  now : value;
  BANNED_USERS : value;
  isWebfinger : value -> value;
  isUri : value -> bool;
  resolveLocalId : value -> M W localId;
  actors_assert : value -> M W assertion;
  getUidByUserslug : value -> M W value;
  getUsersFields : list value -> list value -> M W (list user);
  getUsers : list value -> value -> M W (list (option user));
  blocks_list : value -> M W value;
  filter_inherited : string -> list user -> result (list user);
  db_scan : string -> M W (list value);
  getSortedSetRevRange : list value -> M W (list value);
  getSortedSetRangeByLex : string -> string -> string -> value -> M W (list string);
  isMembers : list value -> value -> M W (list value);
  filter_users_search : list value -> value -> M W (list value);
}.

Context `{Host} (env : Env).

(** *** What both files define in the same words *)

(** [filterFnMap[f]] *)
Definition filterFnMap (f : value) : lookup (user -> bool) :=
  let key := ToString f in
  if String.eqb key "online" then
    Own (fun u => negb (is_str (prop u "status") "offline")
                  && lt_num (sub env (now env) (prop u "lastonline")) (num_of_Z 300000))
  else if String.eqb key "flagged" then
    Own (fun u => num_lt (num_of_Z 0) (parseInt10 (prop u "flags")))
  else if String.eqb key "verified" then
    Own (fun u => truthy (prop u "email:confirmed"))
  else if String.eqb key "unverified" then
    Own (fun u => negb (truthy (prop u "email:confirmed")))
  else if is_inherited key then Inherited
  else Absent.

(** [filterFieldMap[f]] *)
Definition filterFieldMap (f : value) : lookup (list value) :=
  let key := ToString f in
  if String.eqb key "online" then Own [VStr "status"; VStr "lastonline"]
  else if String.eqb key "flagged" then Own [VStr "flags"]
  else if String.eqb key "verified" then Own [VStr "email:confirmed"]
  else if String.eqb key "unverified" then Own [VStr "email:confirmed"]
  else if is_inherited key then Inherited
  else Absent.

(** [if (filterFieldMap[f]) { fields.push(...filterFieldMap[f]); }]: what is
    inherited from [Object.prototype] is truthy and cannot be spread. *)
Definition push_fields (fields : list value) (f : value) : result (list value) :=
  match filterFieldMap f with
  | Own fs => Ok (fields ++ fs)
  | Inherited => Throw "Spread syntax requires ...iterable[Symbol.iterator] to be a function"
  | Absent => Ok fields
  end.

(** [if (filterFnMap[f]) { userData = userData.filter(filterFnMap[f]); }] *)
Definition filter_with (userData : list user) (f : value) : result (list user) :=
  match filterFnMap f with
  | Own fn => Ok (List.filter fn userData)
  | Inherited => filter_inherited env (ToString f) userData
  | Absent => Ok userData
  end.

(** [filters.forEach(...)] with a callback that may throw. *)
Fixpoint for_each {A : Type} (step : A -> value -> result A) (acc : A)
  (filters0 : list value) : result A :=
  match filters0 with
  | [] => Ok acc
  | f :: rest => acc' <- step acc f ;; for_each step acc' rest
  end.

(** [query.substr(0, query.length - 1)
     + String.fromCharCode(query.charCodeAt(query.length - 1) + 1)];
    on the empty string the character code is NaN and the result the
    character 0. *)
Definition lex_upper (q : string) : string :=
  match rev (list_ascii_of_string q) with
  | [] => String (ascii_of_nat 0) EmptyString
  | c :: before =>
      string_of_list_ascii (rev before ++ [ascii_of_nat (nat_of_ascii c + 1)])
  end.

(** The uid in an entry of a sorted index, the callback of [data.map]. *)
Definition uid_of_entry (entry : string) : value :=
  if includes ":https:" entry then VStr (after_first_char_of ":https:" entry)
  else VStr (after_last ":" entry entry).

Definition findUids (query0 searchBy0 hardCap0 : value) : M W (list value) :=
  if negb (truthy query0) then ret []
  else
    let q := toLowerCase (ToString query0) in
    let min := q in
    let max := lex_upper q in
    let resultsPerPage0 := userSearchResultsPerPage env in
    let hardCap1 := or_else hardCap0 (mul env resultsPerPage0 (VNum (num_of_Z 10))) in
    data <~ getSortedSetRangeByLex env (ToString searchBy0 +:+ ":sorted") min max hardCap1 ;;
    ret (List.map uid_of_entry data).

(** Sorts in place; the sorted array is returned here. *)
Definition sortUsers (userData : list user) (sortBy0 sortDirection0 : value) : list user :=
  match userData with
  | [] => userData
  | first :: _ =>
      let sortDirection1 := or_else sortDirection0 (VStr "desc") in
      let direction := if is_str sortDirection1 "desc" then 1%Z else (-1)%Z in
      let key := ToString sortBy0 in
      if isNumber (prop first key) then
        sort env (fun u1 u2 =>
                    mul env (VNum (num_of_Z direction)) (sub env (prop u2 key) (prop u1 key)))
             userData
      else
        sort env (fun u1 u2 =>
                    if lt env (prop u1 key) (prop u2 key) then VNum (num_of_Z (direction * -1))
                    else if lt env (prop u2 key) (prop u1 key) then VNum (num_of_Z (direction * 1))
                    else VNum (num_of_Z 0))
             userData
  end.

(** [_.uniq] is [uniq]. *)
Definition searchByIP (ip : value) : M W (list value) :=
  ipKeys <~ db_scan env ("ip:" +:+ ToString ip +:+ "*") ;;
  uids <~ getSortedSetRevRange env ipKeys ;;
  ret (uniq env uids).

(** [uids.filter((uid, i) => flags[i])] *)
Definition filter_by_index (keep : nat -> bool) (uids : list value) : list value :=
  (List.filter (fun p => keep p.1) (imap (fun i u => (i, u)) uids)).*2.

(** [uids.length = n]: a length that is not an array index is a RangeError;
    added slots read as undefined. *)
Definition set_length (uids : list value) (n : value) : result (list value) :=
  match ToNumber n with
  | Fin q =>
      let z := (Qnum q / Zpos (Qden q))%Z in
      if Qeq_bool q (inject_Z z) && (0 <=? z)%Z && (z <? 4294967296)%Z
      then Ok (take (Z.to_nat z) uids ++ replicate (Z.to_nat z - length uids) VUndefined)
      else Throw "Invalid array length"
  | _ => Throw "Invalid array length"
  end.

(** [blocks.includes(x)] where [blocks.length] is truthy: an array or a
    string. *)
Definition blocks_includes (blocks : value) (x : value) : bool :=
  match blocks with
  | VArr l => array_includes env l x
  | VStr s => includes (ToString x) s
  | _ => false
  end.

(** [if (user) { user.isBlocked = blocks.includes(user.uid); }] *)
Definition set_isBlocked (blocks : value) (u : option user) : option user :=
  match u with
  | Some u => Some (<["isBlocked" := VBool (blocks_includes blocks (prop u "uid"))]> u)
  | None => None
  end.

(** The property names of [mapping], [apMapping] in the second file. *)
Definition apMapping (searchBy0 : value) : option value :=
  let key := ToString searchBy0 in
  if String.eqb key "username" then Some (VStr "ap.preferredUsername")
  else if String.eqb key "fullname" then Some (VStr "ap.name")
  else None.

(** [user && utils.isNumber(user.uid) ? user.uid > 0 : activitypub.helpers.isUri(user.uid)]:
    a missing user reaches the last operand, which reads a property of it. *)
Definition keep_user (u : option user) : result bool :=
  match u with
  | Some u' =>
      if isNumber (prop u' "uid") then Ok (gt_num (prop u' "uid") (num_of_Z 0))
      else Ok (isUri env (prop u' "uid"))
  | None => Throw "Cannot read properties of null"
  end.

(** [userData.filter(...)] with the test above. *)
Fixpoint filter_users (l : list (option user)) : result (list (option user)) :=
  match l with
  | [] => Ok []
  | u :: rest =>
      k <- keep_user u ;;
      rest' <- filter_users rest ;;
      Ok (if k then u :: rest' else rest')
  end.

(** The test of the last filter of [User.search] on a user that is present. *)
Definition kept (u : user) : bool :=
  if isNumber (prop u "uid") then gt_num (prop u "uid") (num_of_Z 0)
  else isUri env (prop u "uid").

End WithWorld.

Arguments searchData W : clear implicits.
Arguments Env W : clear implicits.

(** *** src/user/search.js *)

Module A.
Section WithWorld.
Context {W : Type} `{Host} (env : Env W).

Definition normalizeFilters (filters0 : value) : list value :=
  let list := or_else filters0 (VArr []) in
  match list with
  | VArr l => l
  | _ => [list]
  end.

Definition collectFields (sortBy0 : value) (filters0 : list value)
  : result (list value) :=
  let fields := [] in
  let fields := if truthy sortBy0 then fields ++ [sortBy0] else fields in
  for_each push_fields fields filters0.

Definition applyGroupFilter (uids : list value) (groupName0 : value) : M W (list value) :=
  if negb (truthy groupName0) then ret uids
  else
    isMembers0 <~ isMembers env uids groupName0 ;;
    ret (filter_by_index (fun i => truthy (default VUndefined (isMembers0 !! i))) uids).

Definition maybeApplyBannedFilter (uids : list value) (filters0 : list value)
  : M W (list value) :=
  let wantsBanned := existsb (fun f => is_str f "banned") filters0
                     || existsb (fun f => is_str f "notbanned") filters0 in
  if negb wantsBanned then ret uids
  else
    isMembersOfBanned <~ isMembers env uids (BANNED_USERS env) ;;
    let checkBanned := existsb (fun f => is_str f "banned") filters0 in
    ret (filter_by_index
           (fun i => if checkBanned
                     then truthy (default VUndefined (isMembersOfBanned !! i))
                     else negb (truthy (default VUndefined (isMembersOfBanned !! i))))
           uids).

Definition applyFilterFns (userData : list user) (filters0 : list value)
  : result (list user) :=
  for_each (filter_with env) userData filters0.

Definition filterAndSortUids (uids : list value) (data : searchData W) : M W (list value) :=
  let filteredUids :=
    List.filter (fun u => truthy (VNum (parseInt10 u)) || isUri env u) uids in
  let filters0 := normalizeFilters (filters data) in
  fields <~ lift (collectFields (sortBy data) filters0) ;;
  filteredUids <~ applyGroupFilter filteredUids (groupName data) ;;
  if (length fields =? 0)%nat then ret filteredUids
  else
    filteredUids <~ maybeApplyBannedFilter filteredUids filters0 ;;
    let fields := fields ++ [VStr "uid"] in
    userData <~ getUsersFields env filteredUids fields ;;
    userData <~ lift (applyFilterFns userData filters0) ;;
    let userData := if truthy (sortBy data)
                    then sortUsers env userData (sortBy data) (sortDirection data)
                    else userData in
    ret (List.map (fun u => prop u "uid") userData).

Definition search (data : searchData W) : M W searchResult :=
  let query0 := or_else (query data) (VStr "") in
  let searchBy0 := or_else (searchBy data) (VStr "username") in
  let page0 := or_else (page data) (VNum (num_of_Z 1)) in
  let uid0 := or_else (uid data) (VNum (num_of_Z 0)) in
  let paginate0 := match paginate data with Some p => p | None => VBool true end in
  uids <~
    (if is_str searchBy0 "ip" then searchByIP env query0
     else if is_str searchBy0 "uid" then ret [query0]
     else
       uids <~
         (if negb (bool_decide (is_Some (data_findUids data))) && truthy (uid data) then
            let handle := isWebfinger env (query data) in
            if truthy handle || isUri env (query data) then
              local <~ resolveLocalId env (query data) ;;
              if is_str (local_type local) "user" && isNumber (local_id local)
              then ret [local_id local]
              else
                assertion0 <~ actors_assert env (or_else handle (query data)) ;;
                match assertion0 with
                | AssertTrue =>
                    u <~ (if truthy handle then getUidByUserslug env handle
                          else ret query0) ;;
                    ret [u]
                | AssertActors ids => ret ids
                | AssertOther => ret []
                end
            else ret []
          else ret []) ;;
       if (length uids =? 0)%nat then
         let searchMethod := default (findUids env) (data_findUids data) in
         uids <~ searchMethod query0 searchBy0 (hardCap data) ;;
         if truthy (activitypubEnabled env) && bool_decide (is_Some (apMapping searchBy0))
         then
           more <~ searchMethod query0 (default VUndefined (apMapping searchBy0))
                     (hardCap data) ;;
           ret (uids ++ more)
         else ret uids
       else ret uids) ;;
  uids <~ filterAndSortUids uids data ;;
  uids <~ (if gt_num (hardCap data) (num_of_Z 0)
           then lift (set_length uids (hardCap data))
           else ret uids) ;;
  uids <~ filter_users_search env uids uid0 ;;
  let matchCount0 := length uids in
  let '(pageCount0, uids) :=
    if truthy paginate0 then
      let resultsPerPage0 := or_else (resultsPerPage data) (userSearchResultsPerPage env) in
      let start := mul env (math_max env (VNum (num_of_Z 0))
                                     (sub env page0 (VNum (num_of_Z 1)))) resultsPerPage0 in
      let stop := add env start resultsPerPage0 in
      (Some (math_ceil env (div env (VNum (num_of_Z (Z.of_nat (length uids)))) resultsPerPage0)),
       slice env uids start stop)
    else (None, uids) in
  userData <~ getUsers env uids uid0 ;;
  blocks <~ blocks_list env uid0 ;;
  blocks_length <~ lift (length_of blocks) ;;
  let userData := if truthy blocks_length
                  then List.map (set_isBlocked env blocks) userData
                  else userData in
  users0 <~ lift (filter_users env userData) ;;
  ret {| matchCount := matchCount0; pageCount := pageCount0; users := users0 |}.

End WithWorld.
End A.

(** *** The second version of the file *)

Module B.
Section WithWorld.
Context {W : Type} `{Host} (env : Env W).

Definition resolveActivityPubCandidates (query0 : value) : M W (list value) :=
  let handle := isWebfinger env query0 in
  let isUri0 := isUri env query0 in
  if negb (truthy handle) && negb isUri0 then ret []
  else
    local <~ resolveLocalId env query0 ;;
    if is_str (local_type local) "user" && isNumber (local_id local)
    then ret [local_id local]
    else
      assertion0 <~ actors_assert env (or_else handle query0) ;;
      match assertion0 with
      | AssertTrue =>
          uid0 <~ (if truthy handle then getUidByUserslug env handle else ret query0) ;;
          ret [uid0]
      | AssertActors ids => ret ids
      | AssertOther => ret []
      end.

Definition runSearchMethodWithApFallback (query0 searchBy0 : value) (data : searchData W)
  : M W (list value) :=
  let searchMethod := default (findUids env) (data_findUids data) in
  uids <~ searchMethod query0 searchBy0 (hardCap data) ;;
  if truthy (activitypubEnabled env) && bool_decide (is_Some (apMapping searchBy0)) then
    let apField := default VUndefined (apMapping searchBy0) in
    apUids <~ searchMethod query0 apField (hardCap data) ;;
    ret (uids ++ apUids)
  else ret uids.

Definition resolveUidsFromSearchBy (query0 searchBy0 : value) (data : searchData W)
  : M W (list value) :=
  if is_str searchBy0 "ip" then searchByIP env query0
  else if is_str searchBy0 "uid" then ret [query0]
  else if negb (bool_decide (is_Some (data_findUids data))) && truthy (uid data) then
    uids <~ resolveActivityPubCandidates (query data) ;;
    if negb (length uids =? 0)%nat then ret uids
    else runSearchMethodWithApFallback query0 searchBy0 data
  else runSearchMethodWithApFallback query0 searchBy0 data.

Definition applyPagniation (uids : list value) (page0 resultsPerPage0 : value)
  : list value * value :=
  let start := mul env (math_max env (VNum (num_of_Z 0))
                                 (sub env page0 (VNum (num_of_Z 1)))) resultsPerPage0 in
  let stop := add env start resultsPerPage0 in
  (slice env uids start stop,
   math_ceil env (div env (VNum (num_of_Z (Z.of_nat (length uids)))) resultsPerPage0)).

(** [userData] is an array, which is truthy; [blocks.length] is read of a
    truthy value only. *)
Definition attachBlockFlags (userData : list (option user)) (blocks : value)
  : result (list (option user)) :=
  if negb (truthy blocks) then Ok userData
  else
    blocks_length <- length_of blocks ;;
    if negb (truthy blocks_length) then Ok userData
    else Ok (List.map (set_isBlocked env blocks) userData).

Definition filterAndSortUids (uids : list value) (data : searchData W) : M W (list value) :=
  let uids := List.filter (fun u => truthy (VNum (parseInt10 u)) || isUri env u) uids in
  let filters0 := or_else (filters data) (VArr []) in
  let filters0 := match filters0 with
                  | VArr l => l
                  | _ => [filters data]
                  end in
  let fields := [] in
  let fields := if truthy (sortBy data) then fields ++ [sortBy data] else fields in
  fields <~ lift (for_each push_fields fields filters0) ;;
  uids <~ (if truthy (groupName data) then
             isMembers0 <~ isMembers env uids (groupName data) ;;
             ret (filter_by_index
                    (fun i => truthy (default VUndefined (isMembers0 !! i))) uids)
           else ret uids) ;;
  if (length fields =? 0)%nat then ret uids
  else
    uids <~ (if existsb (fun f => is_str f "banned") filters0
                || existsb (fun f => is_str f "notbanned") filters0
             then
               isMembersOfBanned <~ isMembers env uids (BANNED_USERS env) ;;
               let checkBanned := existsb (fun f => is_str f "banned") filters0 in
               ret (filter_by_index
                      (fun i => if checkBanned
                                then truthy (default VUndefined (isMembersOfBanned !! i))
                                else negb (truthy (default VUndefined (isMembersOfBanned !! i))))
                      uids)
             else ret uids) ;;
    let fields := fields ++ [VStr "uid"] in
    userData <~ getUsersFields env uids fields ;;
    userData <~ lift (for_each (filter_with env) userData filters0) ;;
    let userData := if truthy (sortBy data)
                    then sortUsers env userData (sortBy data) (sortDirection data)
                    else userData in
    ret (List.map (fun u => prop u "uid") userData).

Definition search (data : searchData W) : M W searchResult :=
  let query0 := or_else (query data) (VStr "") in
  let searchBy0 := or_else (searchBy data) (VStr "username") in
  let page0 := or_else (page data) (VNum (num_of_Z 1)) in
  let uid0 := or_else (uid data) (VNum (num_of_Z 0)) in
  let paginate0 := match paginate data with Some p => p | None => VBool true end in
  uids <~ resolveUidsFromSearchBy query0 searchBy0 data ;;
  uids <~ filterAndSortUids uids data ;;
  uids <~ (if gt_num (hardCap data) (num_of_Z 0)
           then lift (set_length uids (hardCap data))
           else ret uids) ;;
  uids <~ filter_users_search env uids uid0 ;;
  let matchCount0 := length uids in
  let '(pageCount0, uids) :=
    if truthy paginate0 then
      let resultsPerPage0 := or_else (resultsPerPage data) (userSearchResultsPerPage env) in
      let '(slice0, pageCount1) := applyPagniation uids page0 resultsPerPage0 in
      (Some pageCount1, slice0)
    else (None, uids) in
  userData <~ getUsers env uids uid0 ;;
  blocks <~ blocks_list env uid0 ;;
  userData <~ lift (attachBlockFlags userData blocks) ;;
  users0 <~ lift (filter_users env userData) ;;
  ret {| matchCount := matchCount0; pageCount := pageCount0; users := users0 |}.

End WithWorld.
End B.

End Search.

(** An environment for evaluating the search.  The state is the list of the
    calls made, oldest first.  The index 'username:sorted' holds alice (uid 1)
    and alan (uid 2); alan is banned; every user is a member of every other
    group; nobody is blocked; plugins change nothing; the arithmetic is that
    of the rationals. *)
Module SearchEval.
Import Search.

Definition world : Type := list string.

Definition logged {A : Type} (name : string) (a : A) : M world A :=
  fun w => (Ok a, w ++ [name]).

Definition arith (f : Q -> Q -> Q) (a b : value) : value :=
  match @ToNumber evalHost a, @ToNumber evalHost b with
  | Fin x, Fin y => VNum (Fin (f x y))
  | _, _ => VNum NaN
  end.

Definition index_of_value (v : value) : nat :=
  match @ToNumber evalHost v with
  | Fin q => Z.to_nat (Z.quot (Qnum q) (Zpos (Qden q)))
  | _ => 0
  end.

Fixpoint insert_sorted (cmp : user -> user -> value) (u : user) (l : list user) : list user :=
  match l with
  | [] => [u]
  | u' :: l' =>
      if @gt_num evalHost (cmp u u') (num_of_Z 0) then u' :: insert_sorted cmp u l'
      else u :: l
  end.

Definition user_of (uid0 : value) : user :=
  let n := @parseInt10 evalHost uid0 in
  {[ "uid" := VNum n;
     "username" := VStr (if num_is_Z n 1 then "alice" else "alan");
     "flags" := VNum (num_of_Z 0) ]}.

Definition evalEnv : Env world := {|
  sub := arith Qminus;
  mul := arith Qmult;
  add := arith Qplus;
  div := arith Qdiv;
  math_max := fun a b => if @gt evalHost a b then a else b;
  math_ceil := fun a =>
    match @ToNumber evalHost a with
    | Fin q => VNum (num_of_Z (Qceiling q))
    | n => VNum n
    end;
  lt := fun a b => @gt evalHost b a;
  slice := fun l a b => take (index_of_value b - index_of_value a) (drop (index_of_value a) l);
  sort := fun cmp l => foldr (insert_sorted cmp) [] l;
  uniq := fun l => l;
  array_includes := fun _ _ => false;
  activitypubEnabled := VBool false;
  userSearchResultsPerPage := VNum (num_of_Z 50);
  now := VNum (num_of_Z 1700000000000);
  BANNED_USERS := VStr "banned-users";
  isWebfinger := fun _ => VBool false;
  isUri := fun v => match v with VStr s => String.prefix "https://" s | _ => false end;
  resolveLocalId := fun _ => logged "resolveLocalId"
                               {| local_type := VNull; local_id := VNull |};
  actors_assert := fun _ => logged "actors.assert" AssertOther;
  getUidByUserslug := fun _ => logged "getUidByUserslug" VNull;
  getUsersFields := fun uids _ => logged "getUsersFields" (List.map user_of uids);
  getUsers := fun uids _ => logged "getUsers" (List.map (fun u => Some (user_of u)) uids);
  blocks_list := fun _ => logged "blocks.list" (VArr []);
  filter_inherited := fun _ l => Ok l;
  db_scan := fun _ => logged "scan" [];
  getSortedSetRevRange := fun _ => logged "getSortedSetRevRange" [];
  getSortedSetRangeByLex := fun key _ _ _ =>
    logged "getSortedSetRangeByLex"
           (if String.eqb key "username:sorted" then ["alice:1"; "alan:2"] else []);
  isMembers := fun uids group =>
    logged "isMembers"
           (List.map (fun u => VBool (negb (is_str group "banned-users")
                                      || num_is_Z (@parseInt10 evalHost u) 2)) uids);
  filter_users_search := fun uids _ => logged "filter:users.search" uids;
|}.

(** The same application where [User.blocks.list] resolves to null. *)
Definition no_blocks_env : Env world := {|
  sub := sub evalEnv;
  mul := mul evalEnv;
  add := add evalEnv;
  div := div evalEnv;
  math_max := math_max evalEnv;
  math_ceil := math_ceil evalEnv;
  lt := lt evalEnv;
  slice := slice evalEnv;
  sort := sort evalEnv;
  uniq := uniq evalEnv;
  array_includes := array_includes evalEnv;
  activitypubEnabled := activitypubEnabled evalEnv;
  userSearchResultsPerPage := userSearchResultsPerPage evalEnv;
  now := now evalEnv;
  BANNED_USERS := BANNED_USERS evalEnv;
  isWebfinger := isWebfinger evalEnv;
  isUri := isUri evalEnv;
  resolveLocalId := resolveLocalId evalEnv;
  actors_assert := actors_assert evalEnv;
  getUidByUserslug := getUidByUserslug evalEnv;
  getUsersFields := getUsersFields evalEnv;
  getUsers := getUsers evalEnv;
  blocks_list := fun _ => logged "blocks.list" VNull;
  filter_inherited := filter_inherited evalEnv;
  db_scan := db_scan evalEnv;
  getSortedSetRevRange := getSortedSetRevRange evalEnv;
  getSortedSetRangeByLex := getSortedSetRangeByLex evalEnv;
  isMembers := isMembers evalEnv;
  filter_users_search := filter_users_search evalEnv;
|}.

(** A search for the users whose name starts with 'al' and who are not banned. *)
Definition not_banned_al : searchData world := {|
  query := VStr "al";
  searchBy := VUndefined;
  page := VUndefined;
  uid := VNum (num_of_Z 1);
  paginate := None;
  data_findUids := None;
  hardCap := VUndefined;
  filters := VStr "notbanned";
  sortBy := VStr "uid";
  sortDirection := VUndefined;
  groupName := VUndefined;
  resultsPerPage := VUndefined;
|}.

(** A search for the users whose name starts with 'al', capped at 5 uids. *)
Definition capped_al : searchData world := {|
  query := VStr "al";
  searchBy := VUndefined;
  page := VUndefined;
  uid := VNum (num_of_Z 1);
  paginate := None;
  data_findUids := None;
  hardCap := VNum (num_of_Z 5);
  filters := VUndefined;
  sortBy := VUndefined;
  sortDirection := VUndefined;
  groupName := VUndefined;
  resultsPerPage := VUndefined;
|}.

(** An application whose [activitypub.helpers.isUri] accepts every value and
    whose [activitypub.actors.assert] resolves to true; [User.getUsers]
    answers each uid with a user carrying that uid. *)
Definition lax_uri_env : Env world := {|
  sub := sub evalEnv;
  mul := mul evalEnv;
  add := add evalEnv;
  div := div evalEnv;
  math_max := math_max evalEnv;
  math_ceil := math_ceil evalEnv;
  lt := lt evalEnv;
  slice := slice evalEnv;
  sort := sort evalEnv;
  uniq := uniq evalEnv;
  array_includes := array_includes evalEnv;
  activitypubEnabled := activitypubEnabled evalEnv;
  userSearchResultsPerPage := userSearchResultsPerPage evalEnv;
  now := now evalEnv;
  BANNED_USERS := BANNED_USERS evalEnv;
  isWebfinger := isWebfinger evalEnv;
  isUri := fun _ => true;
  resolveLocalId := resolveLocalId evalEnv;
  actors_assert := fun _ => logged "actors.assert" AssertTrue;
  getUidByUserslug := getUidByUserslug evalEnv;
  getUsersFields := getUsersFields evalEnv;
  getUsers := fun uids _ =>
    logged "getUsers" (List.map (fun u => Some ({[ "uid" := u ]} : user)) uids);
  blocks_list := blocks_list evalEnv;
  filter_inherited := filter_inherited evalEnv;
  db_scan := db_scan evalEnv;
  getSortedSetRevRange := getSortedSetRevRange evalEnv;
  getSortedSetRangeByLex := getSortedSetRangeByLex evalEnv;
  isMembers := isMembers evalEnv;
  filter_users_search := filter_users_search evalEnv;
|}.

(** A search by user 1 that carries no query. *)
Definition no_query : searchData world := {|
  query := VUndefined;
  searchBy := VUndefined;
  page := VUndefined;
  uid := VNum (num_of_Z 1);
  paginate := None;
  data_findUids := None;
  hardCap := VUndefined;
  filters := VUndefined;
  sortBy := VUndefined;
  sortDirection := VUndefined;
  groupName := VUndefined;
  resultsPerPage := VUndefined;
|}.

End SearchEval.

(** ** Invitations (src/user/invite.js) *)

Module Invite.

(** The calls the invitation functions make on the database, on the user
    module, on the mailer and on the plugins. *)
Inductive event : Type :=
| GetUidByEmail (email : value)
| DbExists (key : string)
| UserExists (uid : value)
| SetAdd (key : string) (member : value)
| DbSet (key : string) (v : string)
| SetObject (key : string) (email : value) (token groupsToJoin : string) (inviter : value)
| PexpireAt (key : string) (time : jsnum)
| GetUserField (uid : value) (field : string)
| Translate (text : string)
| SendToEmail (template : string) (email : value) (registerLink : string)
| FireHook (hook : string)
| GetObjectField (key field : string).

Abbreviation M := (Js.M (list event)).

(** nconf, meta.config, [Date.now()], [utils.generateUUID()],
    [JSON.stringify], and the outcomes of the calls. *)
Record Env : Type := {
  url : string;
  inviteExpiration : value;
  title : value;
  browserTitle : value;
  defaultLang : value;
  registrationType : value;
  now : Z;
  generateUUID : string;
  stringify : value -> string;
  getUidByEmail : value -> result value;
  db_exists : string -> result value;
  user_exists : value -> result value;
  db_write : event -> result unit;
  getUserField : value -> string -> result value;
  translate : string -> result string;
  sendToEmail : string -> value -> result unit;
  getObjectField : string -> string -> result value;
}.

(** What [prepareInvitation] adds to [emailer._defaultPayload]. *)
Record payload : Type := {
  site_title : value;
  registerLink : string;
  subject : string;
  username : value;
  template : string;
  expireDays : value;
}.

(** [z + n] for an integer [z]. *)
Definition num_add_Z (z : Z) (n : jsnum) : jsnum :=
  match n with
  | Fin q => Fin (inject_Z z + q)
  | _ => n
  end.

Section WithEnv.
Context `{Host} (env : Env).

(** A write, settled as the database says. *)
Definition write (ev : event) : M unit := call ev (db_write env ev).

Definition prepareInvitation (uid email groupsToJoin : value) : M payload :=
  inviterExists <~ call (UserExists uid) (user_exists env uid) ;;
  if negb (truthy inviterExists) then throw "[[error:invalid-uid]]"
  else
    let token := generateUUID env in
    let registerLink0 := url env +:+ "/register?token=" +:+ token in
    let expireDays0 := inviteExpiration env in
    let expireIn := num_scale (ToNumber expireDays0) 86400000 in
    _ <~ write (SetAdd ("invitation:uid:" +:+ ToString uid) email) ;;
    _ <~ write (SetAdd "invitation:uids" uid) ;;
    _ <~ write (DbSet ("invitation:uid:" +:+ ToString uid +:+ ":invited:" +:+ ToString email)
                      token) ;;
    _ <~ write (SetAdd ("invitation:invited:" +:+ ToString email) (VStr token)) ;;
    _ <~ write (SetObject ("invitation:token:" +:+ token) email token
                          (stringify env groupsToJoin) uid) ;;
    _ <~ write (PexpireAt ("invitation:token:" +:+ token) (num_add_Z (now env) expireIn)) ;;
    username0 <~ call (GetUserField uid "username") (getUserField env uid "username") ;;
    let title0 := or_else (or_else (title env) (browserTitle env)) (VStr "NodeBB") in
    subject0 <~ call (Translate ("[[email:invite, " +:+ ToString title0 +:+ "]]"))
                     (translate env ("[[email:invite, " +:+ ToString title0 +:+ "]]")) ;;
    ret {| site_title := title0; registerLink := registerLink0; subject := subject0;
           username := username0; template := "invitation"; expireDays := expireDays0 |}.

(** Returns [true] when the address belongs to a user, undefined after
    sending.  The plugins of 'action:user.invite' are not awaited. *)
Definition sendInvitationEmail (uid email groupsToJoin : value) : M value :=
  if negb (truthy uid) then throw "[[error:invalid-uid]]"
  else
    emailExists <~ call (GetUidByEmail email) (getUidByEmail env email) ;;
    if truthy emailExists then ret (VBool true)
    else
      let key := "invitation:uid:" +:+ ToString uid +:+ ":invited:" +:+ ToString email in
      invitationExists <~ call (DbExists key) (db_exists env key) ;;
      if truthy invitationExists then throw "[[error:email-invited]]"
      else
        data <~ prepareInvitation uid email groupsToJoin ;;
        _ <~ call (SendToEmail "invitation" email (registerLink data))
                  (sendToEmail env "invitation" email) ;;
        _ <~ call (FireHook "action:user.invite") (Ok tt) ;;
        ret VUndefined.

(** [meta.config.registrationType.startsWith('admin-')] *)
Definition admin_only : result bool :=
  match registrationType env with
  | VStr s => Ok (String.prefix "admin-" s)
  | VUndefined => Throw "Cannot read properties of undefined"
  | VNull => Throw "Cannot read properties of null"
  | _ => Throw "meta.config.registrationType.startsWith is not a function"
  end.

(** [token] is [query.token]. *)
Definition verifyInvitation (token : value) : M unit :=
  if negb (truthy token) then
    admin <~ lift admin_only ;;
    if admin then throw "[[register:invite.error-admin-only]]"
    else throw "[[register:invite.error-invite-only]]"
  else
    let key := "invitation:token:" +:+ ToString token in
    stored <~ call (GetObjectField key "token") (getObjectField env key "token") ;;
    if negb (truthy stored) || negb (strict_eq stored token)
    then throw "[[register:invite.error-invalid-data]]"
    else ret tt.

(** Returns [email && email === enteredEmail]. *)
Definition isInviteTokenValid (token enteredEmail : value) : M value :=
  if negb (truthy token) then ret (VBool false)
  else
    let key := "invitation:token:" +:+ ToString token in
    email <~ call (GetObjectField key "email") (getObjectField env key "email") ;;
    ret (if truthy email then VBool (strict_eq email enteredEmail) else email).

End WithEnv.

(** The mail of an invitation is being sent. *)
Definition is_mail (ev : event) : bool :=
  match ev with SendToEmail _ _ _ => true | _ => false end.

(** A call that writes to the database. *)
Definition is_write (ev : event) : bool :=
  match ev with
  | SetAdd _ _ | DbSet _ _ | SetObject _ _ _ _ _ | PexpireAt _ _ => true
  | _ => false
  end.

(** A forum that invites for 7 days: [known] is the uid registered under
    the address, [pending] whether the inviter has invited the address
    already, [stored] the field read from the record of a token. *)
Definition evalEnv (known pending stored : value) : Env := {|
  url := "https://forum.example.org";
  inviteExpiration := VNum (num_of_Z 7);
  title := VStr "Forum";
  browserTitle := VUndefined;
  defaultLang := VStr "en-GB";
  registrationType := VStr "invite-only";
  now := 1700000000000;
  generateUUID := "6d9b";
  stringify := fun _ => "[]";
  getUidByEmail := fun _ => Ok known;
  db_exists := fun _ => Ok pending;
  user_exists := fun _ => Ok (VBool true);
  db_write := fun _ => Ok tt;
  getUserField := fun _ _ => Ok (VStr "admin");
  translate := fun s => Ok s;
  sendToEmail := fun _ _ => Ok tt;
  getObjectField := fun _ _ => Ok stored;
|}.

End Invite.

(** ** The helpers of the flag list and the post queue (src/controllers/mods.js) *)

Module ModsFilters.

(** [req.query] and the filters parsed from it: objects with string keys. *)
Abbreviation query := (gmap string value).

(** [arr.includes(v)] compares with SameValueZero: as [===], except that NaN
    equals itself. *)
Definition same_value_zero (a b : value) : bool :=
  match a, b with
  | VNum NaN, VNum NaN => true
  | _, _ => strict_eq a b
  end.

Definition array_includes (xs : list value) (v : value) : bool :=
  existsb (same_value_zero v) xs.

Definition validFilters : list string :=
  ["assignee"; "state"; "reporterId"; "type"; "targetUid"; "cid"; "quick"; "page"; "perPage"].

Definition validSorts : list value :=
  List.map VStr ["newest"; "oldest"; "reports"; "upvotes"; "downvotes"; "replies"].

Section WithHost.
Context `{Host}.

(** [validator.escape] and [String.prototype.trim]. *)
Variable escape : string -> string.
Variable trim : string -> string.

(** What [parseFilters] stores for a value of the query, if anything. *)
Definition parsed (v : value) : option value :=
  match v with
  | VStr s =>
      if negb (String.eqb (trim s) "") then Some (VStr (escape (trim s))) else None
  | VArr (x :: xs) =>
      Some (VArr (List.map (fun item => VStr (escape (trim (ToString item)))) (x :: xs)))
  | _ => None
  end.

Definition parseFilters (q : query) (validFilters0 : list string) : query :=
  foldl (fun memo cur =>
           match q !! cur with
           | Some v =>
               match parsed v with
               | Some v' => <[cur := v']> memo
               | None => memo
               end
           | None => memo
           end) ∅ validFilters0.

(** [cids] is [res.locals.cids]: [None] when it is not set, an array of
    strings when it is.  Returns [(filters, hasFilter)]. *)
Definition adjustCidFilters (filters : query) (cids : option (list string)) : query * bool :=
  let hasFilter := negb (size filters =? 0)%nat in
  match cids with
  | Some cids =>
      let cid := default VUndefined (filters !! "cid") in
      if negb (truthy cid) then (<["cid" := VArr (List.map VStr cids)]> filters, hasFilter)
      else
        match cid with
        | VArr l =>
            (<["cid" := VArr (List.filter
                                (fun c => existsb (String.eqb (ToString c)) cids) l)]> filters,
             hasFilter)
        | _ =>
            if negb (existsb (String.eqb (ToString cid)) cids)
            then (<["cid" := VArr (List.map VStr cids)]> filters, false)
            else (filters, hasFilter)
        end
  | None => (filters, hasFilter)
  end.

Definition checkPaginationFilter (filters : query) (hasFilter : bool) : bool :=
  if ((size filters =? 1)%nat && bool_decide (is_Some (filters !! "page")))
     || ((size filters =? 2)%nat && bool_decide (is_Some (filters !! "page"))
         && bool_decide (is_Some (filters !! "perPage")))
  then false
  else hasFilter.

(** [sort0] is [req.query.sort], undefined when the query has none. *)
Definition parseSort (sort0 : value) (sorts : list value) : value :=
  let sort := if truthy sort0
              then (if array_includes sorts sort0 then sort0 else VNull)
              else VUndefined in
  if is_str sort "newest" then VUndefined else sort.

(** The filters, [hasFilter] and the sort [flags.list] works with, from the
    query and the categories a moderator is restricted to:
    [sort || 'newest'] is what the template shows. *)
Definition list_filters (q : query) (cids : option (list string)) (sorts : list value)
  : query * bool * value :=
  let filters := parseFilters q validFilters in
  let '(adjustedFilters, hasFilter) := adjustCidFilters filters cids in
  let hasFilter := checkPaginationFilter adjustedFilters hasFilter in
  let sort := parseSort (default VUndefined (q !! "sort")) sorts in
  let hasFilter := hasFilter || truthy sort in
  (adjustedFilters, hasFilter, or_else sort (VStr "newest")).

End WithHost.

(** *** The post queue *)

(** A queued post, as far as the controller reads it: [post.category.cid]
    and [post.user.uid]; [canAccept] and [canEdit] are what it adds. *)
Record post : Type := {
  category_cid : value;
  user_uid : value;
  canAccept : bool;
  canEdit : bool;
}.

(** The viewer of the queue: [req.uid], the outcomes of the privilege
    lookups, and the categories selected by the query. *)
Record viewer : Type := {
  req_uid : value;
  isAdmin : bool;
  isGlobalMod : bool;
  moderatedCids : list value;
  selectedCids : list value;
}.

Section Queue.
Context `{Host}.

(** The callback of [postData.filter]; [None] is a post that is null. *)
Definition shown (v : viewer) (p : option post) : bool :=
  match p with
  | None => false
  | Some p =>
      ((length (selectedCids v) =? 0)%nat || array_includes (selectedCids v) (category_cid p))
      && (isAdmin v || isGlobalMod v
          || array_includes (moderatedCids v) (VNum (ToNumber (category_cid p)))
          || strict_eq (req_uid v) (user_uid p))
  end.

(** The callback of [postData.map]. *)
Definition with_rights (v : viewer) (p : post) : post :=
  let isSelf := strict_eq (user_uid p) (req_uid v) in
  {| category_cid := category_cid p;
     user_uid := user_uid p;
     canAccept := negb isSelf
                  && (isAdmin v || isGlobalMod v || negb (length (moderatedCids v) =? 0)%nat);
     canEdit := isSelf || isAdmin v || isGlobalMod v |}.

Definition queue_for (v : viewer) (postData : list (option post)) : list post :=
  List.map (with_rights v) (omap id (List.filter (shown v) postData)).

(** [parseInt(req.query.page, 10) || 1] *)
Definition page_number (query_page : value) : jsnum :=
  let p := parseInt10 query_page in
  if truthy (VNum p) then p else num_of_Z 1.

End Queue.

(** [(page - 1) * postsPerPage + k], with 20 posts per page. *)
Definition page_offset (page : jsnum) (k : Z) : jsnum :=
  match page with
  | Fin q => Fin ((q - 1) * 20 + inject_Z k)
  | _ => page
  end.

(** [arr.slice(start, end)]: both indices are truncated, counted from the
    end when negative, and clamped to the array. *)
Definition js_slice {A : Type} (l : list A) (start stop : jsnum) : list A :=
  let k := slice_end (length l) start in
  let final := slice_end (length l) stop in
  take (final - k) (drop k l).

(** [Math.max(1, Math.ceil(postData.length / postsPerPage))] *)
Definition pageCount {A : Type} (postData : list A) : nat :=
  Nat.max 1 ((length postData + 19) / 20).

(** [postData.slice(start, stop + 1)] with [start = (page - 1) * postsPerPage]
    and [stop = start + postsPerPage - 1]. *)
Definition page_of {A : Type} (postData : list A) (page : jsnum) : list A :=
  js_slice postData (page_offset page 0) (page_offset page 20).

End ModsFilters.

(** ** The composer without scripts (exports.post of the composer controller) *)

Module Composer.

(** [req.body] *)
Record body : Type := {
  content : value;
  handle : value;
  tid : value;
  cid : value;
  title : value;
}.

(** What [topics.reply], [topics.post] and [posts.addToQueue] resolve to, as
    far as the controller reads it; [topicData] is [result.topicData], given
    by its slug. *)
Record posted : Type := {
  queued : value;
  pid : value;
  topicData : option value;
}.

(** What is thrown, as the catch block of [exports.post] reads it: null,
    undefined, or any other value, given by its [message] property, which is
    undefined where the value has none. *)
Inductive rejection : Type :=
| Error (message : value)
| Null
| Undefined.

(** How a call ends. *)
Inductive outcome (A : Type) : Type :=
| Fulfilled (a : A)
| Rejected (r : rejection).

Arguments Fulfilled {A} a.
Arguments Rejected {A} r.

(** The calls on the other modules, and on the response.  The controller
    does not await what [user.updateOnlineUsers] returns: the event carries
    what that promise is rejected with, if anything, which nothing
    catches. *)
Inductive event : Type :=
| ShouldQueue (uid : value)
| AddToQueue (content0 : value)
| TopicsReply (tid0 content0 : value)
| TopicsPost (cid0 title0 content0 : value)
| UpdateOnlineUsers (uid : value) (rejected : option rejection)
| Redirect (path : string)
| NoScriptErrors (message : value) (status : Z).

(** An asynchronous function of the controller: it adds to the calls made
    so far and fulfils or rejects. *)
Definition C (A : Type) : Type := list event -> outcome A * list event.

Definition ret {A : Type} (a : A) : C A := fun log => (Fulfilled a, log).
Definition raise {A : Type} (r : rejection) : C A := fun log => (Rejected r, log).
Definition settle {A : Type} (o : outcome A) : C A := fun log => (o, log).
Definition bind {A B : Type} (m : C A) (k : A -> C B) : C B :=
  fun log =>
    match m log with
    | (Fulfilled a, log') => k a log'
    | (Rejected r, log') => (Rejected r, log')
    end.
(** A call is made, then ends as the environment says. *)
Definition emit {A : Type} (ev : event) (o : outcome A) : C A :=
  fun log => (o, log ++ [ev]).

(** nconf's relative_path and how the calls end; a call that resolves to
    nothing resolves to [None].  [res.redirect] returns or throws.
    [user.updateOnlineUsers] throws, or returns [None] or a promise
    rejected with [r], [Some r]. *)
Record Env : Type := {
  relative_path : string;
  shouldQueue : outcome value;
  addToQueue : outcome (option posted);
  topics_reply : outcome (option posted);
  topics_post : outcome (option posted);
  updateOnlineUsers : outcome (option rejection);
  redirect : string -> outcome unit;
  noScriptErrors : value -> Z -> outcome unit;
}.

Inductive action : Type := Reply | Topic.

(** [new Error('[[error:invalid-data]]')] *)
Definition invalidDataError : rejection := Error (VStr "[[error:invalid-data]]").

(** What a call that is not awaited leaves behind, and how the call itself
    ends. *)
Definition unhandled (o : outcome (option rejection)) : option rejection :=
  match o with
  | Fulfilled r => r
  | Rejected _ => None
  end.

Definition returned (o : outcome (option rejection)) : outcome unit :=
  match o with
  | Fulfilled _ => Fulfilled tt
  | Rejected r => Rejected r
  end.

Section WithEnv.
Context `{Host} (env : Env).

Definition ensureContent (content0 : value) : outcome unit :=
  if negb (truthy content0) then Rejected invalidDataError else Fulfilled tt.

Definition decideAction (b : body) : outcome action :=
  if truthy (tid b) then Fulfilled Reply
  else if truthy (cid b) then Fulfilled Topic
  else Rejected invalidDataError.

(** [postFn(data)], with the data [enrichForAction] has prepared. *)
Definition postFn (a : action) (b : body) : C (option posted) :=
  match a with
  | Reply => emit (TopicsReply (tid b) (content b)) (topics_reply env)
  | Topic => emit (TopicsPost (cid b) (title b) (content b)) (topics_post env)
  end.

Definition queueOrPost (uid : value) (a : action) (b : body) : C (option posted) :=
  bind (emit (ShouldQueue uid) (shouldQueue env)) (fun shouldQueue0 =>
  if truthy shouldQueue0 then emit (AddToQueue (content b)) (addToQueue env)
  else postFn a b).

Definition performPost (a : action) (uid : value) (b : body) : C (option posted) :=
  queueOrPost uid a b.

Definition computeRedirectPath (r : posted) : string :=
  let path := relative_path env in
  if truthy (pid r) then path +:+ "/post/" +:+ ToString (pid r)
  else
    match topicData r with
    | Some slug => path +:+ "/topic/" +:+ ToString slug
    | None => path
    end.

(** [res.redirect(path)] *)
Definition res_redirect (path : string) : C unit :=
  emit (Redirect path) (redirect env path).

(** The body of the try block of [exports.post]. *)
Definition post_body (uid : value) (b : body) : C unit :=
  bind (settle (ensureContent (content b))) (fun _ =>
  bind (settle (decideAction b)) (fun a =>
  bind (performPost a uid b) (fun r =>
  match r with
  | None => raise invalidDataError
  | Some r =>
      if truthy (queued r) then
        res_redirect ((if String.eqb (relative_path env) "" then "/" else relative_path env)
                      +:+ "?noScriptMessage=[[success:post-queued]]")
      else
        bind (emit (UpdateOnlineUsers uid (unhandled (updateOnlineUsers env)))
                   (returned (updateOnlineUsers env))) (fun _ =>
        res_redirect (computeRedirectPath r))
  end))).

(** [exports.post]: the catch block reads [err.message], which throws a
    TypeError when what was thrown is null or undefined, and returns the
    promise of [helpers.noScriptErrors(req, res, err.message, 400)]. *)
Definition post (uid : value) (b : body) : C unit :=
  fun log =>
    match post_body uid b log with
    | (Fulfilled _, log') => (Fulfilled tt, log')
    | (Rejected (Error message0), log') =>
        emit (NoScriptErrors message0 400) (noScriptErrors env message0 400) log'
    | (Rejected Null, log') =>
        (Rejected (Error (VStr "Cannot read properties of null")), log')
    | (Rejected Undefined, log') =>
        (Rejected (Error (VStr "Cannot read properties of undefined")), log')
    end.

End WithEnv.

(** The answers sent to the client. *)
Definition is_response (ev : event) : bool :=
  match ev with Redirect _ | NoScriptErrors _ _ => true | _ => false end.

(** The calls that publish or queue a post. *)
Definition is_posting (ev : event) : bool :=
  match ev with AddToQueue _ | TopicsReply _ _ | TopicsPost _ _ _ => true | _ => false end.

(** What was thrown is null or undefined. *)
Definition nullish_rejection {A : Type} (o : outcome A) : bool :=
  match o with Rejected Null | Rejected Undefined => true | _ => false end.

(** A forum under '/forum' where nothing is queued, a reply becomes the
    post 12 and a new topic gets the slug '3/hello'; every call succeeds. *)
Definition evalEnv : Env := {|
  relative_path := "/forum";
  shouldQueue := Fulfilled (VBool false);
  addToQueue := Fulfilled (Some {| queued := VBool true; pid := VUndefined;
                                   topicData := None |});
  topics_reply := Fulfilled (Some {| queued := VUndefined; pid := VNum (num_of_Z 12);
                                     topicData := None |});
  topics_post := Fulfilled (Some {| queued := VUndefined; pid := VUndefined;
                                    topicData := Some (VStr "3/hello") |});
  updateOnlineUsers := Fulfilled None;
  redirect := fun _ => Fulfilled tt;
  noScriptErrors := fun _ _ => Fulfilled tt;
|}.

(** The same forum on a response whose headers are already sent:
    [res.redirect] throws. *)
Definition sentEnv : Env := {|
  relative_path := "/forum";
  shouldQueue := shouldQueue evalEnv;
  addToQueue := addToQueue evalEnv;
  topics_reply := topics_reply evalEnv;
  topics_post := topics_post evalEnv;
  updateOnlineUsers := Fulfilled None;
  redirect := fun _ => Rejected (Error (VStr "Cannot set headers after they are sent"));
  noScriptErrors := fun _ _ => Fulfilled tt;
|}.

Definition reply_and_topic : body :=
  {| content := VStr "hello"; handle := VUndefined; tid := VNum (num_of_Z 3);
     cid := VNum (num_of_Z 1); title := VStr "Hello" |}.

End Composer.

(** ** Default covers (src/coverPhoto.js) *)

Module CoverPhoto.

(** [[\s,]]: white space, as in the cover position, or a comma. *)
Definition is_sep (c : ascii) : bool := Picture.is_space c || Ascii.eqb c ",".

(** [String.prototype.trim] *)
Fixpoint trim_start (cs : list ascii) : list ascii :=
  match cs with
  | [] => []
  | c :: cs' => if Picture.is_space c then trim_start cs' else cs
  end.

Definition trim (cs : list ascii) : list ascii :=
  rev (trim_start (rev (trim_start cs))).

(** [s.split(/[\s,]+/g)]: [cur] is the piece being read, reversed, and
    [in_sep] says that the last character was a separator.  A separator at
    either end leaves an empty piece there. *)
Fixpoint split_seps (cs cur : list ascii) (in_sep : bool) : list string :=
  match cs with
  | [] => [string_of_list_ascii (rev cur)]
  | c :: cs' =>
      if is_sep c then
        if in_sep then split_seps cs' cur true
        else string_of_list_ascii (rev cur) :: split_seps cs' [] true
      else split_seps cs' (c :: cur) false
  end.

(** [n % len] for an array length [len]: the remainder of the truncated
    division, NaN when [n] is not finite or [len] is 0. *)
Definition num_rem (n : jsnum) (len : nat) : jsnum :=
  match n with
  | Fin q =>
      if (len =? 0)%nat then NaN
      else Fin (q - inject_Z (Z.of_nat len
                              * Z.quot (Qnum q) (Zpos (Qden q) * Z.of_nat len)))
  | _ => NaN
  end.

(** The array index a number stands for, if any: a non-negative integer. *)
Definition element_at_index (index : jsnum) : option nat :=
  match index with
  | Fin q =>
      let z := (Qnum q / Zpos (Qden q))%Z in
      if Qeq_bool q (inject_Z z) && (0 <=? z)%Z then Some (Z.to_nat z) else None
  | _ => None
  end.

(** [covers[index]]: only an array index below the length names an element. *)
Definition element_at (covers : list string) (index : jsnum) : option string :=
  match element_at_index index with
  | Some i => covers !! i
  | None => None
  end.

Section WithHost.
Context `{Host}.

(** nconf's relative_path and [meta.config]. *)
Variable relative_path : string.
Variable config : string -> value.

Definition calculateCoverIndex (id : value) (coversLength : nat) : jsnum :=
  match id with
  | VStr s =>
      match String.get 0 s, String.get 1 s with
      | Some a, Some b =>
          num_rem (num_of_Z (Z.of_nat (nat_of_ascii a + nat_of_ascii b))) coversLength
      | _, _ => NaN
      end
  | _ => num_rem (ToNumber id) coversLength
  end.

Definition defaultCover : string := relative_path +:+ "/assets/images/cover-default.png".

(** The covers of the configuration, as [getCover] splits them. *)
Definition covers_of (configCovers : value) : list string :=
  split_seps (trim (list_ascii_of_string (ToString configCovers))) [] false.

Definition getCover (type : string) (id : value) : string :=
  let configCovers := config (type +:+ ":defaultCovers") in
  if negb (truthy configCovers) then defaultCover
  else
    let covers := covers_of configCovers in
    if (length covers =? 0)%nat then defaultCover
    else
      let index := calculateCoverIndex id (length covers) in
      match element_at covers index with
      | None => defaultCover
      | Some cover =>
          if String.eqb cover "" then defaultCover
          else if String.prefix "http" cover then cover
          else relative_path +:+ cover
      end.

Definition getDefaultGroupCover (groupName : value) : string :=
  getCover "groups" groupName.

Definition getDefaultProfileCover (uid : value) : string :=
  getCover "profile" (VNum (parseInt10 uid)).

End WithHost.

(** A forum under '/forum' with three profile covers, one of them remote,
    and no group cover. *)
Definition evalConfig (key : string) : value :=
  if String.eqb key "profile:defaultCovers"
  then VStr " /assets/a.png, /assets/b.png https://cdn.example.org/c.png "
  else VUndefined.

End CoverPhoto.

(** ** Listening (src/webserver.js) *)

Module WebServer.

(** What [listen] does to the process, to the Express application and to
    the server.  The lines written to the log are told apart by their
    level; their text is not tracked. *)
Inductive event : Type :=
| LogError
| LogWarn
| LogInfo
| Umask (mask : value)
| TestSocket (socketPath : string)
| TrustProxy (on : bool)
| Listen (args : list value).

Abbreviation M := (Js.M (list event)).

(** nconf and the environment; [old_umask] is what [process.umask('0000')]
    returns, [testSocket] and [listenAsync] settle as the system says. *)
Record Env : Type := {
  port : value;
  trust_proxy : value;
  bind_address : value;
  url : value;
  node_env : value;
  old_umask : Z;
  testSocket : string -> result unit;
  listenAsync : list value -> result unit;
}.

(** The result of [resolvePortOrSocket]; a socket has no port. *)
Record target : Type := {
  isSocket : bool;
  tcp_port : option jsnum;
  socketPath : string;
}.

Section WithEnv.
Context `{Host} (env : Env).

(** [process.exit()] ends the process: nothing of this module runs after
    it, which is what a throw that nobody catches leaves of the run. *)
Definition exit {A : Type} : M A := throw "process.exit()".

Definition resolvePortOrSocket (rawPort : value) : M target :=
  let isArray := match rawPort with VArr _ => true | _ => false end in
  if isNaN rawPort && negb isArray
  then ret {| isSocket := true; tcp_port := None; socketPath := ToString rawPort |}
  else
    rawPort <~
      match rawPort with
      | VArr xs =>
          if (length xs =? 0)%nat then
            _ <~ call LogError (Ok tt) ;;
            exit
          else
            let first := default VUndefined (xs !! 0%nat) in
            _ <~ call LogWarn (Ok tt) ;;
            _ <~ call LogWarn (Ok tt) ;;
            if negb (truthy first) then
              _ <~ call LogError (Ok tt) ;;
              exit
            else ret first
      | _ => ret rawPort
      end ;;
    ret {| isSocket := false; tcp_port := Some (parseInt10 rawPort); socketPath := "" |}.

(** [port !== 80 && port !== 443] *)
Definition standard_port (p : jsnum) : bool := num_is_Z p 80 || num_is_Z p 443.

Definition maybeEnableTrustProxy (p : jsnum) : M unit :=
  let trustProxyCfg := match trust_proxy env with VBool true => true | _ => false end in
  if negb (standard_port p) || trustProxyCfg then
    _ <~ call LogInfo (Ok tt) ;;
    call (TrustProxy trustProxyCfg) (Ok tt)
  else ret tt.

Definition warnAboutPrivilegedPorts (p : jsnum) : M unit :=
  if standard_port p && negb (is_str (node_env env) "development") then
    call LogInfo (Ok tt)
  else ret tt.

Definition getBindAddress : value :=
  if is_str (bind_address env) "0.0.0.0" || negb (truthy (bind_address env))
  then VStr "0.0.0.0"
  else bind_address env.

Definition formatListenText (t : target) (bindAddress : value) : string :=
  if isSocket t then socketPath t
  else ToString bindAddress +:+ ":"
       +:+ match tcp_port t with Some p => NumberToString p | None => "null" end.

(** Returns the previous umask. *)
Definition prepareSocket (path : string) : M Z :=
  _ <~ call (Umask (VStr "0000")) (Ok tt) ;;
  let oldUmask := old_umask env in
  fun log =>
    match call (TestSocket path) (testSocket env path) log with
    | (Ok _, log') => (Ok oldUmask, log')
    | (Throw e, log') =>
        (_ <~ call LogError (Ok tt) ;;
         _ <~ call (Umask (VNum (num_of_Z oldUmask))) (Ok tt) ;;
         throw e) log'
    end.

Definition listen : M unit :=
  t <~ resolvePortOrSocket (port env) ;;
  _ <~ (if negb (isSocket t) then
          match tcp_port t with
          | Some p => _ <~ maybeEnableTrustProxy p ;; warnAboutPrivilegedPorts p
          | None => ret tt
          end
        else ret tt) ;;
  let bindAddress := getBindAddress in
  oldUmask <~ (if isSocket t then
                 old <~ prepareSocket (socketPath t) ;; ret (Some old)
               else ret None) ;;
  let listenArgs :=
    if isSocket t then [VStr (socketPath t)]
    else [match tcp_port t with Some p => VNum p | None => VNull end; bindAddress] in
  fun log =>
    let '(r, log') :=
      match call (Listen listenArgs) (listenAsync env listenArgs) log with
      | (Ok _, log') =>
          (_ <~ call LogInfo (Ok tt) ;;
           call LogInfo (Ok tt)) log'
      | (Throw e, log') =>
          (_ <~ call LogError (Ok tt) ;;
           throw e) log'
      end in
    match oldUmask with
    | Some old => (r, log' ++ [Umask (VNum (num_of_Z old))])
    | None => (r, log')
    end.

End WithEnv.

(** The masks [process.umask] was called with, oldest first. *)
Definition umasks (log : list event) : list value :=
  omap (fun ev => match ev with Umask m => Some m | _ => None end) log.

(** A server configured for the socket '/tmp/nodebb.sock' on a system whose
    umask is 18 (octal 022); [bound] is the outcome of binding. *)
Definition socketEnv (bound : result unit) : Env := {|
  port := VStr "/tmp/nodebb.sock";
  trust_proxy := VUndefined;
  bind_address := VUndefined;
  url := VStr "https://forum.example.org";
  node_env := VStr "production";
  old_umask := 18;
  testSocket := fun _ => Ok tt;
  listenAsync := fun _ => bound;
|}.

End WebServer.

(* ================================================================== *)
(** * Properties *)
(* ================================================================== *)

(** ** Sorted-set adapter *)

Section SortedAddFacts.
Context `{Host} (execute : SortedAdd.bulk_write -> result unit).
Import SortedAdd.

Lemma forallb_isNumber (ss : list value) :
  Forall (fun s => isNumber s = true) ss -> forallb isNumber ss = true.
Proof.
  induction 1 as [|s ss Hs _ IH]; simpl; [reflexivity|].
  now rewrite Hs, IH.
Qed.

Lemma normalizeScores_valid (keys : list value) (scores : value) :
  valid_scores keys scores ->
  normalizeScores keys scores =
    Ok (match scores with VArr _ => true | _ => false end, scores).
Proof.
  unfold valid_scores, normalizeScores.
  destruct scores as [| |b|n|s|ss]; try (intros ->; reflexivity).
  intros [Hlen Hnum].
  rewrite Hlen, Nat.eqb_refl; simpl.
  now rewrite (forallb_isNumber _ Hnum).
Qed.

Lemma imap_scores (keys : list value) (scores value0 : value) :
  valid_scores keys scores ->
  imap (fun i key =>
          {| find_key := key; find_value := valueToString value0;
             set_score := parseFloat
               (score_at (match scores with VArr _ => true | _ => false end) scores i) |})
       keys
  = expected_upserts keys scores value0.
Proof.
  intros Hv. apply list_eq; intros i.
  rewrite list_lookup_imap.
  unfold expected_upserts, valueToString.
  destruct scores as [| |b|n|s|ss]; simpl;
    try (rewrite list_lookup_fmap; destruct (keys !! i); reflexivity).
  destruct Hv as [Hlen _].
  rewrite lookup_zip_with.
  destruct (keys !! i) as [key|] eqn:Hk; simpl; [|reflexivity].
  destruct (ss !! i) as [s|] eqn:Hs; simpl; [reflexivity|].
  apply lookup_lt_Some in Hk. apply lookup_ge_None in Hs. lia.
Qed.

Lemma queue_items_triples (ts : list (value * value * value)) (acc : list upsert) :
  Forall (fun t => isNumber (t.1.2) = true) ts ->
  queue_items (List.map triple_item ts) acc = Ok (acc ++ List.map triple_upsert ts).
Proof.
  revert acc. induction ts as [|[[key score] v] ts IH]; intros acc Hall; simpl.
  - now rewrite app_nil_r.
  - inversion Hall as [|? ? Hs Hrest]; subst. simpl in Hs.
    rewrite Hs; simpl.
    rewrite IH by assumption.
    now rewrite <- app_assoc.
Qed.

Lemma expected_upserts_lookup (keys : list value) (scores value0 : value) (i : nat)
  (key : value) :
  valid_scores keys scores ->
  keys !! i = Some key ->
  expected_upserts keys scores value0 !! i
  = Some {| find_key := key; find_value := ToString value0;
            set_score := parseFloat (match scores with
                                     | VArr ss => default VUndefined (ss !! i)
                                     | _ => scores
                                     end) |}.
Proof.
  intros Hv Hk. unfold expected_upserts.
  destruct scores as [| |b|n|s|ss];
    try (rewrite list_lookup_fmap, Hk; reflexivity).
  destruct Hv as [Hlen _].
  rewrite lookup_zip_with, Hk. cbn [mbind option_bind].
  destruct (ss !! i) as [s|] eqn:Hs; [reflexivity|].
  apply lookup_lt_Some in Hk. apply lookup_ge_None in Hs. lia.
Qed.

(** C1.  With a non-empty array of keys and valid scores, [sortedSetsAdd]
    issues exactly one bulk write on the collection 'objects' and settles as
    its [execute()] does, whatever that is; that write holds one upsert per
    index i, matching [{_key: keys[i], value: String(value)}] and setting the
    score to [parseFloat] of the i-th score, or of the single score.  Likewise
    [sortedSetAddBulk], on a non-empty array of [key, score, value] triples
    whose scores are numbers, issues exactly one bulk write with one such
    upsert per triple, in order. *)
Theorem sorted_add_single_bulk_write (value0 : value) (db : mongo) :
  (forall (keys : list value) (scores : value),
      keys <> [] ->
      valid_scores keys scores ->
      exists bulk : list upsert,
        sortedSetsAdd execute (VArr keys) scores value0 db
        = (execute {| collection := "objects"; ops := bulk |},
           db ++ [ {| collection := "objects"; ops := bulk |} ])
        /\ length bulk = length keys
        /\ forall (i : nat) (key : value),
             keys !! i = Some key ->
             bulk !! i
             = Some {| find_key := key; find_value := ToString value0;
                       set_score := parseFloat (match scores with
                                                | VArr ss => default VUndefined (ss !! i)
                                                | _ => scores
                                                end) |})
  /\
  (forall ts : list (value * value * value),
      ts <> [] ->
      Forall (fun t => isNumber (t.1.2) = true) ts ->
      sortedSetAddBulk execute (VArr (List.map triple_item ts)) db
      = (execute {| collection := "objects"; ops := List.map triple_upsert ts |},
         db ++ [ {| collection := "objects";
                    ops := List.map triple_upsert ts |} ])).
Proof.
  split.
  - intros keys scores Hne Hv.
    exists (expected_upserts keys scores value0).
    destruct keys as [|k ks]; [congruence|].
    split; [|split].
    + unfold sortedSetsAdd.
      rewrite (normalizeScores_valid _ _ Hv).
      now rewrite (imap_scores _ _ _ Hv).
    + unfold expected_upserts.
      destruct scores as [| |b|n|s|ss]; try apply length_map.
      destruct Hv as [Hlen _].
      rewrite length_zip_with. lia.
    + intros i key Hk. now apply expected_upserts_lookup.
  - intros ts Hne Hall.
    pose proof (queue_items_triples ts [] Hall) as Hq.
    destruct ts as [|t ts]; [congruence|].
    unfold sortedSetAddBulk.
    cbn [List.map] in *.
    now rewrite Hq.
Qed.

(** C2, as amended.  With a non-empty array of keys, [sortedSetsAdd] throws
    '[[error:invalid-data]]' when scores is an array whose length differs from
    that of keys; it throws '[[error:invalid-score, <scores>]]' when scores is
    not an array and is not a number, or is an array of the same length as
    keys with an element that is not a number.  In each case no bulk write
    has been built or handed to the driver. *)
Theorem sortedSetsAdd_rejects (keys : list value) (scores value0 : value) (db : mongo) :
  keys <> [] ->
  (forall ss, scores = VArr ss -> length ss <> length keys ->
     sortedSetsAdd execute (VArr keys) scores value0 db
     = (Throw "[[error:invalid-data]]", db))
  /\ ((forall ss, scores <> VArr ss) -> isNumber scores = false ->
      sortedSetsAdd execute (VArr keys) scores value0 db
      = (Throw ("[[error:invalid-score, " +:+ ToString scores +:+ "]]"), db))
  /\ (forall ss, scores = VArr ss -> length ss = length keys ->
      Exists (fun s => isNumber s = false) ss ->
      sortedSetsAdd execute (VArr keys) scores value0 db
      = (Throw ("[[error:invalid-score, " +:+ ToString scores +:+ "]]"), db)).
Proof.
  intros Hne. destruct keys as [|k ks]; [congruence|].
  unfold sortedSetsAdd, normalizeScores, invalid_score.
  split; [|split].
  - intros ss -> Hlen.
    apply Nat.eqb_neq in Hlen. now rewrite Hlen.
  - intros Hna Hnum.
    destruct scores as [| |b|n|s|ss]; try (rewrite Hnum; reflexivity).
    now destruct (Hna ss).
  - intros ss -> Hlen Hex.
    rewrite Hlen, Nat.eqb_refl. cbn [negb].
    replace (forallb isNumber ss) with false; [reflexivity|].
    symmetry. apply not_true_iff_false. intros Hall.
    rewrite forallb_forall in Hall.
    apply List.Exists_exists in Hex as (s & Hin & Hs).
    specialize (Hall s Hin). congruence.
Qed.

End SortedAddFacts.

Lemma sorted_add_single_bulk_write_witness :
  (exists bulk : list SortedAdd.upsert,
     @SortedAdd.sortedSetsAdd evalHost SortedAdd.fulfilling
        (VArr [VStr "cid:1:tids"; VStr "topics:tid"]) (VNum (num_of_Z 5))
        (VNum (num_of_Z 42)) []
     = (Ok tt, [ {| SortedAdd.collection := "objects"; SortedAdd.ops := bulk |} ])
     /\ length bulk = 2
     /\ bulk !! 1 = Some {| SortedAdd.find_key := VStr "topics:tid";
                            SortedAdd.find_value := "42";
                            SortedAdd.set_score := num_of_Z 5 |})
  /\
  @SortedAdd.sortedSetAddBulk evalHost SortedAdd.fulfilling
     (VArr [VArr [VStr "groups:visible:name"; VNum (num_of_Z 0); VStr "staff:Staff"]]) []
  = (Ok tt,
     [ {| SortedAdd.collection := "objects";
          SortedAdd.ops :=
            [ {| SortedAdd.find_key := VStr "groups:visible:name";
                 SortedAdd.find_value := "staff:Staff";
                 SortedAdd.set_score := num_of_Z 0 |} ] |} ]).
Proof.
  destruct (@sorted_add_single_bulk_write evalHost SortedAdd.fulfilling
              (VNum (num_of_Z 42)) []) as [Hadd _].
  destruct (@sorted_add_single_bulk_write evalHost SortedAdd.fulfilling
              VUndefined []) as [_ Hbulk].
  split.
  - destruct (Hadd [VStr "cid:1:tids"; VStr "topics:tid"] (VNum (num_of_Z 5)))
      as (bulk & Hrun & Hlen & Hops); [discriminate | reflexivity |].
    exists bulk. split; [exact Hrun|]. split; [exact Hlen|].
    exact (Hops 1 (VStr "topics:tid") eq_refl).
  - apply (Hbulk [(VStr "groups:visible:name", VNum (num_of_Z 0), VStr "staff:Staff")]);
      [discriminate | repeat constructor].
Defined.

Example sortedSetsAdd_two_keys :
  @SortedAdd.sortedSetsAdd evalHost SortedAdd.fulfilling
     (VArr [VStr "cid:1:tids"; VStr "topics:tid"])
     (VArr [VNum (num_of_Z 5); VStr "7"]) (VNum (num_of_Z 42)) []
  = (Ok tt,
     [ {| SortedAdd.collection := "objects";
          SortedAdd.ops :=
            [ {| SortedAdd.find_key := VStr "cid:1:tids"; SortedAdd.find_value := "42";
                 SortedAdd.set_score := num_of_Z 5 |};
              {| SortedAdd.find_key := VStr "topics:tid"; SortedAdd.find_value := "42";
                 SortedAdd.set_score := num_of_Z 7 |} ] |} ]).
Proof. reflexivity. Qed.

(** The length of an array of scores is checked before its elements: with
    one key and the two scores ['x', 'y'], neither of them a number,
    [sortedSetsAdd] throws '[[error:invalid-data]]', not
    '[[error:invalid-score, x,y]]'. *)
Lemma sortedSetsAdd_length_checked_first :
  Exists (fun s => @isNumber evalHost s = false) [VStr "x"; VStr "y"]
  /\ @ToString evalHost (VArr [VStr "x"; VStr "y"]) = "x,y"
  /\ @SortedAdd.sortedSetsAdd evalHost SortedAdd.fulfilling (VArr [VStr "k"]) (VArr [VStr "x"; VStr "y"]) (VStr "m") []
     = (Throw "[[error:invalid-data]]", [])
  /\ @SortedAdd.sortedSetsAdd evalHost SortedAdd.fulfilling (VArr [VStr "k"]) (VArr [VStr "x"; VStr "y"]) (VStr "m") []
     <> (Throw "[[error:invalid-score, x,y]]", []).
Proof.
  split; [left; reflexivity|].
  split; [reflexivity|].
  split; [reflexivity|].
  discriminate.
Qed.

Lemma sortedSetsAdd_rejects_witness :
  @SortedAdd.sortedSetsAdd evalHost SortedAdd.fulfilling (VArr [VStr "k"]) (VArr []) (VStr "m") []
  = (Throw "[[error:invalid-data]]", [])
  /\ @SortedAdd.sortedSetsAdd evalHost SortedAdd.fulfilling (VArr [VStr "k"]) (VStr "soon") (VStr "m") []
     = (Throw "[[error:invalid-score, soon]]", [])
  /\ @SortedAdd.sortedSetsAdd evalHost SortedAdd.fulfilling (VArr [VStr "k"]) (VArr [VNull]) (VStr "m") []
     = (Throw "[[error:invalid-score, ]]", []).
Proof.
  split; [|split].
  - destruct (@sortedSetsAdd_rejects evalHost SortedAdd.fulfilling [VStr "k"] (VArr []) (VStr "m") [])
      as (Hdata & _ & _); [discriminate|].
    apply (Hdata []); [reflexivity | discriminate].
  - destruct (@sortedSetsAdd_rejects evalHost SortedAdd.fulfilling [VStr "k"] (VStr "soon") (VStr "m") [])
      as (_ & Hscore & _); [discriminate|].
    apply Hscore; [discriminate | reflexivity].
  - destruct (@sortedSetsAdd_rejects evalHost SortedAdd.fulfilling [VStr "k"] (VArr [VNull]) (VStr "m") [])
      as (_ & _ & Helem); [discriminate|].
    apply (Helem [VNull]); [reflexivity | reflexivity | left; reflexivity].
Defined.

(** ** Cron jobs *)

Section JobsFacts.
Context `{Host}.
Import Jobs.

Lemma foldl_stop_job (ks : list string) (s : state) :
  NoDup ks ->
  (forall k, jobs (foldl stop_job s ks) !! k
             = if decide (k ∈ ks) then None else jobs s !! k)
  /\ (forall t, t ∈ running (foldl stop_job s ks) <->
                t ∈ running s /\
                ~ exists k job, k ∈ ks /\ jobs s !! k = Some job /\ timer job = t)
  /\ next_timer (foldl stop_job s ks) = next_timer s.
Proof.
  intros Hnd. revert s.
  induction Hnd as [|k ks Hk Hnd IH]; intros s; simpl.
  - split; [|split]; [intros k; reflexivity | | reflexivity].
    intros t; split; [intros Ht; split; [assumption|] | tauto].
    intros (k & job & Hin & _). inversion Hin.
  - destruct (IH (stop_job s k)) as (IHj & IHr & IHn).
    assert (Hjobs : jobs (stop_job s k) = delete k (jobs s)).
    { unfold stop_job. destruct (jobs s !! k) eqn:E; simpl; [reflexivity|].
      symmetry. now apply delete_id. }
    split; [|split].
    + intros k'. rewrite IHj, Hjobs.
      destruct (decide (k' ∈ ks)) as [Hin|Hnin].
      * rewrite decide_True by (now right). reflexivity.
      * destruct (decide (k' = k)) as [->|Hne].
        -- rewrite decide_True by left. apply lookup_delete_eq.
        -- rewrite decide_False by (intros Hc; inversion Hc; subst; tauto).
           now apply lookup_delete_ne.
    + intros t. rewrite IHr, Hjobs.
      split.
      * intros [Hrun Hno]. split.
        -- unfold stop_job in Hrun.
           destruct (jobs s !! k); simpl in Hrun; [|assumption].
           now apply elem_of_difference in Hrun.
        -- intros (k' & job & Hin & Hl & Ht).
           inversion Hin; subst.
           ++ unfold stop_job in Hrun. rewrite Hl in Hrun. simpl in Hrun.
              apply elem_of_difference in Hrun as [_ Hrun].
              apply Hrun. now apply elem_of_singleton.
           ++ apply Hno. exists k', job. split; [assumption|]. split; [|reflexivity].
              rewrite lookup_delete_ne; [assumption|]. intros ->. tauto.
      * intros [Hrun Hno]. split.
        -- unfold stop_job. destruct (jobs s !! k) as [job|] eqn:E; simpl; [|assumption].
           apply elem_of_difference. split; [assumption|].
           intros Ht%elem_of_singleton. apply Hno. exists k, job.
           split; [left|]. split; [assumption|]. now symmetry.
        -- intros (k' & job & Hin & Hl & Ht). apply Hno.
           exists k', job. split; [now right|]. split; [|assumption].
           destruct (decide (k' = k)) as [->|Hne];
             [rewrite lookup_delete_eq in Hl; discriminate|].
           now rewrite lookup_delete_ne in Hl.
    + rewrite IHn. unfold stop_job. now destruct (jobs s !! k).
Qed.

(** [User.stopJobs] empties the registry and stops the timer of every job
    that was registered. *)
Lemma stopJobs_spec (s : state) :
  jobs (stopJobs s) = ∅
  /\ running (stopJobs s) = running s ∖ timers_of (jobs s)
  /\ next_timer (stopJobs s) = next_timer s.
Proof.
  unfold stopJobs.
  destruct (foldl_stop_job (map_to_list (jobs s)).*1 s) as (Hj & Hr & Hn).
  { apply NoDup_fst_map_to_list. }
  split; [|split; [|assumption]].
  - apply map_eq. intros k. rewrite Hj, lookup_empty.
    destruct (decide _) as [_|Hnin]; [reflexivity|].
    destruct (jobs s !! k) as [job|] eqn:E; [|reflexivity].
    exfalso. apply Hnin. apply list_elem_of_fmap.
    exists (k, job). split; [reflexivity|]. now apply elem_of_map_to_list.
  - apply set_eq. intros t. rewrite Hr, elem_of_difference.
    unfold timers_of. rewrite elem_of_map_img.
    split; intros [Hrun Hno]; (split; [assumption|]).
    + intros [k Hk]. rewrite lookup_fmap in Hk.
      destruct (jobs s !! k) as [job|] eqn:E; [|discriminate].
      simpl in Hk. injection Hk as Hk. apply Hno. exists k, job.
      split; [|split; assumption].
      apply list_elem_of_fmap. exists (k, job). split; [reflexivity|].
      now apply elem_of_map_to_list.
    + intros (k & job & _ & Hl & Ht). apply Hno. exists k.
      rewrite lookup_fmap, Hl. simpl. now rewrite Ht.
Qed.

Context (cron_parse : string -> result unit).

Lemma timers_of_four_jobs (H0 : string) (n : nat) :
  timers_of (four_jobs H0 n) = four_timers n.
Proof.
  unfold timers_of, four_jobs, four_timers.
  rewrite !fmap_insert, fmap_empty.
  rewrite !map_img_insert_notin_L by (simplify_map_eq; reflexivity).
  rewrite map_img_empty_L. cbn [timer].
  now rewrite (right_id_L ∅ (∪)).
Qed.

Lemma size_four_timers (n : nat) : size (four_timers n) = 4.
Proof.
  unfold four_timers.
  rewrite !size_union, !size_singleton; [reflexivity| | |];
    repeat (apply disjoint_union_r; split);
    apply disjoint_singleton_l; rewrite ?elem_of_union, !elem_of_singleton; lia.
Qed.

Lemma size_four_jobs (H0 : string) (n : nat) : size (four_jobs H0 n) = 4.
Proof.
  unfold four_jobs.
  rewrite !map_size_insert_None by (simplify_map_eq; reflexivity).
  now rewrite map_size_empty.
Qed.

(** [User.startJobs] stops the jobs, then starts the four new ones in turn. *)
Lemma startJobs_steps (dhour : value) (s : state) :
  let H0 := ToString (getDigesthour dhour) in
  startJobs cron_parse dhour s
  = (_ <~ startDigestJob cron_parse "digest.daily" ("0 " +:+ H0 +:+ " * * *") "day" ;;
     _ <~ startDigestJob cron_parse "digest.weekly" ("0 " +:+ H0 +:+ " * * 0") "week" ;;
     _ <~ startDigestJob cron_parse "digest.monthly" ("0 " +:+ H0 +:+ " 1 * *") "month" ;;
     startResetCleanJob cron_parse) (stopJobs s).
Proof. reflexivity. Qed.

(** When the cron library accepts the four schedules, [User.startJobs]
    fulfils and the registry holds exactly the four jobs. *)
Lemma startJobs_accepted (dhour : value) (s : state) :
  let H0 := ToString (getDigesthour dhour) in
  Forall (fun c => cron_parse c = Ok tt) (schedules H0) ->
  startJobs cron_parse dhour s
  = (Ok tt,
     {| jobs := four_jobs H0 (next_timer s);
        running := four_timers (next_timer s) ∪ (running s ∖ timers_of (jobs s));
        next_timer := next_timer s + 4 |}).
Proof.
  intros H0 Hall.
  apply Forall_cons in Hall as [Hd Hall].
  apply Forall_cons in Hall as [Hw Hall].
  apply Forall_cons in Hall as [Hm Hall].
  apply Forall_cons in Hall as [Hc _].
  destruct (stopJobs_spec s) as (Hj & Hr & Hn).
  rewrite startJobs_steps. fold H0.
  destruct (stopJobs s) as [js rs ns]. cbn [jobs running next_timer] in Hj, Hr, Hn.
  subst js rs ns.
  unfold startResetCleanJob, startDigestJob, new_cronJob, bindM.
  rewrite Hd. cbn [jobs running next_timer]. rewrite Hw.
  cbn [jobs running next_timer]. rewrite Hm. cbn [jobs running next_timer]. rewrite Hc.
  cbn [jobs running next_timer].
  unfold four_jobs, four_timers.
  replace (S (next_timer s)) with (next_timer s + 1) by lia.
  replace (S (next_timer s + 1)) with (next_timer s + 2) by lia.
  replace (S (next_timer s + 2)) with (next_timer s + 3) by lia.
  replace (S (next_timer s + 3)) with (next_timer s + 4) by lia.
  now rewrite <- !(assoc_L (∪)).
Qed.

(** When the cron library throws on the daily schedule, [User.startJobs]
    throws that error with the old jobs stopped and none started. *)
Lemma startJobs_first_rejected (dhour : value) (s : state) (e : string) :
  cron_parse ("0 " +:+ ToString (getDigesthour dhour) +:+ " * * *") = Throw e ->
  startJobs cron_parse dhour s = (Throw e, stopJobs s).
Proof.
  intros Hd. rewrite startJobs_steps.
  unfold startDigestJob, new_cronJob, bindM. now rewrite Hd.
Qed.

(** A state that runs exactly the timers of its registry stays so across
    [User.startJobs], fulfilled or not. *)
Lemma startJobs_coherent (dhour : value) (s : state) :
  running s = timers_of (jobs s) ->
  running (startJobs cron_parse dhour s).2
  = timers_of (jobs (startJobs cron_parse dhour s).2).
Proof.
  intros Hco.
  destruct (stopJobs_spec s) as (Hj & Hr & Hn).
  rewrite Hco, difference_diag_L in Hr.
  rewrite startJobs_steps.
  destruct (stopJobs s) as [js rs ns]. cbn [jobs running next_timer] in Hj, Hr, Hn.
  subst js rs ns.
  unfold startResetCleanJob, startDigestJob, new_cronJob, bindM, timers_of.
  repeat (destruct (cron_parse _); cbn [jobs running next_timer fst snd]);
    rewrite ?fmap_insert, fmap_empty;
    rewrite ?map_img_insert_notin_L by (simplify_map_eq; reflexivity);
    rewrite map_img_empty_L; reflexivity.
Qed.

(** Every state the module reaches runs exactly the timers of its registry. *)
Lemma run_coherent (history : list request) :
  running (run cron_parse history) = timers_of (jobs (run cron_parse history)).
Proof.
  unfold run.
  induction history as [|c history IH] using rev_ind; [reflexivity|].
  rewrite foldl_app. cbn [foldl].
  set (s := foldl (serve cron_parse) initial history) in *.
  destruct c as [h|]; cbn [serve].
  - now apply startJobs_coherent.
  - destruct (stopJobs_spec s) as (Hj & Hr & _).
    rewrite Hj, Hr, IH, difference_diag_L.
    unfold timers_of. now rewrite fmap_empty, map_img_empty_L.
Qed.

(** Where the cron library accepts the schedules, [User.startJobs] does what
    it is meant to: the registry holds exactly four entries, digest.daily at
    '0 H * * *', digest.weekly at '0 H * * 0', digest.monthly at '0 H 1 * *'
    and reset.clean at '0 0 * * *', H being what [getDigesthour] yields for
    the configuration, and in every state the module reaches exactly four
    timers run afterwards. *)
Lemma startJobs_registers_four (dhour : value) (s : state) (history : list request) :
  let H0 := ToString (getDigesthour dhour) in
  Forall (fun c => cron_parse c = Ok tt) (schedules H0) ->
  (startJobs cron_parse dhour s).1 = Ok tt
  /\ jobs (startJobs cron_parse dhour s).2 = four_jobs H0 (next_timer s)
  /\ size (jobs (startJobs cron_parse dhour s).2) = 4
  /\ running (startJobs cron_parse dhour s).2
     = four_timers (next_timer s) ∪ (running s ∖ timers_of (jobs s))
  /\ size (running (startJobs cron_parse dhour (run cron_parse history)).2) = 4.
Proof.
  intros H0 Hall.
  rewrite !(startJobs_accepted dhour _ Hall). cbn [fst snd jobs running].
  split; [reflexivity|]. split; [reflexivity|].
  split; [apply size_four_jobs|]. split; [reflexivity|].
  rewrite run_coherent, difference_diag_L, (right_id_L ∅ (∪)).
  apply size_four_timers.
Qed.

Lemma hour_in_range_of_tests (n : jsnum) :
  num_isNaN n = false ->
  num_lt (num_of_Z 23) n = false ->
  num_lt n (num_of_Z 0) = false ->
  hour_in_range n.
Proof.
  destruct n as [| | |q]; simpl; try discriminate.
  intros _ Hgt Hlt.
  apply negb_false_iff in Hgt, Hlt.
  apply Qle_bool_iff in Hgt, Hlt.
  split; assumption.
Qed.

(** The three branches of [getDigesthour]: 17 when [isNaN] holds of the
    value, 0 when the value is below 0 or above 23, the value itself
    otherwise.  Converted to a number the result lies between 0 and 23; the
    result itself need not be a number. *)
Lemma getDigesthour_branches (dhour : value) :
  (isNaN dhour = true -> getDigesthour dhour = VNum (num_of_Z 17))
  /\ (lt_num dhour (num_of_Z 0) = true \/ gt_num dhour (num_of_Z 23) = true ->
      getDigesthour dhour = VNum (num_of_Z 0))
  /\ (isNaN dhour = false ->
      lt_num dhour (num_of_Z 0) = false ->
      gt_num dhour (num_of_Z 23) = false ->
      getDigesthour dhour = dhour)
  /\ hour_in_range (ToNumber (getDigesthour dhour)).
Proof.
  unfold getDigesthour, isNaN, lt_num, gt_num.
  split; [intros ->; reflexivity|].
  split.
  { intros Hout.
    destruct (ToNumber dhour) as [| | |q] eqn:E; simpl in *.
    - destruct Hout; discriminate.
    - reflexivity.
    - reflexivity.
    - destruct Hout as [-> | ->]; [now rewrite orb_true_r | reflexivity]. }
  split; [intros -> -> ->; reflexivity|].
  destruct (num_isNaN (ToNumber dhour)) eqn:En; [simpl; split; discriminate|].
  destruct (num_lt (num_of_Z 23) (ToNumber dhour)) eqn:Eg; [simpl; split; discriminate|].
  destruct (num_lt (ToNumber dhour) (num_of_Z 0)) eqn:El; [simpl; split; discriminate|].
  simpl. now apply hour_in_range_of_tests.
Qed.

End JobsFacts.

(** What [isNaN] and the two comparisons let through comes back unchanged,
    an hour of day or not: null and true, which count as 0 and 1, and every
    number between 0 and 23, whole or not. *)
Lemma getDigesthour_unchanged `{Host} (q : Q) :
  Jobs.getDigesthour VNull = VNull
  /\ Jobs.getDigesthour (VBool true) = VBool true
  /\ ((0 <= q)%Q -> (q <= 23)%Q -> Jobs.getDigesthour (VNum (Fin q)) = VNum (Fin q)).
Proof.
  split; [reflexivity|]. split; [reflexivity|].
  intros H0 H23. unfold Jobs.getDigesthour, isNaN, gt_num, lt_num.
  cbn [ToNumber num_isNaN num_lt num_of_Z].
  apply Qle_bool_iff in H0, H23.
  assert (E0 : Qle_bool (inject_Z 0) q = true) by exact H0.
  assert (E23 : Qle_bool q (inject_Z 23) = true) by exact H23.
  now rewrite E0, E23.
Qed.

(** Configured with a whole hour from 0 to 23, [User.startJobs] registers the
    four jobs at that very hour, on a cron library that accepts fields of
    digits or '*' only. *)
Lemma startJobs_whole_hour (h : Z) (s : Jobs.state) :
  (0 <= h <= 23)%Z ->
  @Jobs.startJobs evalHost Jobs.strict (VNum (num_of_Z h)) s
  = (Ok tt,
     {| Jobs.jobs := Jobs.four_jobs (pretty h) (Jobs.next_timer s);
        Jobs.running := Jobs.four_timers (Jobs.next_timer s)
                        ∪ (Jobs.running s ∖ Jobs.timers_of (Jobs.jobs s));
        Jobs.next_timer := Jobs.next_timer s + 4 |}).
Proof.
  intros Hh.
  assert (E : @ToString evalHost (@Jobs.getDigesthour evalHost (VNum (num_of_Z h))) = pretty h
              /\ Forall (fun c => Jobs.strict c = Ok tt) (Jobs.schedules (pretty h))).
  { destruct h as [|p|p]; [| |lia].
    - split; [reflexivity | repeat constructor].
    - do 5 (try destruct p as [p|p|]); try lia;
        (split; [vm_compute; reflexivity | repeat constructor]). }
  destruct E as [E Hall]. rewrite <- E in Hall |- *.
  now apply (@startJobs_accepted evalHost Jobs.strict).
Qed.

(** C10.  [getDigesthour] does not fix every invalid hour.  Configured with
    the hour 8.5 it returns 8.5, and the daily digest is scheduled at
    '0 8.5 * * *' by a cron library that lets it pass; configured with
    null it returns null, and the schedule reads '0 null * * *'. *)
Theorem getDigesthour_keeps_invalid_hour :
  @Jobs.getDigesthour evalHost (VNum (Fin (17 # 2))) = VNum (Fin (17 # 2))
  /\ Jobs.cronTime <$>
       Jobs.jobs (@Jobs.startJobs evalHost Jobs.lenient (VNum (Fin (17 # 2)))
                    Jobs.initial).2 !! "digest.daily"
     = Some "0 8.5 * * *"
  /\ @Jobs.getDigesthour evalHost VNull = VNull
  /\ Jobs.cronTime <$>
       Jobs.jobs (@Jobs.startJobs evalHost Jobs.lenient VNull Jobs.initial).2
         !! "digest.daily"
     = Some "0 null * * *".
Proof. vm_compute. repeat split. Qed.

(** C5.  A restart with the digest hour 8.5: four jobs run, [getDigesthour]
    hands 8.5 back, [User.stopJobs] stops the four, the cron library throws
    on '0 8.5 * * *', and [User.startJobs] throws with no job registered and
    no timer running, reset.clean included. *)
Theorem startJobs_invalid_hour_no_job :
  let s := (@Jobs.startJobs evalHost Jobs.strict (VNum (num_of_Z 17)) Jobs.initial).2 in
  size (Jobs.jobs s) = 4
  /\ Jobs.cronTime <$> Jobs.jobs s !! "reset.clean" = Some "0 0 * * *"
  /\ @Jobs.startJobs evalHost Jobs.strict (VNum (Fin (17 # 2))) s
     = (Throw "CronError",
        {| Jobs.jobs := ∅; Jobs.running := ∅; Jobs.next_timer := 4 |}).
Proof. vm_compute. repeat split. Qed.

Example startJobs_weekly_at_17 :
  Jobs.jobs (@Jobs.startJobs evalHost Jobs.strict (VStr "soon") Jobs.initial).2
    !! "digest.weekly"
  = Some {| Jobs.cronTime := "0 17 * * 0";
            Jobs.tick := Jobs.DigestTick "digest.weekly" "week";
            Jobs.timer := 1 |}.
Proof. vm_compute. reflexivity. Qed.

(** ** Group creation *)

Section GroupsFacts.
Context `{Host} (env : GroupsCreate.Env).
Import GroupsCreate.

(** A failed validation ends [Groups.create] before the first write. *)
Lemma create_validation_failure (data : createData) (e : string) :
  validateGroupCreation env data = Throw e ->
  create env data = (Throw e, []).
Proof.
  intros Hv. unfold create, processGroupCreation. now rewrite Hv.
Qed.

Lemma validateGroupCreation_name_failure (data : createData) (e : string) :
  validateGroupName env (name data) = Throw e ->
  validateGroupCreation env data = Throw e.
Proof.
  intros Hv. unfold validateGroupCreation. now rewrite Hv.
Qed.

(** C6, as amended.  [Groups.validateGroupName] throws
    '[[error:group-name-too-short]]' for a falsy name (the empty string
    included), '[[error:invalid-group-name]]' for any other name that is not
    a string, and '[[error:group-name-too-long]]' for a string that is not a
    privilege-group name and is longer than meta.config.maximumGroupNameLength.
    For a string that passes these checks it throws
    '[[error:invalid-group-name]]' when the name is 'guests', is not a
    privilege-group name and contains ':', contains '/', or has an empty slug.
    [Groups.create] throws '[[error:group-already-exists]]' when the name
    passes [Groups.validateGroupName] and the lookups report that the slug is
    taken or that the name, a privilege-group name, is registered in
    'groups:createtime'.  Whenever the validation of [Groups.create] throws,
    [Groups.create] throws the same error and has written nothing. *)
Theorem group_creation_rejections (data : createData) :
  let n := name data in
  (truthy n = false ->
     validateGroupName env n = Throw "[[error:group-name-too-short]]")
  /\ (truthy n = true -> (forall s, n <> VStr s) ->
     validateGroupName env n = Throw "[[error:invalid-group-name]]")
  /\ (forall s, n = VStr s -> s <> "" ->
     isPrivilegeGroup env n = false ->
     lt_num (maximumGroupNameLength env) (num_of_Z (Z.of_nat (String.length s))) = true ->
     validateGroupName env n = Throw "[[error:group-name-too-long]]")
  /\ (forall s, n = VStr s -> s <> "" ->
     isPrivilegeGroup env n = true \/
     lt_num (maximumGroupNameLength env) (num_of_Z (Z.of_nat (String.length s))) = false ->
     s = "guests" \/ (isPrivilegeGroup env n = false /\ includes ":" s = true)
       \/ includes "/" s = true \/ slugify env s = "" ->
     validateGroupName env n = Throw "[[error:invalid-group-name]]")
  /\ (forall taken registered : bool,
     validateGroupName env n = Ok tt ->
     slugTaken env n = Ok taken ->
     (isPrivilegeGroup env n = true ->
      isSortedSetMember env "groups:createtime" n = Ok registered) ->
     taken = true \/ (isPrivilegeGroup env n = true /\ registered = true) ->
     create env data = (Throw "[[error:group-already-exists]]", []))
  /\ (forall e, validateGroupName env n = Throw e \/ validateGroupCreation env data = Throw e ->
     create env data = (Throw e, [])).
Proof.
  intros n. subst n.
  split; [|split; [|split; [|split; [|split]]]].
  - intros Hf. unfold validateGroupName. now rewrite Hf.
  - intros Ht Hns. unfold validateGroupName. rewrite Ht. cbn [negb].
    destruct (name data) as [| |b|k|s|xs]; try reflexivity. now destruct (Hns s).
  - intros s Hn Hne Hpriv Hlong. unfold validateGroupName.
    rewrite Hn in *. cbn [truthy].
    apply String.eqb_neq in Hne. rewrite Hne. cbn [negb].
    rewrite Hpriv, Hlong. reflexivity.
  - intros s Hn Hne Hfit Hbad. unfold validateGroupName.
    rewrite Hn in *. cbn [truthy].
    apply String.eqb_neq in Hne. rewrite Hne. cbn [negb].
    assert (Hlen : negb (isPrivilegeGroup env (VStr s))
                   && lt_num (maximumGroupNameLength env)
                        (num_of_Z (Z.of_nat (String.length s))) = false).
    { destruct Hfit as [-> | ->]; [reflexivity | apply andb_false_r]. }
    rewrite Hlen.
    destruct Hbad as [-> | [[Hp Hc] | [Hs | Hs]]].
    + reflexivity.
    + rewrite Hp, Hc. cbn [negb andb]. now rewrite orb_true_r.
    + rewrite Hs. cbn [orb]. now destruct (_ || _).
    + rewrite Hs. cbn [String.eqb]. rewrite orb_true_r. now destruct (_ || _).
  - intros taken registered Hok Htaken Hmem Hexists. apply create_validation_failure.
    unfold validateGroupCreation. rewrite Hok, Htaken. cbn [Js.bind].
    destruct (isPrivilegeGroup env (name data)) eqn:Hp.
    + rewrite (Hmem eq_refl). cbn [Js.bind].
      destruct Hexists as [-> | [_ ->]]; [reflexivity | now rewrite orb_true_r].
    + cbn [Js.bind]. destruct Hexists as [-> | [Hc _]]; [reflexivity | discriminate].
  - intros e [Hv | Hv]; apply create_validation_failure; [|assumption].
    now apply validateGroupCreation_name_failure.
Qed.

End GroupsFacts.

(** The first failing check decides the error.  [Groups.create] validates
    the name before it looks the slug up: for the name 'a/b', whose slug
    'a-b' is taken, it throws '[[error:invalid-group-name]]', not
    '[[error:group-already-exists]]'.  In [Groups.validateGroupName] the
    name undefined, which is not a string, is too short, and 'moderators:eu',
    which is no privilege group, contains ':' and exceeds the limit of 10
    characters, is too long. *)
Lemma create_validates_name_first :
  (GroupsCreate.slugTaken GroupsEval.evalEnv (VStr "a/b") = Ok true
   /\ @GroupsCreate.create evalHost GroupsEval.evalEnv (GroupsEval.named (VStr "a/b"))
      = (Throw "[[error:invalid-group-name]]", [])
   /\ (@GroupsCreate.create evalHost GroupsEval.evalEnv (GroupsEval.named (VStr "a/b"))).1
      <> Throw "[[error:group-already-exists]]")
  /\ (@GroupsCreate.validateGroupName evalHost GroupsEval.evalEnv VUndefined
      = Throw "[[error:group-name-too-short]]"
      /\ @GroupsCreate.validateGroupName evalHost GroupsEval.evalEnv VUndefined
         <> Throw "[[error:invalid-group-name]]")
  /\ (GroupsCreate.isPrivilegeGroup GroupsEval.evalEnv (VStr "moderators:eu") = false
      /\ includes ":" "moderators:eu" = true
      /\ @GroupsCreate.validateGroupName evalHost GroupsEval.evalEnv (VStr "moderators:eu")
         = Throw "[[error:group-name-too-long]]"
      /\ @GroupsCreate.validateGroupName evalHost GroupsEval.evalEnv (VStr "moderators:eu")
         <> Throw "[[error:invalid-group-name]]").
Proof.
  repeat split; try reflexivity; discriminate.
Qed.

Lemma group_creation_rejections_witness :
  @GroupsCreate.validateGroupName evalHost GroupsEval.evalEnv (VStr "")
  = Throw "[[error:group-name-too-short]]"
  /\ @GroupsCreate.validateGroupName evalHost GroupsEval.evalEnv (VNum (num_of_Z 5))
     = Throw "[[error:invalid-group-name]]"
  /\ @GroupsCreate.validateGroupName evalHost GroupsEval.evalEnv (VStr "Global Moderators")
     = Throw "[[error:group-name-too-long]]"
  /\ @GroupsCreate.validateGroupName evalHost GroupsEval.evalEnv (VStr "guests")
     = Throw "[[error:invalid-group-name]]"
  /\ @GroupsCreate.create evalHost GroupsEval.evalEnv (GroupsEval.named (VStr "A B"))
     = (Throw "[[error:group-already-exists]]", [])
  /\ @GroupsCreate.create evalHost GroupsEval.evalEnv (GroupsEval.named (VStr "x:y"))
     = (Throw "[[error:invalid-group-name]]", []).
Proof.
  pose proof (fun n => @group_creation_rejections evalHost GroupsEval.evalEnv
                         (GroupsEval.named n)) as T.
  split; [|split; [|split; [|split; [|split]]]].
  - destruct (T (VStr "")) as (H1 & _). apply H1. reflexivity.
  - destruct (T (VNum (num_of_Z 5))) as (_ & H2 & _).
    apply H2; [reflexivity | discriminate].
  - destruct (T (VStr "Global Moderators")) as (_ & _ & H3 & _).
    apply (H3 "Global Moderators"); [reflexivity | discriminate | reflexivity | reflexivity].
  - destruct (T (VStr "guests")) as (_ & _ & _ & H4 & _).
    apply (H4 "guests"); [reflexivity | discriminate | right; reflexivity | left; reflexivity].
  - destruct (T (VStr "A B")) as (_ & _ & _ & _ & H5 & _).
    apply (H5 true false); [reflexivity | reflexivity | discriminate | now left].
  - destruct (T (VStr "x:y")) as (_ & _ & _ & _ & _ & H6).
    apply H6. left. reflexivity.
Defined.

(** ** Picture uploads *)

Section PictureFacts.
Context `{Host} (env : Picture.Env).
Import Picture.

Lemma percentage_sound (cs rest : list ascii) (seen : bool) :
  percentage seen cs = Some rest ->
  exists a, forallb is_digit_or_dot a = true
            /\ cs = a ++ "%"%char :: rest
            /\ (seen = false -> a <> []).
Proof.
  revert seen. induction cs as [|c cs IH]; intros seen; simpl; [discriminate|].
  destruct (is_digit_or_dot c) eqn:Ec.
  - intros Hp. destruct (IH true Hp) as (a & Ha & -> & _).
    exists (c :: a). simpl. rewrite Ec, Ha. repeat split. discriminate.
  - destruct seen; simpl; [|discriminate].
    destruct (Ascii.eqb c "%") eqn:Epc; [|discriminate].
    apply Ascii.eqb_eq in Epc. subst c.
    intros [= <-]. exists []. repeat split. discriminate.
Qed.

Lemma percentage_complete (a rest : list ascii) (seen : bool) :
  forallb is_digit_or_dot a = true ->
  seen = true \/ a <> [] ->
  percentage seen (a ++ "%"%char :: rest) = Some rest.
Proof.
  revert seen. induction a as [|c a IH]; intros seen Ha Hseen; simpl.
  - destruct Hseen as [-> | Hne]; [reflexivity | congruence].
  - simpl in Ha. apply andb_true_iff in Ha as [Hc Ha].
    rewrite Hc. apply IH; [assumption | now left].
Qed.

(** The matcher accepts exactly the strings made of two percentage values. *)
Lemma cover_position_re_spec (s : string) :
  cover_position_re s = true <-> two_percentages s.
Proof.
  unfold cover_position_re, two_percentages. split.
  - destruct (percentage false (list_ascii_of_string s)) as [[|w rest]|] eqn:E1;
      try discriminate.
    intros Hm. apply andb_true_iff in Hm as [Hw Hm].
    destruct (percentage false rest) as [[|? ?]|] eqn:E2; try discriminate.
    apply percentage_sound in E1 as (a & Ha & Hs & Hane).
    apply percentage_sound in E2 as (b & Hb & -> & Hbne).
    exists a, b, w. repeat split; auto.
  - intros (a & b & w & Hane & Hbne & Ha & Hb & Hw & ->).
    rewrite (percentage_complete a _ false Ha) by now right.
    rewrite Hw. simpl.
    now rewrite (percentage_complete b [] false Hb) by now right.
Qed.

(** C7, as amended.  [uploadCroppedPictureFile] throws
    '[[error:profile-image-uploads-disabled]]' when
    meta.config.allowProfileImageUploads is off; when uploads are allowed it
    throws '[[error:file-too-big, <max>]]' if the file size exceeds
    meta.config.maximumProfileImageSize kibibytes; when uploads are allowed
    and the size is within the limit it throws '[[error:invalid-image]]' if
    the MIME type is not one of image/png, image/jpeg, image/bmp, image/gif.  In each case nothing has been written.  The base64
    uploads likewise write nothing when their validation throws.
    [updateCoverPosition] throws '[[error:invalid-data]]', after a warning
    and without setting the user field, for every position string that is
    not two percentage values. *)
Theorem picture_upload_validation (log : list effect) :
  (forall data : fileUpload,
      truthy (allowProfileImageUploads env) = false ->
      uploadCroppedPictureFile env data log
      = (Throw "[[error:profile-image-uploads-disabled]]", log))
  /\ (forall data : fileUpload,
      truthy (allowProfileImageUploads env) = true ->
      num_lt (num_scale (ToNumber (maximumProfileImageSize env)) 1024)
             (ToNumber (size (file data))) = true ->
      uploadCroppedPictureFile env data log
      = (Throw ("[[error:file-too-big, " +:+ ToString (maximumProfileImageSize env) +:+ "]]"),
         log))
  /\ (forall data : fileUpload,
      truthy (allowProfileImageUploads env) = true ->
      num_lt (num_scale (ToNumber (maximumProfileImageSize env)) 1024)
             (ToNumber (size (file data))) = false ->
      (forall t, In t getAllowedImageTypes -> type (file data) <> VStr t) ->
      uploadCroppedPictureFile env data log = (Throw "[[error:invalid-image]]", log))
  /\ (forall (data : imageUpload) (e : string),
      truthy (allowProfileImageUploads env) = true ->
      validateUpload env data (maximumProfileImageSize env) getAllowedImageTypes = Throw e ->
      uploadCroppedPicture env data log = (Throw e, log))
  /\ (forall (data : imageUpload) (e : string),
      truthy (imageData data) = true \/ truthy (position data) = false ->
      validateUpload env data (maximumCoverImageSize env)
        ["image/png"; "image/jpeg"; "image/bmp"] = Throw e ->
      updateCoverPicture env data log = (Throw e, log))
  /\ (forall (uid0 : value) (position0 : string),
      ~ two_percentages position0 ->
      updateCoverPosition env uid0 (VStr position0) log
      = (Throw "[[error:invalid-data]]",
         log ++ [Warn ("[user/updateCoverPosition] Invalid position received: " +:+ position0)])).
Proof.
  split; [|split; [|split; [|split; [|split]]]].
  - intros data Hoff. unfold uploadCroppedPictureFile. now rewrite Hoff.
  - intros data Hon Hbig. unfold uploadCroppedPictureFile. now rewrite Hon, Hbig.
  - intros data Hon Hfit Hty. unfold uploadCroppedPictureFile.
    rewrite Hon, Hfit. cbn [negb].
    replace (negb (truthy (type (file data)))
             || negb (existsb (is_str (type (file data))) getAllowedImageTypes))
      with true; [reflexivity|].
    symmetry. apply orb_true_iff. right. apply negb_true_iff, not_true_iff_false.
    intros Hex. apply existsb_exists in Hex as (t & Hin & Ht).
    apply (Hty t Hin). unfold is_str in Ht.
    destruct (type (file data)); try discriminate.
    apply String.eqb_eq in Ht. now subst.
  - intros data e Hon Hv. unfold uploadCroppedPicture, bindM, lift.
    now rewrite Hon, Hv.
  - intros data e Hshape Hv. unfold updateCoverPicture, bindM, lift.
    replace (negb (truthy (imageData data)) && truthy (position data)) with false.
    + now rewrite Hv.
    + symmetry. destruct Hshape as [-> | ->]; [reflexivity | apply andb_false_r].
  - intros uid0 position0 Hnot. unfold updateCoverPosition, bindM, call, throw.
    cbn [ToString].
    destruct (cover_position_re position0) eqn:E; [|reflexivity].
    apply cover_position_re_spec in E. contradiction.
Qed.

End PictureFacts.

(** The first failing check decides the error.  With uploads off and a file
    of 300000 bytes, above the limit of 256 KiB, [uploadCroppedPictureFile]
    throws '[[error:profile-image-uploads-disabled]]', not
    '[[error:file-too-big, 256]]'; with uploads on, the same size and the type
    image/webp it throws '[[error:file-too-big, 256]]', not
    '[[error:invalid-image]]'. *)
Lemma upload_switch_checked_first :
  let off := PictureEval.evalEnv (VNum (num_of_Z 0)) in
  let on := PictureEval.evalEnv (VNum (num_of_Z 1)) in
  let big := PictureEval.photo 300000 (VStr "image/png") in
  let webp := PictureEval.photo 300000 (VStr "image/webp") in
  (num_lt (num_scale (@ToNumber evalHost (Picture.maximumProfileImageSize off)) 1024)
          (@ToNumber evalHost (Picture.size (Picture.file big))) = true
   /\ @Picture.uploadCroppedPictureFile evalHost off big []
      = (Throw "[[error:profile-image-uploads-disabled]]", [])
   /\ (@Picture.uploadCroppedPictureFile evalHost off big []).1
      <> Throw "[[error:file-too-big, 256]]")
  /\ (~ In "image/webp" Picture.getAllowedImageTypes
      /\ @Picture.uploadCroppedPictureFile evalHost on webp []
         = (Throw "[[error:file-too-big, 256]]", [])
      /\ (@Picture.uploadCroppedPictureFile evalHost on webp []).1
         <> Throw "[[error:invalid-image]]").
Proof.
  repeat split; try reflexivity; try discriminate.
  intros Hin. simpl in Hin.
  destruct Hin as [? | [? | [? | [? | []]]]]; discriminate.
Qed.

Lemma picture_upload_validation_witness :
  @Picture.uploadCroppedPictureFile evalHost (PictureEval.evalEnv (VNum (num_of_Z 0)))
     (PictureEval.photo 1000 (VStr "image/png")) []
  = (Throw "[[error:profile-image-uploads-disabled]]", [])
  /\ @Picture.uploadCroppedPictureFile evalHost (PictureEval.evalEnv (VNum (num_of_Z 1)))
       (PictureEval.photo 300000 (VStr "image/png")) []
     = (Throw "[[error:file-too-big, 256]]", [])
  /\ @Picture.uploadCroppedPictureFile evalHost (PictureEval.evalEnv (VNum (num_of_Z 1)))
       (PictureEval.photo 1000 (VStr "image/webp")) []
     = (Throw "[[error:invalid-image]]", [])
  /\ @Picture.updateCoverPosition evalHost (PictureEval.evalEnv (VNum (num_of_Z 1)))
       (VNum (num_of_Z 7)) (VStr "50% 50") []
     = (Throw "[[error:invalid-data]]",
        [Picture.Warn "[user/updateCoverPosition] Invalid position received: 50% 50"]).
Proof.
  split; [|split; [|split]].
  - destruct (@picture_upload_validation evalHost (PictureEval.evalEnv (VNum (num_of_Z 0))) [])
      as (Hoff & _).
    apply Hoff. reflexivity.
  - destruct (@picture_upload_validation evalHost (PictureEval.evalEnv (VNum (num_of_Z 1))) [])
      as (_ & Hbig & _).
    apply (Hbig (PictureEval.photo 300000 (VStr "image/png"))); reflexivity.
  - destruct (@picture_upload_validation evalHost (PictureEval.evalEnv (VNum (num_of_Z 1))) [])
      as (_ & _ & Hmime & _).
    apply (Hmime (PictureEval.photo 1000 (VStr "image/webp"))); [reflexivity | reflexivity |].
    intros t Hin. simpl in Hin.
    destruct Hin as [<- | [<- | [<- | [<- | []]]]]; discriminate.
  - destruct (@picture_upload_validation evalHost (PictureEval.evalEnv (VNum (num_of_Z 1))) [])
      as (_ & _ & _ & _ & _ & Hpos).
    apply (Hpos (VNum (num_of_Z 7)) "50% 50").
    intros Hm. apply cover_position_re_spec in Hm. discriminate.
Defined.

Example cover_position_accepted :
  @Picture.updateCoverPosition evalHost (PictureEval.evalEnv (VNum (num_of_Z 1)))
    (VNum (num_of_Z 7)) (VStr "50.5% 25%") []
  = (Ok tt, [Picture.SetUserField (VNum (num_of_Z 7)) "cover:position" (VStr "50.5% 25%")]).
Proof. reflexivity. Qed.

Example upload_accepted :
  @Picture.uploadCroppedPictureFile evalHost (PictureEval.evalEnv (VNum (num_of_Z 1)))
    (PictureEval.photo 1000 (VStr "image/png")) []
  = (Ok "/assets/uploads/profile/uid-7/7-profileavatar-1700000000000.png",
     [ Picture.ResizeImage "/tmp/photo" (VNum (num_of_Z 200)) (VNum (num_of_Z 200));
       Picture.UploadImage "7-profileavatar-1700000000000.png" "profile/uid-7" "/tmp/photo";
       Picture.UpdateProfile (VNum (num_of_Z 7)) (VNum (num_of_Z 7))
         "/assets/uploads/profile/uid-7/7-profileavatar-1700000000000.png" ]).
Proof. vm_compute. reflexivity. Qed.

(** ** User sessions *)

Section AuthFacts.
Context `{Host}.
Import Auth.

Lemma num_lt_NaN_r (a : jsnum) : num_lt a NaN = false.
Proof. now destruct a. Qed.

(** A number has no [length]: handed one, [revokeSessionsAboveThreshold]
    revokes nothing, whatever the threshold. *)
Lemma revokeSessionsAboveThreshold_number
  (maxUserSessions : value) (n : jsnum) (uid : value) (st : db * list (list string)) :
  revokeSessionsAboveThreshold maxUserSessions (VNum n) uid st = (Ok tt, st).
Proof.
  unfold revokeSessionsAboveThreshold.
  destruct (negb (gt maxUserSessions (VNum (num_of_Z 0)))); [reflexivity|].
  cbn [length_of]. unfold gt at 1. cbn [ToNumber].
  now rewrite num_lt_NaN_r.
Qed.

(** [addSession] hands [revokeSessionsAboveThreshold] the number that [push]
    returns, so it never revokes a session. *)
Lemma addSession_never_revokes
  (maxUserSessions : value) (now : Z) (settled : list string -> list string)
  (uid : value) (sessionId : string) (st : db * list (list string)) :
  (addSession maxUserSessions now settled uid sessionId st).2.2 = st.2.
Proof.
  unfold addSession.
  destruct (negb (num_lt (num_of_Z 0) (parseInt10 uid))); [reflexivity|].
  destruct (cleanExpiredSessions settled uid st.1) as [[activeSids|e] d]; [|reflexivity].
  cbn [push snd].
  now rewrite revokeSessionsAboveThreshold_number.
Qed.

End AuthFacts.

(** C9 on the code.  With meta.config.maxUserSessions = 1 and one active
    session [s1] of user 1, [addSession(1, 's2')] leaves two sessions in
    'uid:1:sessions' and hands nothing to [revokeSession]. *)
Theorem addSession_exceeds_maxUserSessions :
  let max := VNum (num_of_Z 1) in
  let after := @Auth.addSession evalHost max 2000 Auth.in_turn (VNum (num_of_Z 1)) "s2"
                 (Auth.one_session, []) in
  after.1 = Ok tt
  /\ Auth.getSortedSetRange after.2.1 "uid:1:sessions" = ["s1"; "s2"]
  /\ @gt evalHost (VNum (num_of_Z 2)) max = true
  /\ after.2.2 = [].
Proof. vm_compute. repeat split. Qed.

(** Handed the array itself, [revokeSessionsAboveThreshold] revokes the
    oldest session. *)
Example revokeSessionsAboveThreshold_on_array :
  (@Auth.revokeSessionsAboveThreshold evalHost (VNum (num_of_Z 1))
     (VArr [VStr "s1"; VStr "s2"]) (VNum (num_of_Z 1))
     (@Auth.sortedSetAdd "uid:1:sessions" 2000 "s2" Auth.one_session, [])).2.2
  = [["s1"]].
Proof. vm_compute. reflexivity. Qed.

(** ** Post delays *)

(** C4.  A user whose lastposttime is set and who posts again within
    meta.config.postDelay seconds of it is rejected by [User.isReadyToPost]
    with exactly '[[error:too-many-posts, <postDelay>]]', the delay being
    printed in decimal. *)
Theorem isReadyToPost_too_many_posts
  (newbie_rest too_new_rest : PostDelay.config -> string)
  (cfg : PostDelay.config) (now last : Z) (u : PostDelay.userData) :
  PostDelay.lastposttime u = Some last ->
  (now - last < PostDelay.postDelay cfg * 1000)%Z ->
  PostDelay.isReadyToPost newbie_rest too_new_rest cfg now u
  = Throw ("[[error:too-many-posts, " +:+ pretty (PostDelay.postDelay cfg) +:+ "]]").
Proof.
  intros Hlast Hwithin.
  unfold PostDelay.isReadyToPost, PostDelay.checkPostDelays.
  rewrite Hlast. simpl.
  apply Z.ltb_lt in Hwithin. now rewrite Hwithin.
Qed.

(** The standard rate limit test: postDelay is 10 and the user has just
    posted. *)
Lemma isReadyToPost_too_many_posts_witness :
  PostDelay.isReadyToPost (fun _ => "]]") (fun _ => "]]")
    {| PostDelay.postDelay := 10; PostDelay.newbiePostDelay := 0;
       PostDelay.newbieReputationThreshold := 0; PostDelay.initialPostDelay := 0 |}
    1700000000500
    {| PostDelay.lastposttime := Some 1700000000000%Z;
       PostDelay.joindate := 1600000000000; PostDelay.reputation := 0 |}
  = Throw "[[error:too-many-posts, 10]]".
Proof.
  refine (eq_trans (isReadyToPost_too_many_posts _ _ _ _ 1700000000000%Z _ _ _) _);
    reflexivity.
Defined.

(** The other two tests: with the standard delay off, a newbie who has just
    posted and a user who has just joined are turned away. *)
Example isReadyToPost_other_limits :
  PostDelay.isReadyToPost (fun _ => "]]") (fun _ => "]]")
    {| PostDelay.postDelay := 0; PostDelay.newbiePostDelay := 10;
       PostDelay.newbieReputationThreshold := 100; PostDelay.initialPostDelay := 0 |}
    1700000000500
    {| PostDelay.lastposttime := Some 1700000000000%Z;
       PostDelay.joindate := 1600000000000; PostDelay.reputation := 0 |}
  = Throw "[[error:too-many-posts-newbie]]"
  /\ PostDelay.isReadyToPost (fun _ => "]]") (fun _ => "]]")
       {| PostDelay.postDelay := 0; PostDelay.newbiePostDelay := 0;
          PostDelay.newbieReputationThreshold := 0; PostDelay.initialPostDelay := 100 |}
       1700000000500
       {| PostDelay.lastposttime := Some 1700000000000%Z;
          PostDelay.joindate := 1700000000000; PostDelay.reputation := 0 |}
     = Throw "[[error:user-too-new]]".
Proof. split; reflexivity. Qed.

(** ** Moderation controllers *)

Section ModsFacts.
Import Mods.

Lemma quiet_ret {A : Type} (a : A) : quiet (ret a).
Proof. intros log Hlog. exact Hlog. Qed.

Lemma quiet_await {A : Type} (what : string) (r : result A) : quiet (await what r).
Proof.
  intros log Hlog. unfold await. cbn [snd]. destruct r; [exact Hlog|].
  apply Forall_app. split; [exact Hlog | now constructor].
Qed.

Lemma quiet_call {A : Type} (ev : event) (r : result A) :
  match ev with Called _ (Some _) => False | _ => True end ->
  quiet (call ev r).
Proof.
  intros Hev log Hlog. unfold call. cbn [snd].
  apply Forall_app. split; [exact Hlog | now constructor].
Qed.

Lemma quiet_bind {A B : Type} (m : M A) (k : A -> M B) :
  quiet m -> (forall a, quiet (k a)) -> quiet (bindM m k).
Proof.
  intros Hm Hk log Hlog. unfold bindM.
  specialize (Hm log Hlog).
  destruct (m log) as [[a|e] log']; cbn [snd] in *; [now apply Hk | exact Hm].
Qed.

Lemma quiet_traced {A : Type} (ev : event) (what : string) (r : result A) :
  match ev with Called _ (Some _) => False | _ => True end ->
  quiet (traced ev what r).
Proof.
  intros Hev. unfold traced. apply quiet_bind; [now apply quiet_call|].
  intros _. apply quiet_await.
Qed.

Lemma quiet_call_if_given (cb : option string) (returns : result unit) :
  quiet (call_if_given cb returns).
Proof. destruct cb; [now apply quiet_traced | apply quiet_ret]. Qed.

Create HintDb quiet.
#[local] Hint Resolve quiet_ret quiet_await quiet_bind quiet_call_if_given : quiet.
#[local] Hint Extern 1 (quiet (call _ _)) => apply quiet_call; exact I : quiet.
#[local] Hint Extern 1 (quiet (traced _ _ _)) => apply quiet_traced; exact I : quiet.

Ltac quiet_cases :=
  repeat match goal with
         | |- quiet (if ?b then _ else _) => destruct b
         | |- quiet (match ?x with _ => _ end) => destruct x
         | |- quiet (bindM _ _) => apply quiet_bind; [|intros ?]
         | |- _ => solve [auto with quiet]
         end.

Lemma quiet_list_body (env : listEnv) (done : option string) : quiet (list_body env done).
Proof. unfold list_body. quiet_cases. Qed.

Lemma quiet_detail_body (env : detailEnv) (next : string) (done : option string) :
  quiet (detail_body env next done).
Proof. unfold detail_body, detail_rest. quiet_cases. Qed.

Lemma quiet_postQueue_body (env : queueEnv) (next : string) (done : option string) :
  quiet (postQueue_body env next done).
Proof. unfold postQueue_body. quiet_cases. Qed.

Lemma try_catch_done_events (done : option string) (done_with : string -> result unit)
  (body : M unit) (cb e : string) :
  quiet body ->
  In (Called cb (Some e)) (try_catch_done done done_with body []).2 ->
  done = Some cb.
Proof.
  intros Hq Hin. unfold try_catch_done in Hin.
  specialize (Hq [] (List.Forall_nil _)).
  assert (Hno : forall log, no_error_call log -> ~ In (Called cb (Some e)) log).
  { intros log Hlog Hc. unfold no_error_call in Hlog.
    rewrite List.Forall_forall in Hlog. exact (Hlog _ Hc). }
  destruct (body []) as [[u|e'] log']; cbn [snd] in Hq, Hin.
  - now destruct (Hno log' Hq).
  - destruct done as [c|]; cbn [snd] in Hin; apply in_app_or in Hin as [Hin | [Hin | []]].
    + now destruct (Hno log' Hq).
    + now injection Hin as -> _.
    + now destruct (Hno log' Hq).
    + discriminate.
Qed.

(** In [flags.detail] and [postQueue], where [done] is a fourth parameter
    beside [next], [next] is never called with an error unless it is also
    [done]. *)
Lemma next_receives_no_error (denv : detailEnv) (qenv : queueEnv)
  (next : string) (done : option string) (e : string) :
  done <> Some next ->
  ~ In (Called next (Some e)) (flags_detail denv next done []).2
  /\ ~ In (Called next (Some e)) (postQueue qenv next done []).2.
Proof.
  intros Hne. split; intros Hin; apply Hne.
  - apply (try_catch_done_events _ _ _ _ _ (quiet_detail_body denv next done) Hin).
  - apply (try_catch_done_events _ _ _ _ _ (quiet_postQueue_body qenv next done) Hin).
Qed.

(** *** Every step of a try block records what it throws *)

Lemma thrown_app (a b : list event) : thrown (a ++ b) = thrown a ++ thrown b.
Proof. apply omap_app. Qed.

Lemma recording_ret {A : Type} (a : A) : recording (ret a).
Proof. intros log. cbn. now rewrite app_nil_r. Qed.

Lemma recording_await {A : Type} (what : string) (r : result A) : recording (await what r).
Proof.
  intros log. unfold await. cbn [fst snd].
  destruct r; [now rewrite app_nil_r | now rewrite thrown_app].
Qed.

Lemma recording_call {A : Type} (ev : event) (a : A) :
  match ev with Threw _ _ => False | _ => True end ->
  recording (call ev (Ok a)).
Proof.
  intros Hev log. unfold call. cbn [fst snd]. rewrite thrown_app.
  now destruct ev.
Qed.

Lemma recording_bind {A B : Type} (m : M A) (k : A -> M B) :
  recording m -> (forall a, recording (k a)) -> recording (bindM m k).
Proof.
  intros Hm Hk log. unfold bindM. specialize (Hm log).
  destruct (m log) as [[a|e] log']; cbn [fst snd] in *.
  - rewrite (Hk a log'), Hm. now rewrite app_nil_r.
  - exact Hm.
Qed.

Lemma recording_traced {A : Type} (ev : event) (what : string) (r : result A) :
  match ev with Threw _ _ => False | _ => True end ->
  recording (traced ev what r).
Proof.
  intros Hev. unfold traced. apply recording_bind; [now apply recording_call|].
  intros _. apply recording_await.
Qed.

Lemma recording_call_if_given (cb : option string) (returns : result unit) :
  recording (call_if_given cb returns).
Proof. destruct cb; [now apply recording_traced | apply recording_ret]. Qed.

Create HintDb recording.
#[local] Hint Resolve recording_ret recording_await recording_bind
  recording_call_if_given : recording.
#[local] Hint Extern 1 (recording (call _ _)) => apply recording_call; exact I : recording.
#[local] Hint Extern 1 (recording (traced _ _ _)) =>
  apply recording_traced; exact I : recording.

Ltac recording_cases :=
  repeat match goal with
         | |- recording (if ?b then _ else _) => destruct b
         | |- recording (match ?x with _ => _ end) => destruct x
         | |- recording (bindM _ _) => apply recording_bind; [|intros ?]
         | |- _ => solve [auto with recording]
         end.

Lemma recording_list_body (env : listEnv) (done : option string) :
  recording (list_body env done).
Proof. unfold list_body. recording_cases. Qed.

Lemma recording_detail_body (env : detailEnv) (next : string) (done : option string) :
  recording (detail_body env next done).
Proof. unfold detail_body, detail_rest. recording_cases. Qed.

Lemma recording_postQueue_body (env : queueEnv) (next : string) (done : option string) :
  recording (postQueue_body env next done).
Proof. unfold postQueue_body. recording_cases. Qed.

Lemma In_thrown (what e : string) (log : list event) :
  In (Threw what e) log -> In e (thrown log).
Proof.
  intros Hin. unfold thrown. apply list_elem_of_In, list_elem_of_omap.
  exists (Threw what e). split; [now apply list_elem_of_In | reflexivity].
Qed.

(** Around a try block whose steps record what they throw, the catch block
    reports every error thrown, and the function rejects only when [done]
    itself throws on the error it is handed. *)
Lemma try_catch_done_reports (done : option string) (done_with : string -> result unit)
  (body : M unit) :
  recording body ->
  let run := try_catch_done done done_with body [] in
  (forall what e, In (Threw what e) run.2 -> reported done e run.2)
  /\ (forall e', run.1 = Throw e' ->
        exists c e, done = Some c /\ In (Called c (Some e)) run.2 /\ done_with e = Throw e').
Proof.
  intros Hrec run. subst run. unfold try_catch_done.
  specialize (Hrec []).
  change (thrown []) with (@nil string) in Hrec.
  destruct (body []) as [[u|e0] log']; cbn [fst snd app] in Hrec.
  - cbn [fst snd]. split; [|discriminate].
    intros what e Hin. apply In_thrown in Hin. rewrite Hrec in Hin. destruct Hin.
  - assert (Hone : forall what e, In (Threw what e) log' -> e = e0).
    { intros what e Hin. apply In_thrown in Hin. rewrite Hrec in Hin.
      destruct Hin as [<- | []]. reflexivity. }
    destruct done as [c|]; cbn [fst snd]; (split; [|]).
    + intros what e Hin. apply in_app_or in Hin as [Hin | [Hin | []]]; [|discriminate].
      rewrite (Hone _ _ Hin). cbn. apply in_or_app. right. now left.
    + intros e' He'. exists c, e0. split; [reflexivity|].
      split; [apply in_or_app; right; now left | exact He'].
    + intros what e Hin. apply in_app_or in Hin as [Hin | [Hin | []]]; [|discriminate].
      rewrite (Hone _ _ Hin). cbn. apply in_or_app. right. now left.
    + discriminate.
Qed.

(** C3, as amended.  Every error thrown inside the try block of
    [modsController.flags.list], [modsController.flags.detail] or
    [modsController.postQueue], by a call the controller awaits, by a
    computation, by [res.render] or by a callback, is caught and handed to
    the callback [done] when the controller was called with one, and written
    to the console otherwise.  The controller's own promise rejects only
    when [done] throws on the error it is handed. *)
Theorem mods_errors_go_to_done
  (lenv : listEnv) (denv : detailEnv) (qenv : queueEnv)
  (next : string) (done : option string) :
  let l := flags_list lenv done [] in
  let d := flags_detail denv next done [] in
  let q := postQueue qenv next done [] in
  (forall what e, In (Threw what e) l.2 -> reported done e l.2)
  /\ (forall what e, In (Threw what e) d.2 -> reported done e d.2)
  /\ (forall what e, In (Threw what e) q.2 -> reported done e q.2)
  /\ (forall e', l.1 = Throw e' ->
        exists c e, done = Some c /\ In (Called c (Some e)) l.2
                    /\ l_done_with lenv e = Throw e')
  /\ (forall e', d.1 = Throw e' ->
        exists c e, done = Some c /\ In (Called c (Some e)) d.2
                    /\ d_done_with denv e = Throw e')
  /\ (forall e', q.1 = Throw e' ->
        exists c e, done = Some c /\ In (Called c (Some e)) q.2
                    /\ q_done_with qenv e = Throw e').
Proof.
  intros l d q. subst l d q.
  destruct (try_catch_done_reports done (l_done_with lenv) _
              (recording_list_body lenv done)) as [Hl1 Hl2].
  destruct (try_catch_done_reports done (d_done_with denv) _
              (recording_detail_body denv next done)) as [Hd1 Hd2].
  destruct (try_catch_done_reports done (q_done_with qenv) _
              (recording_postQueue_body qenv next done)) as [Hq1 Hq2].
  repeat split; assumption.
Qed.

(** Each awaited call of [flags.list] that rejects is recorded as thrown,
    whatever the calls before it resolved to on the way there. *)
Lemma flags_list_await_recorded (env : listEnv) (done : option string) (e : string) :
  l_isAdminOrGlobalMod env = Ok true ->
  l_getModeratedCids env = Ok [] ->
  l_validateFilters env = Ok tt ->
  l_validateSort env = Ok tt ->
  l_parseFilters env = Ok tt ->
  l_flags_list env = Ok tt ->
  l_getDailyStatsForSet env = Ok tt ->
  l_getSelectedCategory env = Ok tt ->
  l_getSelectedUsers env = Throw e ->
  (flags_list env done []).2
  = [Threw "getSelectedUsers" e;
     match done with Some c => Called c (Some e) | None => ConsoleError e end].
Proof.
  intros Ha Hc Hf Hs Hp Hl Hd Hcat Hu.
  unfold flags_list, try_catch_done, list_body, both, bindM, await.
  rewrite Ha, Hc, Hf, Hs, Hp, Hl, Hd, Hcat, Hu. cbn.
  now destruct done.
Qed.

End ModsFacts.

(** Called with the request, the response and the continuation [next], and
    no [done], [flags.detail] writes the error of a failed flag lookup to the
    console; [next] is not called. *)
Lemma flags_detail_error_not_forwarded :
  Mods.detail_body Mods.failing_detail "next" None []
  = (Throw "[[error:invalid-data]]",
     [Mods.Threw "utils.promiseParallel" "[[error:invalid-data]]"])
  /\ (Mods.flags_detail Mods.failing_detail "next" None []).2
     = [Mods.Threw "utils.promiseParallel" "[[error:invalid-data]]";
        Mods.ConsoleError "[[error:invalid-data]]"]
  /\ ~ In (Mods.Called "next" (Some "[[error:invalid-data]]"))
          (Mods.flags_detail Mods.failing_detail "next" None []).2.
Proof.
  split; [reflexivity|]. split; [reflexivity|].
  intros [Hin | [Hin | []]]; discriminate.
Qed.

Lemma mods_errors_go_to_done_witness :
  Mods.reported (Some "next") "[[error:invalid-data]]"
    (Mods.flags_list Mods.failing_list (Some "next") []).2
  /\ Mods.reported (Some "done") "[[error:invalid-data]]"
       (Mods.flags_detail Mods.failing_detail "next" (Some "done") []).2
  /\ Mods.reported None "[[error:no-privileges]]"
       (Mods.postQueue Mods.failing_queue "next" None []).2.
Proof.
  split; [|split].
  - destruct (mods_errors_go_to_done Mods.failing_list Mods.failing_detail
                Mods.failing_queue "next" (Some "next")) as (Hlist & _).
    apply (Hlist "Promise.all"). left. reflexivity.
  - destruct (mods_errors_go_to_done Mods.failing_list Mods.failing_detail
                Mods.failing_queue "next" (Some "done")) as (_ & Hdetail & _).
    apply (Hdetail "utils.promiseParallel"). left. reflexivity.
  - destruct (mods_errors_go_to_done Mods.failing_list Mods.failing_detail
                Mods.failing_queue "next" None) as (_ & _ & Hqueue & _).
    apply (Hqueue "posts.getQueuedPosts"). left. reflexivity.
Defined.

(** The call the controller does not await: a user who moderates nothing
    asks for the list of flags and [helpers.notAllowed] rejects.  [done] is
    called without an error, and the rejection reaches neither [done] nor
    the console. *)
Example flags_list_notAllowed_rejection :
  Mods.flags_list Mods.refused_list (Some "done") []
  = (Ok tt,
     [Mods.NotAllowed (Some "Cannot set headers after they are sent to the client");
      Mods.Called "done" None]).
Proof. reflexivity. Qed.

(** ** User search *)

Section SearchFacts.
Context {W : Type} `{Host} (env : Search.Env W).
Import Search.

Lemma bindM_congr {S A B : Type} (m m' : M S A) (k k' : A -> M S B) (st : S) :
  m st = m' st ->
  (forall a st', k a st' = k' a st') ->
  bindM m k st = bindM m' k' st.
Proof.
  intros Hm Hk. unfold bindM. rewrite Hm.
  destruct (m' st) as [[a|e] st']; [apply Hk | reflexivity].
Qed.

Lemma bindM_congr_Ok {S A B : Type} (m m' : M S A) (k k' : A -> M S B) (st : S) :
  m st = m' st ->
  (forall a st', m' st = (Ok a, st') -> k a st' = k' a st') ->
  bindM m k st = bindM m' k' st.
Proof.
  intros Hm Hk. unfold bindM. rewrite Hm.
  destruct (m' st) as [[a|e] st']; [now apply Hk | reflexivity].
Qed.

Lemma bindM_ret_l {S A B : Type} (a : A) (k : A -> M S B) (st : S) :
  bindM (ret a) k st = k a st.
Proof. reflexivity. Qed.

Lemma bindM_assoc {S A B C : Type} (m : M S A) (k : A -> M S B) (h : B -> M S C) (st : S) :
  bindM (bindM m k) h st = bindM m (fun a => bindM (k a) h) st.
Proof.
  unfold bindM. destruct (m st) as [[a|e] st']; reflexivity.
Qed.

(** The two ways of putting a single filter into an array agree. *)
Lemma normalizeFilters_inline (filters0 : value) :
  A.normalizeFilters filters0
  = match or_else filters0 (VArr []) with
    | VArr l => l
    | _ => [filters0]
    end.
Proof.
  unfold A.normalizeFilters, or_else.
  destruct (truthy filters0) eqn:E; reflexivity.
Qed.

(** The helpers of src/user/search.js compute what the second version
    computes inline. *)
Lemma filterAndSortUids_agree (uids : list value) (data : searchData W) (w : W) :
  A.filterAndSortUids env uids data w = B.filterAndSortUids env uids data w.
Proof.
  unfold A.filterAndSortUids, B.filterAndSortUids.
  rewrite normalizeFilters_inline.
  unfold A.collectFields, A.applyGroupFilter, A.maybeApplyBannedFilter, A.applyFilterFns.
  cbn zeta.
  apply bindM_congr; [reflexivity|]. intros fields w0.
  apply bindM_congr.
  - destruct (truthy (groupName data)); reflexivity.
  - intros filteredUids w'.
    destruct (length _ =? 0)%nat; [reflexivity|].
    apply bindM_congr; [|reflexivity].
    destruct (existsb _ _ || existsb _ _); reflexivity.
Qed.

(** On a list of blocks that is neither null nor undefined, reading its
    length unguarded and [attachBlockFlags] agree. *)
Lemma attachBlockFlags_inline (userData : list (option user)) (blocks : value) :
  nullish blocks = false ->
  (blocks_length <- length_of blocks ;;
   Ok (if truthy blocks_length
       then List.map (set_isBlocked env blocks) userData
       else userData))
  = B.attachBlockFlags env userData blocks.
Proof.
  intros Hb. unfold B.attachBlockFlags.
  destruct blocks as [| |b|n|s|l]; try discriminate; cbn [length_of Js.bind].
  - change (truthy VUndefined) with false. now destruct (truthy (VBool b)).
  - change (truthy VUndefined) with false. now destruct (truthy (VNum n)).
  - destruct s as [|c s]; [reflexivity|].
    change (truthy (VStr (String c s))) with true. cbn [negb].
    now destruct (truthy _).
  - change (truthy (VArr l)) with true. cbn [negb].
    now destruct (truthy _).
Qed.

(** Resolving the candidates inline, as src/user/search.js does, and through
    [resolveUidsFromSearchBy] yield the same uids, provided [isUri] accepts
    no falsy value. *)
Lemma resolve_agree (data : searchData W) (w : W) :
  (forall v, isUri env v = true -> truthy v = true) ->
  let query0 := or_else (query data) (VStr "") in
  let searchBy0 := or_else (searchBy data) (VStr "username") in
  (if is_str searchBy0 "ip" then searchByIP env query0
   else if is_str searchBy0 "uid" then ret [query0]
   else
     uids <~
       (if negb (bool_decide (is_Some (data_findUids data))) && truthy (uid data) then
          let handle := isWebfinger env (query data) in
          if truthy handle || isUri env (query data) then
            local <~ resolveLocalId env (query data) ;;
            if is_str (local_type local) "user" && isNumber (local_id local)
            then ret [local_id local]
            else
              assertion0 <~ actors_assert env (or_else handle (query data)) ;;
              match assertion0 with
              | AssertTrue =>
                  u <~ (if truthy handle then getUidByUserslug env handle
                        else ret query0) ;;
                  ret [u]
              | AssertActors ids => ret ids
              | AssertOther => ret []
              end
          else ret []
        else ret []) ;;
     if (length uids =? 0)%nat then
       let searchMethod := default (findUids env) (data_findUids data) in
       uids <~ searchMethod query0 searchBy0 (hardCap data) ;;
       if truthy (activitypubEnabled env) && bool_decide (is_Some (apMapping searchBy0))
       then
         more <~ searchMethod query0 (default VUndefined (apMapping searchBy0))
                   (hardCap data) ;;
         ret (uids ++ more)
       else ret uids
     else ret uids) w
  = B.resolveUidsFromSearchBy env query0 searchBy0 data w.
Proof.
  intros HisUri query0 searchBy0.
  unfold B.resolveUidsFromSearchBy, B.runSearchMethodWithApFallback.
  destruct (is_str searchBy0 "ip"); [reflexivity|].
  destruct (is_str searchBy0 "uid"); [reflexivity|].
  destruct (negb (bool_decide (is_Some (data_findUids data))) && truthy (uid data));
    [|reflexivity].
  apply bindM_congr.
  - unfold B.resolveActivityPubCandidates. cbn zeta.
    destruct (truthy (isWebfinger env (query data))) eqn:Eh; cbn [orb negb andb].
    + reflexivity.
    + destruct (isUri env (query data)) eqn:Eu; cbn [negb]; [|reflexivity].
      apply bindM_congr; [reflexivity|]. intros local w'.
      destruct (is_str (local_type local) "user" && isNumber (local_id local));
        [reflexivity|].
      apply bindM_congr; [reflexivity|]. intros [|ids|] w''; try reflexivity.
      subst query0. unfold or_else at 1.
      now rewrite (HisUri _ Eu).
  - intros uids w'. destruct (length uids =? 0)%nat; reflexivity.
Qed.


End SearchFacts.



Example search_not_banned_al :
  @Search.B.search SearchEval.world evalHost SearchEval.evalEnv SearchEval.not_banned_al []
  = (Ok {| Search.matchCount := 1;
           Search.pageCount := Some (VNum (num_of_Z 1));
           Search.users := [Some (SearchEval.user_of (VNum (num_of_Z 1)))] |},
     ["getSortedSetRangeByLex"; "isMembers"; "getUsersFields"; "filter:users.search";
      "getUsers"; "blocks.list"]).
Proof. vm_compute. reflexivity. Qed.

(** A filter named after a property of [Object.prototype] makes both
    versions throw before any user is looked up. *)
Example search_inherited_filter :
  let data := {| Search.query := VStr "al"; Search.searchBy := VUndefined;
                 Search.page := VUndefined; Search.uid := VNum (num_of_Z 1);
                 Search.paginate := None; Search.data_findUids := None;
                 Search.hardCap := VUndefined; Search.filters := VStr "constructor";
                 Search.sortBy := VUndefined; Search.sortDirection := VUndefined;
                 Search.groupName := VUndefined; Search.resultsPerPage := VUndefined |} in
  @Search.A.search SearchEval.world evalHost SearchEval.evalEnv data []
  = (Throw "Spread syntax requires ...iterable[Symbol.iterator] to be a function",
     ["getSortedSetRangeByLex"])
  /\ @Search.B.search SearchEval.world evalHost SearchEval.evalEnv data []
     = @Search.A.search SearchEval.world evalHost SearchEval.evalEnv data [].
Proof. vm_compute. split; reflexivity. Qed.

(** ** Sorted-set adapter: what reaches the driver, and the two entry points *)

Section SortedAddAtomicity.
Context `{Host} (execute : SortedAdd.bulk_write -> result unit).
Import SortedAdd.

Lemma queue_items_length (items : list value) (acc bulk : list upsert) :
  queue_items items acc = Ok bulk ->
  length bulk = length acc + length items.
Proof.
  revert acc. induction items as [|item rest IH]; intros acc; simpl.
  - intros [= <-]. lia.
  - destruct (get_index item 1) as [score|e]; simpl; [|discriminate].
    destruct (isNumber score); simpl; [|discriminate].
    destruct (get_index item 0) as [key|e]; simpl; [|discriminate].
    destruct (get_index item 2) as [v|e]; simpl; [|discriminate].
    intros Hq. apply IH in Hq. rewrite length_app in Hq. simpl in Hq. lia.
Qed.

Lemma queue_items_first_invalid (ts : list (value * value * value))
  (bad : value * value * value) (rest : list value) (acc : list upsert) :
  Forall (fun t => isNumber (t.1.2) = true) ts ->
  isNumber (bad.1.2) = false ->
  queue_items (List.map triple_item ts ++ triple_item bad :: rest) acc
  = Throw (invalid_score (bad.1.2)).
Proof.
  revert acc. induction ts as [|[[key score] v] ts IH]; intros acc Hall Hbad; simpl.
  - destruct bad as [[key score] v]. simpl in *. now rewrite Hbad.
  - inversion Hall as [|? ? Hs Hrest]; subst. simpl in Hs.
    rewrite Hs; simpl. now apply IH.
Qed.

(** X1.  Each entry point calls [bulk.execute()] at most once.  Either it is
    not called at all, and then the call fulfilled because there was no key
    (no item) or threw before any bulk was handed to the driver; or it is
    called once, on a bulk on 'objects' holding one upsert per key (per
    item), and the call settles exactly as that [execute()] settled.  So the
    only error that can follow a write is the driver's own. *)
Theorem sorted_add_at_most_one_bulk (keys scores value0 data : value) (db : mongo) :
  (let (r, db') := sortedSetsAdd execute keys scores value0 db in
   (db' = db /\ (r = Ok tt -> forall k ks, keys <> VArr (k :: ks)))
   \/ exists ks bulk, keys = VArr ks /\ ks <> []
        /\ db' = db ++ [ {| collection := "objects"; ops := bulk |} ]
        /\ r = execute {| collection := "objects"; ops := bulk |}
        /\ length bulk = length ks)
  /\
  (let (r, db') := sortedSetAddBulk execute data db in
   (db' = db /\ (r = Ok tt -> forall item rest, data <> VArr (item :: rest)))
   \/ exists items bulk, data = VArr items /\ items <> []
        /\ db' = db ++ [ {| collection := "objects"; ops := bulk |} ]
        /\ r = execute {| collection := "objects"; ops := bulk |}
        /\ length bulk = length items).
Proof.
  split.
  - unfold sortedSetsAdd.
    destruct keys as [| |b|n|s|[|k ks]]; try (left; split; [reflexivity|congruence]).
    destruct (normalizeScores (k :: ks) scores) as [[isArr norm]|e];
      [|left; split; [reflexivity|discriminate]].
    right. eexists (k :: ks), _. split; [reflexivity|]. split; [congruence|].
    split; [reflexivity|]. split; [reflexivity|]. now rewrite length_imap.
  - unfold sortedSetAddBulk.
    destruct data as [| |b|n|s|[|item rest]]; try (left; split; [reflexivity|congruence]).
    destruct (queue_items (item :: rest) []) as [bulk|e] eqn:Hq;
      [|left; split; [reflexivity|discriminate]].
    right. exists (item :: rest), bulk. split; [reflexivity|]. split; [congruence|].
    split; [reflexivity|]. split; [reflexivity|]. now apply queue_items_length in Hq.
Qed.

(** X2.  [sortedSetAddBulk] stops at the first item whose score is not a
    number: it throws '[[error:invalid-score, <that score>]]' whatever follows
    the item, and the operations queued for the items before it never reach
    the driver. *)
Theorem sortedSetAddBulk_first_invalid_score (ts : list (value * value * value))
  (bad : value * value * value) (rest : list value) (db : mongo) :
  Forall (fun t => isNumber (t.1.2) = true) ts ->
  isNumber (bad.1.2) = false ->
  sortedSetAddBulk execute (VArr (List.map triple_item ts ++ triple_item bad :: rest)) db
  = (Throw ("[[error:invalid-score, " +:+ ToString (bad.1.2) +:+ "]]"), db).
Proof.
  intros Hall Hbad.
  pose proof (queue_items_first_invalid ts bad rest [] Hall Hbad) as Hq.
  unfold sortedSetAddBulk.
  destruct (List.map triple_item ts ++ triple_item bad :: rest) as [|item items] eqn:Hl.
  - now destruct (List.map triple_item ts).
  - now rewrite Hq.
Qed.

(** The triple [key, score, value] that [sortedSetsAdd] upserts for the key
    of index [i]. *)
Lemma imap_triples (keys : list value) (scores value0 : value) :
  valid_scores keys scores ->
  List.map triple_upsert (keyed_triples keys scores value0)
  = expected_upserts keys scores value0.
Proof.
  intros Hv. apply list_eq; intros i.
  unfold keyed_triples.
  rewrite list_lookup_fmap, list_lookup_imap.
  destruct (keys !! i) as [key|] eqn:Hk; simpl.
  - now rewrite (expected_upserts_lookup _ _ _ _ _ Hv Hk).
  - symmetry. apply lookup_ge_None. apply lookup_ge_None in Hk.
    unfold expected_upserts.
    destruct scores as [| |b|n|s|ss]; rewrite ?length_map; try lia.
    destruct Hv as [Hlen _]. rewrite length_zip_with. lia.
Qed.

Lemma keyed_triples_numbers (keys : list value) (scores value0 : value) :
  valid_scores keys scores ->
  Forall (fun t => isNumber (t.1.2) = true) (keyed_triples keys scores value0).
Proof.
  intros Hv. apply Forall_lookup_2. intros i [[key score] v].
  unfold keyed_triples. rewrite list_lookup_imap.
  destruct (keys !! i) as [key'|] eqn:Hk; simpl; [|discriminate].
  intros [= <- <- <-]. simpl.
  destruct scores as [| |b|n|s|ss]; simpl in Hv; try exact Hv.
  destruct Hv as [Hlen Hnum].
  destruct (ss !! i) as [s|] eqn:Hs; simpl.
  - rewrite Forall_lookup in Hnum. exact (Hnum _ _ Hs).
  - apply lookup_lt_Some in Hk. apply lookup_ge_None in Hs. lia.
Qed.

(** X3.  The two entry points agree: with keys and valid scores,
    [sortedSetsAdd(keys, scores, value)] issues the bulk write that
    [sortedSetAddBulk] issues on the triples [keys[i], score of i, value],
    and settles as it does. *)
Theorem sortedSetsAdd_as_bulk (keys : list value) (scores value0 : value) (db : mongo) :
  keys <> [] ->
  valid_scores keys scores ->
  sortedSetsAdd execute (VArr keys) scores value0 db
  = sortedSetAddBulk execute
      (VArr (List.map triple_item (keyed_triples keys scores value0))) db.
Proof.
  intros Hne Hv.
  pose proof (queue_items_triples _ [] (keyed_triples_numbers keys scores value0 Hv)) as Hq.
  rewrite (imap_triples _ _ _ Hv) in Hq.
  destruct keys as [|k ks]; [congruence|].
  unfold sortedSetsAdd.
  rewrite (normalizeScores_valid _ _ Hv), (imap_scores _ _ _ Hv).
  unfold sortedSetAddBulk.
  destruct (List.map triple_item (keyed_triples (k :: ks) scores value0)) as [|item items] eqn:Hl.
  - discriminate.
  - now rewrite Hq.
Qed.

End SortedAddAtomicity.

Lemma sortedSetAddBulk_first_invalid_score_witness :
  @SortedAdd.sortedSetAddBulk evalHost SortedAdd.fulfilling
     (VArr [VArr [VStr "a"; VNum (num_of_Z 1); VStr "x"];
            VArr [VStr "b"; VStr "soon"; VStr "y"];
            VNull]) []
  = (Throw "[[error:invalid-score, soon]]", []).
Proof.
  apply (@sortedSetAddBulk_first_invalid_score evalHost SortedAdd.fulfilling
           [(VStr "a", VNum (num_of_Z 1), VStr "x")]
           (VStr "b", VStr "soon", VStr "y") [VNull] []).
  - repeat constructor.
  - reflexivity.
Defined.

Lemma sortedSetsAdd_as_bulk_witness :
  @SortedAdd.sortedSetsAdd evalHost SortedAdd.fulfilling
     (VArr [VStr "cid:1:tids"; VStr "topics:tid"])
     (VArr [VNum (num_of_Z 5); VStr "7"]) (VNum (num_of_Z 42)) []
  = @SortedAdd.sortedSetAddBulk evalHost SortedAdd.fulfilling
      (VArr [VArr [VStr "cid:1:tids"; VNum (num_of_Z 5); VNum (num_of_Z 42)];
             VArr [VStr "topics:tid"; VStr "7"; VNum (num_of_Z 42)]]) [].
Proof.
  apply (@sortedSetsAdd_as_bulk evalHost SortedAdd.fulfilling
           [VStr "cid:1:tids"; VStr "topics:tid"]
           (VArr [VNum (num_of_Z 5); VStr "7"]) (VNum (num_of_Z 42)) []).
  - discriminate.
  - split; [reflexivity|]. repeat constructor.
Defined.

(** ** The user cron jobs: stopping, and the digest callback *)

Section JobsTicks.
Context `{Host} (cron_parse : string -> result unit).
Import Jobs.

(** X4.  Whatever calls were made before, fulfilled or not, [User.stopJobs]
    leaves no job registered and no timer of this module running, and a
    second call changes nothing. *)
Theorem stopJobs_stops_every_timer (history : list request) :
  let s := stopJobs (run cron_parse history) in
  jobs s = ∅ /\ running s = ∅ /\ stopJobs s = s.
Proof.
  intros s. subst s.
  destruct (stopJobs_spec (run cron_parse history)) as (Hjobs & Hrun & Hnext).
  split; [exact Hjobs|]. split.
  - rewrite Hrun, run_coherent. apply set_eq. intros t.
    rewrite elem_of_difference. split; [intros [? ?]; contradiction|].
    intros Ht. now apply elem_of_empty in Ht.
  - unfold stopJobs at 1. rewrite Hjobs, map_to_list_empty. reflexivity.
Qed.

Lemma rem_2_even (c : Z) : (Z.rem c 2 =? 0)%Z = Z.even c.
Proof.
  destruct (Z.even c) eqn:He.
  - apply Z.eqb_eq. apply Z.even_spec in He as [k ->].
    rewrite Z.mul_comm. apply Z.rem_mul. lia.
  - apply Z.eqb_neq. intros Hr. apply Z.rem_divide in Hr; [|lia].
    destruct Hr as [k ->].
    rewrite Z.even_mul in He. simpl in He. rewrite orb_true_r in He. discriminate.
Qed.


End JobsTicks.


(** ** Asynchronous calls in sequence *)

Lemma bindM_Ok {S A B : Type} (m : M S A) (k : A -> M S B) (st st' : S) (b : B) :
  bindM m k st = (Ok b, st') ->
  exists a st1, m st = (Ok a, st1) /\ k a st1 = (Ok b, st').
Proof.
  unfold bindM. destruct (m st) as [[a|e] st1]; [|discriminate].
  intros Hk. now exists a, st1.
Qed.

(** ** Group creation: accepted names, visibility, member count *)

Section GroupsWrites.
Context `{Host} (env : GroupsCreate.Env).
Import GroupsCreate.

(** X6.  [Groups.validateGroupName] accepts exactly the non-empty strings
    that are privilege-group names or no longer than
    meta.config.maximumGroupNameLength, that differ from 'guests', that
    contain no ':' unless they are privilege-group names, that contain no
    '/', and whose slug is not empty. *)
Theorem validateGroupName_accepts_iff (n : value) :
  validateGroupName env n = Ok tt <->
  exists s, n = VStr s /\ s <> ""
    /\ (isPrivilegeGroup env n = true
        \/ lt_num (maximumGroupNameLength env) (num_of_Z (Z.of_nat (String.length s))) = false)
    /\ s <> "guests"
    /\ (isPrivilegeGroup env n = true \/ includes ":" s = false)
    /\ includes "/" s = false
    /\ slugify env s <> "".
Proof.
  unfold validateGroupName. split.
  - destruct (truthy n) eqn:Ht; cbn [negb]; [|discriminate].
    destruct n as [| |b|k|s|xs]; try discriminate.
    cbn [truthy] in Ht. apply negb_true_iff, String.eqb_neq in Ht.
    destruct (isPrivilegeGroup env (VStr s)) eqn:Hp; cbn [negb andb orb].
    + rewrite orb_false_r.
      destruct (String.eqb s "guests") eqn:Hg; [discriminate|].
      destruct (includes "/" s) eqn:Hs; [discriminate|]. cbn [orb].
      destruct (String.eqb (slugify env s) "") eqn:Hslug; [discriminate|].
      intros _. exists s. apply String.eqb_neq in Hg, Hslug. auto 10.
    + destruct (lt_num _ _) eqn:Hl; [discriminate|].
      destruct (String.eqb s "guests") eqn:Hg; [discriminate|]. cbn [orb].
      destruct (includes ":" s) eqn:Hc; [discriminate|].
      destruct (includes "/" s) eqn:Hs; [discriminate|]. cbn [orb].
      destruct (String.eqb (slugify env s) "") eqn:Hslug; [discriminate|].
      intros _. exists s. apply String.eqb_neq in Hg, Hslug. auto 10.
  - intros (s & -> & Hne & Hlen & Hg & Hc & Hs & Hslug).
    apply String.eqb_neq in Hne, Hg, Hslug.
    cbn [truthy]. rewrite Hne, Hg, Hs, Hslug. cbn [negb orb].
    destruct (isPrivilegeGroup env (VStr s)) eqn:Hp; cbn [negb andb orb]; [reflexivity|].
    destruct Hlen as [|Hlen]; [discriminate|]. rewrite Hlen.
    destruct Hc as [|Hc]; [discriminate|]. now rewrite Hc.
Qed.

(** The writes of [Groups.create] once the validation and the plugins of
    'filter:group.create' have passed. *)
Lemma create_writes (data : createData) (g : groupData) (d : createData) :
  let cfg := prepareGroupConfig env data in
  filter_group_create env (buildGroupData env data cfg) data = Ok (g, d) ->
  (forall g', (create env data).1 = Ok g' -> (create env data).2 = writes_of env cfg g d)
  /\ exists rest, writes_of env cfg g d = (create env data).2 ++ rest.
Proof.
  intros cfg Hf. unfold create, processGroupCreation. fold cfg. rewrite Hf.
  destruct (validateGroupCreation env data) as [[]|e];
    [|split; [discriminate | now eexists]].
  unfold writes_of, persistGroupData, addGroupOwner, addToVisibleGroups, storeGroupSlug,
    db_call, call, bindM, ret, lift.
  destruct (ownerUid d) as [owner|];
    destruct (negb (isHidden cfg) && negb (isSystem cfg));
    destruct (negb (isPrivilegeGroup env (g_name g)));
    repeat match goal with
           | |- context [db_write env ?x] => destruct (db_write env x) as [[]|?]
           end;
    cbn [fst snd app];
    (split; [first [discriminate | intros g' _; reflexivity
                   | destruct (getGroupData env (g_name g)) as [g1|?];
                     [destruct (action_group_create env g1)|]; cbn [fst snd];
                     first [discriminate | intros g' _; reflexivity]]
            | first [now eexists
                    | destruct (getGroupData env (g_name g)) as [g1|?];
                      [destruct (action_group_create env g1)|]; cbn [fst snd];
                      exists []; now rewrite app_nil_r]]).
Qed.

Lemma existsb_is_listing_prefix (a b : list write) :
  existsb is_listing (a ++ b) = false -> existsb is_listing a = false.
Proof.
  rewrite existsb_app. now intros [Ha _]%orb_false_iff.
Qed.

(** X7.  A group is listed among the visible groups exactly when it is
    neither hidden nor a system group, as decided on the request before the
    plugins of 'filter:group.create' run: for a hidden group, a system group
    and a privilege group no write to the 'groups:visible:*' sets is ever
    sent, and every other group whose creation fulfils has been written to
    all three of them. *)
Theorem group_listed_iff_visible (data : createData) :
  let cfg := prepareGroupConfig env data in
  let w := (create env data).2 in
  (isHidden cfg = true \/ isSystem cfg = true \/ isPrivilegeGroup env (name data) = true ->
     existsb is_listing w = false)
  /\ (forall g d g',
        isHidden cfg = false -> isSystem cfg = false ->
        filter_group_create env (buildGroupData env data cfg) data = Ok (g, d) ->
        (create env data).1 = Ok g' ->
        In (SortedSetAddBulk
              [ ("groups:visible:createtime", g_createtime g, g_name g);
                ("groups:visible:memberCount", VNum (num_of_Z (g_memberCount g)), g_name g);
                ("groups:visible:name", VNum (num_of_Z 0),
                 VStr (toLowerCase (ToString (g_name g)) +:+ ":" +:+ ToString (g_name g))) ]) w).
Proof.
  intros cfg w. subst w. split.
  - intros Hhid.
    assert (Hno : negb (isHidden cfg) && negb (isSystem cfg) = false).
    { destruct Hhid as [Hh | [Hs | Hp]].
      - now rewrite Hh.
      - rewrite Hs. apply andb_false_r.
      - replace (isSystem cfg) with true; [apply andb_false_r|].
        subst cfg. cbn [prepareGroupConfig isSystem]. unfold isSystemGroup. rewrite Hp.
        now rewrite orb_true_r. }
    destruct (filter_group_create env (buildGroupData env data cfg) data)
      as [[g d]|e] eqn:Hf.
    + destruct (create_writes data g d Hf) as [_ [rest Hrest]].
      apply (existsb_is_listing_prefix _ rest). rewrite <- Hrest.
      unfold writes_of. fold cfg. rewrite Hno.
      destruct (ownerUid d), (negb (isPrivilegeGroup env (g_name g))); reflexivity.
    + unfold create, processGroupCreation. fold cfg. rewrite Hf.
      now destruct (validateGroupCreation env data).
  - intros g d g' Hh Hs Hf Hok.
    destruct (create_writes data g d Hf) as [Hw _].
    rewrite (Hw g' Hok). unfold writes_of. fold cfg. rewrite Hh, Hs. cbn [negb andb].
    apply in_or_app. right. apply in_or_app. right. apply in_or_app. left. now left.
Qed.

(** X8.  When the plugins of 'filter:group.create' leave the group and the
    request as they are and the creation fulfils, the member count stored in
    the group object is the number of members written to
    'group:<name>:members': 1 with an owner, 0 without. *)
Theorem group_member_count_matches (data : createData) (g' : groupData) :
  let cfg := prepareGroupConfig env data in
  let g := buildGroupData env data cfg in
  let w := (create env data).2 in
  filter_group_create env g data = Ok (g, data) ->
  (create env data).1 = Ok g' ->
  In (SetObject ("group:" +:+ ToString (name data)) g) w
  /\ g_memberCount g = Z.of_nat (length (member_writes (ToString (name data)) w))
  /\ member_writes (ToString (name data)) w
     = match ownerUid data with Some owner => [owner] | None => [] end.
Proof.
  intros cfg g w Hf Hok. subst w.
  destruct (create_writes data g data Hf) as [Hw _].
  rewrite (Hw g' Hok). fold cfg.
  assert (Hm : g_memberCount g = one_if (bool_decide (is_Some (ownerUid data)))) by reflexivity.
  assert (Hmw : member_writes (ToString (name data)) (writes_of env cfg g data)
                = match ownerUid data with Some owner => [owner] | None => [] end).
  { unfold member_writes, writes_of, listing. change (g_name g) with (name data).
    destruct (ownerUid data), (negb (isHidden cfg) && negb (isSystem cfg)),
      (negb (isPrivilegeGroup env (name data)));
      cbn; rewrite ?String.eqb_refl; reflexivity. }
  split; [|split; [|exact Hmw]].
  - unfold writes_of. change (g_name g) with (name data). right. now left.
  - rewrite Hmw, Hm. now destruct (ownerUid data).
Qed.

End GroupsWrites.

(** The group 'staff' of user 1: hidden, it is not listed; visible, it is
    listed with its member count of 1. *)
Lemma group_listed_iff_visible_witness :
  existsb GroupsCreate.is_listing
    (@GroupsCreate.create evalHost GroupsEval.evalEnv
       (GroupsEval.owned (VStr "staff") (VNum (num_of_Z 1)) (VNum (num_of_Z 1)))).2 = false
  /\ In (GroupsCreate.SortedSetAddBulk
           [ ("groups:visible:createtime", VNum (num_of_Z 1700000000000), VStr "staff");
             ("groups:visible:memberCount", VNum (num_of_Z 1), VStr "staff");
             ("groups:visible:name", VNum (num_of_Z 0), VStr "staff:staff") ])
        (@GroupsCreate.create evalHost GroupsEval.evalEnv
           (GroupsEval.owned (VStr "staff") VUndefined (VNum (num_of_Z 1)))).2.
Proof.
  split.
  - apply (@group_listed_iff_visible evalHost GroupsEval.evalEnv
             (GroupsEval.owned (VStr "staff") (VNum (num_of_Z 1)) (VNum (num_of_Z 1)))).
    left. reflexivity.
  - refine (proj2 (@group_listed_iff_visible evalHost GroupsEval.evalEnv
                     (GroupsEval.owned (VStr "staff") VUndefined (VNum (num_of_Z 1))))
                  _ _ _ eq_refl eq_refl eq_refl eq_refl).
Defined.

Lemma group_member_count_matches_witness :
  GroupsCreate.member_writes "staff"
    (@GroupsCreate.create evalHost GroupsEval.evalEnv
       (GroupsEval.owned (VStr "staff") VUndefined (VNum (num_of_Z 1)))).2
  = [VNum (num_of_Z 1)]
  /\ GroupsCreate.member_writes "staff"
       (@GroupsCreate.create evalHost GroupsEval.evalEnv (GroupsEval.named (VStr "staff"))).2
     = [].
Proof.
  split.
  - eapply (@group_member_count_matches evalHost GroupsEval.evalEnv
              (GroupsEval.owned (VStr "staff") VUndefined (VNum (num_of_Z 1))));
      reflexivity.
  - eapply (@group_member_count_matches evalHost GroupsEval.evalEnv
              (GroupsEval.named (VStr "staff"))); reflexivity.
Defined.

(** A database that rejects the write to the owners: [Groups.create] throws
    after the group object is stored with a member count of 1; no member is
    written and the group is not listed. *)
Example create_rejected_owner_write :
  let run := @GroupsCreate.create evalHost GroupsEval.ownerlessEnv
               (GroupsEval.owned (VStr "staff") VUndefined (VNum (num_of_Z 1))) in
  run.1 = Throw "MongoNetworkError"
  /\ length run.2 = 3
  /\ GroupsCreate.member_writes "staff" run.2 = []
  /\ existsb GroupsCreate.is_listing run.2 = false.
Proof. vm_compute. repeat split. Qed.

(** ** Pictures: what is deleted, and when *)

Section Appends.
Context {E : Type} (P : E -> Prop).

Lemma appends_ret {A : Type} (a : A) : appends P (ret a).
Proof. intros log. exists []. split; [now rewrite app_nil_r | constructor]. Qed.

Lemma appends_throw {A : Type} (e : string) : appends P (@throw (list E) A e).
Proof. intros log. exists []. split; [now rewrite app_nil_r | constructor]. Qed.

Lemma appends_lift {A : Type} (r : result A) : appends P (lift r).
Proof. intros log. exists []. split; [now rewrite app_nil_r | constructor]. Qed.

Lemma appends_call {A : Type} (ev : E) (r : result A) : P ev -> appends P (call ev r).
Proof. intros Hev log. exists [ev]. split; [reflexivity | now repeat constructor]. Qed.

Lemma appends_bind {A B : Type} (m : M (list E) A) (k : A -> M (list E) B) :
  appends P m -> (forall a, appends P (k a)) -> appends P (bindM m k).
Proof.
  intros Hm Hk log. unfold bindM.
  destruct (Hm log) as (mid & Hlog & Hmid).
  destruct (m log) as [[a|e] log']; cbn [snd] in *; subst log'.
  - destruct (Hk a (log ++ mid)) as (mid' & Hlog' & Hmid').
    exists (mid ++ mid'). rewrite Hlog', <- app_assoc. split; [reflexivity|].
    apply Forall_app. now split.
  - now exists mid.
Qed.

End Appends.

Section PictureDeletes.
Context `{Host} (env : Picture.Env).
Import Picture.

Lemma appends_finally_delete {A : Type} (P : effect -> Prop) (p : string) (body : M A) :
  P (FileDelete p) -> appends P body -> appends P (finally_delete env p body).
Proof.
  intros Hp Hb log. unfold finally_delete.
  destruct (Hb log) as (mid & Hlog & Hmid).
  destruct (body log) as [r log']; cbn [snd] in *; subst log'.
  destruct (negb (String.eqb p "")); [|now exists mid].
  unfold call.
  exists (mid ++ [FileDelete p]). split.
  - destruct (file_delete env p); cbn [snd]; now rewrite <- app_assoc.
  - apply Forall_app. split; [exact Hmid | now repeat constructor].
Qed.

Lemma finally_delete_last {A : Type} (p : string) (body : M A) (log : list effect) :
  p <> "" ->
  appends (fun _ => True) body ->
  exists mid, (finally_delete env p body log).2 = log ++ mid ++ [FileDelete p].
Proof.
  intros Hp Hb. unfold finally_delete.
  destruct (Hb log) as (mid & Hlog & _).
  destruct (body log) as [r log']; cbn [snd] in *; subst log'.
  apply String.eqb_neq in Hp. rewrite Hp. cbn [negb]. unfold call.
  exists mid. destruct (file_delete env p); cbn [snd]; now rewrite <- app_assoc.
Qed.

Lemma appends_convertToPNG (P : effect -> Prop) (path0 : string) :
  P (Normalise path0) -> P (FileDelete path0) -> appends P (convertToPNG env path0).
Proof.
  intros Hn Hd. unfold convertToPNG.
  destruct (negb _); [apply appends_ret|].
  apply appends_bind; [now apply appends_call|]. intros newPath.
  apply appends_bind; [now apply appends_call|]. intros _. apply appends_ret.
Qed.

Lemma convertToPNG_ok (path0 newPath : string) (log log' : list effect) :
  convertToPNG env path0 log = (Ok newPath, log') ->
  newPath = path0 \/ normalise env path0 = Ok newPath.
Proof.
  unfold convertToPNG.
  destruct (negb _); [intros [= <- _]; now left|].
  unfold bindM, call, ret.
  destruct (normalise env path0) as [p|e]; [|discriminate].
  destruct (file_delete env path0); [|discriminate].
  intros [= <- _]. now right.
Qed.

Lemma appends_updateCoverPosition (P : effect -> Prop) (uid0 position0 : value) :
  (forall ev, match ev with FileDelete _ => False | _ => True end -> P ev) ->
  appends P (updateCoverPosition env uid0 position0).
Proof.
  intros HP. unfold updateCoverPosition.
  destruct (negb _).
  - apply appends_bind; [apply appends_call; now apply HP|].
    intros _. apply appends_throw.
  - apply appends_call. now apply HP.
Qed.

Lemma appends_deletePicture (P : effect -> Prop) (uid0 : value) (field : string) :
  (forall s,
     getUserField env uid0 field = Ok (VStr s) ->
     String.prefix (relative_path env +:+ "/assets/uploads/profile/uid-" +:+ ToString uid0) s
     = true ->
     P (FileDelete (path_join env (upload_path env) ("profile/uid-" +:+ ToString uid0)
                      (after_last "/" s s)))) ->
  appends P (deletePicture env uid0 field).
Proof.
  intros HP log. unfold deletePicture, getPicturePath, bindM, lift.
  destruct (getUserField env uid0 field) as [v|e] eqn:Hv;
    [|exists []; split; [now rewrite app_nil_r | constructor]].
  destruct (negb (truthy v)); [exists []; split; [now rewrite app_nil_r | constructor]|].
  destruct v as [| |b|n|s|xs];
    try (exists []; split; [now rewrite app_nil_r | constructor]).
  destruct (String.prefix _ s) eqn:Hpre; cbn [negb];
    [|exists []; split; [now rewrite app_nil_r | constructor]].
  unfold ret at 1.
  destruct (negb (String.eqb _ ""));
    [|exists []; split; [now rewrite app_nil_r | constructor]].
  unfold call.
  eexists [_]. split; [reflexivity|]. repeat constructor. now apply HP.
Qed.

Lemma appends_deleteCurrentPicture (P : effect -> Prop) (uid0 : value) (field : string) :
  (truthy (keepAllUserImages env) = false ->
   forall s,
     getUserField env uid0 field = Ok (VStr s) ->
     String.prefix (relative_path env +:+ "/assets/uploads/profile/uid-" +:+ ToString uid0) s
     = true ->
     P (FileDelete (path_join env (upload_path env) ("profile/uid-" +:+ ToString uid0)
                      (after_last "/" s s)))) ->
  appends P (deleteCurrentPicture env uid0 field).
Proof.
  intros HP. unfold deleteCurrentPicture.
  destruct (truthy (keepAllUserImages env)); [apply appends_ret|].
  apply appends_deletePicture. now apply HP.
Qed.

Lemma validateUpload_imageData (data : imageUpload) (maxSize : value)
  (allowedTypes : list string) :
  validateUpload env data maxSize allowedTypes = Ok tt ->
  truthy (imageData data) = true.
Proof.
  unfold validateUpload. now destruct (truthy (imageData data)).
Qed.

(** X9.  The base64 uploads clean up after themselves.  Once
    [updateCoverPicture] or [uploadCroppedPicture] has written the image to a
    temporary file, the last thing it does, whether the upload succeeds or
    any later step fails, is to delete a temporary file: the one it wrote,
    or for a profile picture the PNG it was converted to. *)
Theorem base64_uploads_delete_temp_file (data : imageUpload) (tmp : string)
  (log : list effect) :
  writeImageDataToTempFile env (imageData data) = Ok tmp ->
  tmp <> "" ->
  (validateUpload env data (maximumCoverImageSize env)
     ["image/png"; "image/jpeg"; "image/bmp"] = Ok tt ->
   exists mid,
     (updateCoverPicture env data log).2
     = log ++ WriteTempFile (imageData data) :: mid ++ [FileDelete tmp])
  /\ (truthy (allowProfileImageUploads env) = true ->
      validateUpload env data (maximumProfileImageSize env) getAllowedImageTypes = Ok tt ->
      truthy (typeToExtension env (mimeFromBase64 env (imageData data))) = true ->
      (forall p, normalise env tmp = Ok p -> p <> "") ->
      exists mid p,
        (uploadCroppedPicture env data log).2
        = log ++ WriteTempFile (imageData data) :: mid ++ [FileDelete p]
        /\ (p = tmp \/ normalise env tmp = Ok p)).
Proof.
  intros Htmp Hne. split.
  - intros Hv. unfold updateCoverPicture.
    rewrite (validateUpload_imageData _ _ _ Hv). cbn [negb andb].
    unfold bindM at 1. unfold lift. rewrite Hv.
    unfold bindM at 1. unfold call at 1. rewrite Htmp.
    match goal with
    | |- context [finally_delete env tmp ?b _] =>
        destruct (finally_delete_last tmp b (log ++ [WriteTempFile (imageData data)]) Hne)
          as (mid & Hmid)
    end.
    { apply appends_bind; [now apply appends_call|]. intros url.
      apply appends_bind.
      { now apply appends_deleteCurrentPicture. }
      intros _. apply appends_bind; [now apply appends_call|]. intros _.
      apply appends_bind.
      { destruct (truthy (position data)); [|apply appends_ret].
        now apply appends_updateCoverPosition. }
      intros _. apply appends_ret. }
    exists mid. rewrite Hmid. now rewrite <- app_assoc.
  - intros Hallow Hv Hext Hnorm. unfold uploadCroppedPicture.
    rewrite Hallow. cbn [negb].
    unfold bindM at 1. unfold lift. rewrite Hv. rewrite Hext. cbn [negb].
    unfold bindM at 1. unfold call at 1. rewrite Htmp.
    destruct (appends_convertToPNG (fun _ => True) tmp I I
                (log ++ [WriteTempFile (imageData data)])) as (mid0 & Hlog0 & _).
    destruct (convertToPNG env tmp (log ++ [WriteTempFile (imageData data)]))
      as [[newPath|e] log0] eqn:Hc; cbn [snd] in Hlog0; subst log0.
    + pose proof (convertToPNG_ok _ _ _ _ Hc) as Hnew.
      assert (Hnp : newPath <> "").
      { destruct Hnew as [-> | Hn]; [exact Hne | exact (Hnorm _ Hn)]. }
      match goal with
      | |- context [finally_delete env newPath ?b _] =>
          destruct (finally_delete_last newPath b
                      ((log ++ [WriteTempFile (imageData data)]) ++ mid0) Hnp)
            as (mid & Hmid)
      end.
      { apply appends_bind; [now apply appends_call|]. intros _.
        apply appends_bind; [now apply appends_call|]. intros url.
        apply appends_bind.
        { now apply appends_deleteCurrentPicture. }
        intros _. apply appends_bind; [now apply appends_call|]. intros _.
        apply appends_ret. }
      exists (mid0 ++ mid), newPath. split; [|exact Hnew].
      rewrite Hmid. now rewrite <- !app_assoc.
    + destruct (finally_delete_last tmp (@throw (list effect) string e)
                  ((log ++ [WriteTempFile (imageData data)]) ++ mid0) Hne)
        as (mid & Hmid); [apply appends_throw|].
      exists (mid0 ++ mid), tmp. split; [|now left].
      rewrite Hmid. now rewrite <- !app_assoc.
Qed.

End PictureDeletes.

(** With a full disk, the cover upload of user 7 fails after the temporary
    file was written, and the profile picture upload after its conversion:
    each ends by deleting its temporary file. *)
Lemma base64_uploads_delete_temp_file_witness :
  let env := PictureEval.storedEnv (VNum (num_of_Z 0)) (Throw "ENOSPC") in
  (exists mid,
     (@Picture.updateCoverPicture evalHost env (PictureEval.base64 VUndefined) []).2
     = [] ++ Picture.WriteTempFile (VStr "data:image/png;base64,iVBORw0KGgo=")
          :: mid ++ [Picture.FileDelete "/tmp/upload"])
  /\ (exists mid p,
        (@Picture.uploadCroppedPicture evalHost env (PictureEval.base64 VUndefined) []).2
        = [] ++ Picture.WriteTempFile (VStr "data:image/png;base64,iVBORw0KGgo=")
             :: mid ++ [Picture.FileDelete p]
        /\ (p = "/tmp/upload" \/ Picture.normalise env "/tmp/upload" = Ok p)).
Proof.
  intros env.
  destruct (@base64_uploads_delete_temp_file evalHost env (PictureEval.base64 VUndefined)
              "/tmp/upload" [] eq_refl) as (Hcover & Havatar); [discriminate|].
  split.
  - apply Hcover. reflexivity.
  - apply Havatar; try reflexivity.
    intros p [= <-]. discriminate.
Defined.

Section PictureConfinement.
Context `{Host} (env : Picture.Env).
Import Picture.

(** X11.  [updateCoverPosition] stores a position exactly when its string
    form is two percentages: it then makes the single call
    [User.setUserField(uid, 'cover:position', position)] and settles as that
    call does; otherwise it logs a warning, throws '[[error:invalid-data]]'
    and stores nothing.  The position is tested as a string and stored as
    given. *)
Theorem updateCoverPosition_stores_iff (uid0 position0 : value) (log : list effect) :
  (two_percentages (ToString position0) ->
     updateCoverPosition env uid0 position0 log
     = (setUserField env uid0 "cover:position" position0,
        log ++ [SetUserField uid0 "cover:position" position0]))
  /\ (~ two_percentages (ToString position0) ->
      updateCoverPosition env uid0 position0 log
      = (Throw "[[error:invalid-data]]",
         log ++ [Warn ("[user/updateCoverPosition] Invalid position received: "
                       +:+ ToString position0)])).
Proof.
  unfold updateCoverPosition. split; intros Hp.
  - apply cover_position_re_spec in Hp. rewrite Hp. reflexivity.
  - destruct (cover_position_re (ToString position0)) eqn:Hre.
    + apply cover_position_re_spec in Hre. contradiction.
    + reflexivity.
Qed.

Lemma appends_bind_call {A B : Type} (P : effect -> Prop) (ev : effect) (r : result A)
  (k : A -> M B) :
  P ev -> (forall a, r = Ok a -> appends P (k a)) -> appends P (bindM (call ev r) k).
Proof.
  intros Hev Hk log. unfold bindM, call.
  destruct r as [a|e].
  - destruct (Hk a eq_refl (log ++ [ev])) as (mid & Hlog & Hmid).
    exists (ev :: mid). rewrite Hlog, <- app_assoc. split; [reflexivity|].
    now constructor.
  - exists [ev]. split; [reflexivity | now repeat constructor].
Qed.

(** X12.  [uploadCroppedPictureFile] deletes no stored picture when
    meta.config['profile:keepAllUserImages'] is set, nor when the upload of
    the new picture fails: the only file it may then delete is the uploaded
    original, after its conversion to PNG. *)
Theorem uploadCroppedPictureFile_keeps_pictures (data : fileUpload) (log : list effect) :
  truthy (keepAllUserImages env) = true
  \/ (forall filename folder p, exists e, uploadImage env filename folder p = Throw e) ->
  exists mid,
    (uploadCroppedPictureFile env data log).2 = log ++ mid
    /\ Forall (fun ev => forall p, ev = FileDelete p -> p = path (file data)) mid.
Proof.
  intros Hkeep.
  set (P := fun ev : effect => forall p, ev = FileDelete p -> p = path (file data)).
  assert (Happ : appends P (uploadCroppedPictureFile env data)); [|apply Happ].
  unfold uploadCroppedPictureFile.
  destruct (negb (truthy (allowProfileImageUploads env))); [apply appends_throw|].
  destruct (num_lt _ _); [apply appends_throw|].
  destruct (negb (truthy (type (file data))) || _); [apply appends_throw|].
  destruct (negb (truthy (typeToExtension env (type (file data))))); [apply appends_throw|].
  apply appends_bind.
  { apply appends_convertToPNG; subst P; cbn beta; [discriminate | now intros p [= <-]]. }
  intros newPath.
  apply appends_bind; [apply appends_call; subst P; cbn beta; discriminate|]. intros _.
  apply appends_bind_call; [subst P; cbn beta; discriminate|]. intros url Hurl.
  destruct Hkeep as [Hkeep | Hfail].
  - apply appends_bind.
    { unfold deleteCurrentPicture. rewrite Hkeep. apply appends_ret. }
    intros _.
    apply appends_bind; [apply appends_call; subst P; cbn beta; discriminate|]. intros _.
    apply appends_ret.
  - destruct (Hfail (generateProfileImageFilename env (uid data)
                       (typeToExtension env (type (file data))))
                    ("profile/uid-" +:+ ToString (uid data)) newPath) as (e & He).
    congruence.
Qed.

End PictureConfinement.

(** The picture of user 7 is stored under the folder of user 7:
    [deletePicture] deletes 'uploadedpicture.png' there. *)
Example deletePicture_own_folder :
  (@Picture.deletePicture evalHost (PictureEval.storedEnv (VNum (num_of_Z 0)) (Ok ""))
     (VNum (num_of_Z 7)) "uploadedpicture" []).2
  = [Picture.FileDelete "/public/uploads/profile/uid-7/uploadedpicture.png"].
Proof. reflexivity. Qed.

Lemma updateCoverPosition_stores_iff_witness :
  @Picture.updateCoverPosition evalHost (PictureEval.evalEnv (VNum (num_of_Z 1)))
    (VNum (num_of_Z 7)) (VArr [VStr "50.5% 25%"]) []
  = (Ok tt, [Picture.SetUserField (VNum (num_of_Z 7)) "cover:position"
               (VArr [VStr "50.5% 25%"])])
  /\ @Picture.updateCoverPosition evalHost (PictureEval.evalEnv (VNum (num_of_Z 1)))
       (VNum (num_of_Z 7)) (VNum (num_of_Z 50)) []
     = (Throw "[[error:invalid-data]]",
        [Picture.Warn "[user/updateCoverPosition] Invalid position received: 50"]).
Proof.
  split.
  - apply (@updateCoverPosition_stores_iff evalHost (PictureEval.evalEnv (VNum (num_of_Z 1)))
             (VNum (num_of_Z 7)) (VArr [VStr "50.5% 25%"]) []).
    apply cover_position_re_spec. reflexivity.
  - apply (@updateCoverPosition_stores_iff evalHost (PictureEval.evalEnv (VNum (num_of_Z 1)))
             (VNum (num_of_Z 7)) (VNum (num_of_Z 50)) []).
    intros Hp. apply cover_position_re_spec in Hp. discriminate.
Defined.

(** With all images kept, and with a failing upload, the stored picture of
    user 7 survives an upload: only the original '/tmp/photo' is deleted. *)
Lemma uploadCroppedPictureFile_keeps_pictures_witness :
  (exists mid,
     (@Picture.uploadCroppedPictureFile evalHost
        (PictureEval.storedEnv (VNum (num_of_Z 1)) (Ok "/assets/uploads/profile/uid-7/new.png"))
        (PictureEval.photo 1000 (VStr "image/png")) []).2 = [] ++ mid
     /\ Forall (fun ev => forall p, ev = Picture.FileDelete p -> p = "/tmp/photo") mid)
  /\ (exists mid,
        (@Picture.uploadCroppedPictureFile evalHost
           (PictureEval.storedEnv (VNum (num_of_Z 0)) (Throw "ENOSPC"))
           (PictureEval.photo 1000 (VStr "image/png")) []).2 = [] ++ mid
        /\ Forall (fun ev => forall p, ev = Picture.FileDelete p -> p = "/tmp/photo") mid).
Proof.
  split.
  - apply (@uploadCroppedPictureFile_keeps_pictures evalHost
             (PictureEval.storedEnv (VNum (num_of_Z 1))
                (Ok "/assets/uploads/profile/uid-7/new.png"))
             (PictureEval.photo 1000 (VStr "image/png")) []).
    left. reflexivity.
  - apply (@uploadCroppedPictureFile_keeps_pictures evalHost
             (PictureEval.storedEnv (VNum (num_of_Z 0)) (Throw "ENOSPC"))
             (PictureEval.photo 1000 (VStr "image/png")) []).
    right. intros filename folder p. now exists "ENOSPC".
Defined.

(** ** User search: index entries, the last filter, the hard cap *)

Section StringFacts.

Lemma append_nil_l (s : string) : "" +:+ s = s.
Proof. reflexivity. Qed.

Lemma append_cons (c : ascii) (a b : string) : String c a +:+ b = String c (a +:+ b).
Proof. reflexivity. Qed.

Lemma prefix_app (sub b : string) : String.prefix sub (sub +:+ b) = true.
Proof.
  induction sub as [|c sub IH]; [now destruct b|].
  rewrite append_cons. cbn [String.prefix].
  destruct (ascii_dec c c); [exact IH | congruence].
Qed.

Lemma includes_app (sub a b : string) : includes sub (a +:+ sub +:+ b) = true.
Proof.
  induction a as [|c a IH].
  - rewrite append_nil_l. pose proof (prefix_app sub b) as Hp.
    destruct (sub +:+ b); cbn [includes]; now rewrite Hp.
  - rewrite append_cons. cbn [includes]. rewrite IH. apply orb_true_r.
Qed.

Lemma after_last_app (sep : ascii) (a b acc : string) :
  after_last sep acc (a +:+ String sep b) = after_last sep b b.
Proof.
  revert acc. induction a as [|c a IH]; intros acc.
  - rewrite append_nil_l. cbn [after_last]. now rewrite Ascii.eqb_refl.
  - rewrite append_cons. cbn [after_last]. destruct (Ascii.eqb c sep); apply IH.
Qed.

Lemma after_last_without (sep : ascii) (s acc : string) :
  ~ In sep (list_ascii_of_string s) -> after_last sep acc s = acc.
Proof.
  revert acc. induction s as [|c s IH]; intros acc Hs; simpl; [reflexivity|].
  simpl in Hs. destruct (Ascii.eqb c sep) eqn:Hc.
  - apply Ascii.eqb_eq in Hc. tauto.
  - apply IH. tauto.
Qed.

Lemma after_first_char_of_app (c0 : ascii) (sub a b : string) :
  ~ In c0 (list_ascii_of_string a) ->
  after_first_char_of (String c0 sub) (a +:+ String c0 sub +:+ b) = sub +:+ b.
Proof.
  induction a as [|c a IH]; intros Ha.
  - rewrite append_nil_l, append_cons.
    cbn [after_first_char_of String.prefix].
    destruct (ascii_dec c0 c0); [|congruence]. now rewrite prefix_app.
  - simpl in Ha. rewrite append_cons.
    cbn [after_first_char_of String.prefix].
    destruct (ascii_dec c0 c) as [->|_]; [tauto|].
    apply IH. tauto.
Qed.

End StringFacts.

Section SearchMore.
Context {W : Type} `{Host} (env : Search.Env W).
Import Search.

(** X13.  [findUids] reads the uid back from an entry of a sorted index.
    From an entry 'name:uid' whose uid contains no ':' it returns the uid,
    provided the entry does not contain ':https:'; from an entry
    'name:https:rest' whose name contains no ':' it returns the remote uid
    'https:rest'. *)
Theorem uid_of_entry_reads_uid (name uid0 rest : string) :
  (~ In ":"%char (list_ascii_of_string uid0) ->
   includes ":https:" (name +:+ ":" +:+ uid0) = false ->
   uid_of_entry (name +:+ ":" +:+ uid0) = VStr uid0)
  /\ (~ In ":"%char (list_ascii_of_string name) ->
      uid_of_entry (name +:+ ":https:" +:+ rest) = VStr ("https:" +:+ rest)).
Proof.
  unfold uid_of_entry. split.
  - intros Huid Hinc. rewrite Hinc.
    change (name +:+ ":" +:+ uid0) with (name +:+ String ":" uid0).
    rewrite after_last_app. now rewrite after_last_without.
  - intros Hname. rewrite includes_app.
    now rewrite (after_first_char_of_app ":" "https:" name rest Hname).
Qed.

(** X14.  The last filter of [User.search] throws a TypeError as soon as a
    user is missing from the data; when every user is present it keeps, in
    order, those whose uid is a positive number or, not being a number, a
    URI. *)
Theorem filter_users_keeps (l : list (option user)) (us : list user) :
  (In None l -> filter_users env l = Throw "Cannot read properties of null")
  /\ (l = List.map Some us ->
      filter_users env l = Ok (List.map Some (List.filter (kept env) us))).
Proof.
  split.
  - induction l as [|u l IH]; intros Hin; [destruct Hin|].
    simpl. destruct u as [u|]; [|reflexivity].
    destruct Hin as [Hin | Hin]; [discriminate|].
    unfold keep_user at 1.
    destruct (isNumber (prop u "uid")); simpl; now rewrite (IH Hin).
  - intros ->. induction us as [|u us IH]; [reflexivity|].
    cbn [List.map filter_users List.filter]. rewrite IH.
    destruct (kept env u) eqn:Hk; unfold kept in Hk; unfold keep_user;
      destruct (isNumber (prop u "uid")); rewrite Hk; reflexivity.
Qed.

Lemma set_length_exact (uids l : list value) (n : Z) :
  (0 <= n)%Z ->
  set_length uids (VNum (num_of_Z n)) = Ok l ->
  length l = Z.to_nat n.
Proof.
  intros Hn. unfold set_length, num_of_Z. cbn [ToNumber inject_Z Qnum Qden].
  rewrite Z.div_1_r.
  destruct (_ && _ && _); [|discriminate].
  intros [= <-]. rewrite length_app, length_take, length_replicate. lia.
Qed.

(** X15.  A hard cap sets the number of matches.  When [data.hardCap] is a
    positive integer and the plugins of 'filter:users.search' leave the uids
    as they are, the [matchCount] of a search that fulfils is the hard cap
    itself, whether more or fewer users matched: assigning [uids.length]
    truncates the array or extends it. *)
Theorem search_matchCount_is_hardCap (data : searchData W) (n : Z) (w w' : W)
  (r : searchResult) :
  (0 < n)%Z ->
  hardCap data = VNum (num_of_Z n) ->
  (forall uids u w0, exists w1, filter_users_search env uids u w0 = (Ok uids, w1)) ->
  A.search env data w = (Ok r, w') ->
  matchCount r = Z.to_nat n.
Proof.
  intros Hn Hcap Hplug Hs. unfold A.search in Hs.
  apply bindM_Ok in Hs as (uids1 & w1 & _ & Hs).
  apply bindM_Ok in Hs as (uids2 & w2 & _ & Hs).
  apply bindM_Ok in Hs as (uids3 & w3 & Hlen & Hs).
  apply bindM_Ok in Hs as (uids4 & w4 & Hfilter & Hs).
  assert (Hgt : gt_num (hardCap data) (num_of_Z 0) = true).
  { rewrite Hcap. unfold gt_num, num_of_Z. cbn [ToNumber num_lt].
    unfold Qle_bool. cbn [inject_Z Qnum Qden]. apply negb_true_iff, Z.leb_gt. lia. }
  rewrite Hgt in Hlen. unfold lift in Hlen.
  assert (Hl3 : length uids3 = Z.to_nat n).
  { rewrite Hcap in Hlen.
    destruct (set_length uids2 (VNum (num_of_Z n))) as [l|e] eqn:Hset; [|discriminate].
    injection Hlen as <- _. apply (set_length_exact uids2); [lia | exact Hset]. }
  destruct (Hplug uids3 (or_else (uid data) (VNum (num_of_Z 0))) w3) as (w3' & Hp).
  rewrite Hp in Hfilter. injection Hfilter as <- _.
  destruct (truthy (match paginate data with Some p => p | None => VBool true end)).
  - apply bindM_Ok in Hs as (userData & w5 & _ & Hs).
    apply bindM_Ok in Hs as (blocks & w6 & _ & Hs).
    apply bindM_Ok in Hs as (blocks_length & w7 & _ & Hs).
    apply bindM_Ok in Hs as (users0 & w8 & _ & Hs).
    injection Hs as <- _. exact Hl3.
  - apply bindM_Ok in Hs as (userData & w5 & _ & Hs).
    apply bindM_Ok in Hs as (blocks & w6 & _ & Hs).
    apply bindM_Ok in Hs as (blocks_length & w7 & _ & Hs).
    apply bindM_Ok in Hs as (users0 & w8 & _ & Hs).
    injection Hs as <- _. exact Hl3.
Qed.

End SearchMore.

Lemma uid_of_entry_reads_uid_witness :
  Search.uid_of_entry "alice:1" = VStr "1"
  /\ Search.uid_of_entry "bob@example.org:https://example.org/uid/7"
     = VStr "https://example.org/uid/7".
Proof.
  split.
  - apply (uid_of_entry_reads_uid "alice" "1" "").
    + simpl. intros [Hc | []]. discriminate.
    + reflexivity.
  - apply (uid_of_entry_reads_uid "bob@example.org" "" "//example.org/uid/7").
    simpl. intuition discriminate.
Defined.

Lemma filter_users_keeps_witness :
  @Search.filter_users SearchEval.world evalHost SearchEval.evalEnv
    [Some (SearchEval.user_of (VNum (num_of_Z 1))); None]
  = Throw "Cannot read properties of null"
  /\ @Search.filter_users SearchEval.world evalHost SearchEval.evalEnv
       [Some (SearchEval.user_of (VNum (num_of_Z 1)));
        Some (SearchEval.user_of (VNum (num_of_Z 0)))]
     = Ok [Some (SearchEval.user_of (VNum (num_of_Z 1)))].
Proof.
  split.
  - apply (@filter_users_keeps SearchEval.world evalHost SearchEval.evalEnv
             [Some (SearchEval.user_of (VNum (num_of_Z 1))); None] []).
    right. now left.
  - apply (@filter_users_keeps SearchEval.world evalHost SearchEval.evalEnv _
             [SearchEval.user_of (VNum (num_of_Z 1)); SearchEval.user_of (VNum (num_of_Z 0))]).
    reflexivity.
Defined.

(** Two users match 'al'; with a hard cap of 5 the search reports 5 matches
    and returns the two users. *)
Lemma search_matchCount_is_hardCap_witness :
  match (@Search.A.search SearchEval.world evalHost SearchEval.evalEnv
           SearchEval.capped_al []).1 with
  | Ok r => Search.matchCount r = 5%nat /\ length (Search.users r) = 2%nat
  | Throw _ => False
  end.
Proof.
  destruct (@Search.A.search SearchEval.world evalHost SearchEval.evalEnv
              SearchEval.capped_al []) as [[r|e] w'] eqn:Hs; cbn [fst].
  - split.
    + apply (@search_matchCount_is_hardCap SearchEval.world evalHost SearchEval.evalEnv
               SearchEval.capped_al 5 [] w' r); [lia | reflexivity | | exact Hs].
      intros uids u w0. eexists. reflexivity.
    + vm_compute in Hs. injection Hs as <- _. reflexivity.
  - vm_compute in Hs. discriminate.
Defined.

(** ** Sessions and failed logins *)

Section AuthSessions.
Context `{Host}.
Import Auth.

Lemma sessionStore_destroy_others (ids : list string) (d : db) (sid : string) :
  ~ In sid ids ->
  sessionStore (foldl (fun d sid => sessionStoreDestroy sid d) d ids) !! sid
  = sessionStore d !! sid.
Proof.
  revert d. induction ids as [|id ids IH]; intros d Hnin; [reflexivity|].
  cbn [foldl]. rewrite IH by (intros Hin; apply Hnin; now right).
  cbn [sessionStoreDestroy sessionStore].
  apply lookup_delete_ne. intros ->. apply Hnin. now left.
Qed.

Lemma other_sessions_spec (except : value) (sids : list string) (id : string) :
  In id (other_sessions except sids) -> In id sids /\ VStr id <> except.
Proof.
  unfold other_sessions. rewrite filter_In. intros [Hin Hne]. split; [exact Hin|].
  intros <-. cbn [is_str] in Hne. now rewrite String.eqb_refl in Hne.
Qed.

Lemma map_sid_of_VStr (ids : list string) : List.map sid_of (List.map VStr ids) = ids.
Proof. induction ids as [|id ids IH]; [reflexivity|]. cbn. now rewrite IH. Qed.

Lemma revoke_each_spares (except : value) (us : list value) (d0 : db)
  (ps : list (value * list string)) (st : db * list (list string)) :
  Forall (fun p => In p.1 us /\ p.2 = getSortedSetRange d0 (sessions_key p.1)) ps ->
  let st' :=
    foldl (fun st p =>
             let ids := other_sessions except p.2 in
             if negb (length ids =? 0)%nat
             then revokeSession (VArr (List.map VStr ids)) p.1 st
             else st) st ps in
  (exists calls,
     st'.2 = st.2 ++ calls
     /\ Forall (fun ids =>
          ids <> []
          /\ forall id, In id ids ->
               VStr id <> except
               /\ exists uid, In uid us
                              /\ In id (getSortedSetRange d0 (sessions_key uid))) calls)
  /\ (forall sid, except = VStr sid -> sessionStore st'.1 !! sid = sessionStore st.1 !! sid).
Proof.
  intros Hzip. cbn zeta. revert st. induction ps as [|p ps IH]; intros st.
  - split; [|reflexivity]. exists []. split; [now rewrite app_nil_r | constructor].
  - inversion Hzip as [|? ? [Hin Hp] Hrest]; subst.
    cbn [foldl].
    set (st1 := let ids := other_sessions except p.2 in
                if negb (length ids =? 0)%nat
                then revokeSession (VArr (List.map VStr ids)) p.1 st
                else st).
    destruct (IH Hrest st1) as ((calls & Hcalls & Hall) & Hstore).
    assert (Hstep : (exists c, st1.2 = st.2 ++ c
                       /\ Forall (fun ids =>
                            ids <> []
                            /\ forall id, In id ids ->
                                 VStr id <> except
                                 /\ exists uid, In uid us
                                      /\ In id (getSortedSetRange d0 (sessions_key uid))) c)
                    /\ (forall sid, except = VStr sid ->
                          sessionStore st1.1 !! sid = sessionStore st.1 !! sid)).
    { subst st1. cbn zeta.
      destruct (other_sessions except p.2) as [|id ids] eqn:Hids; cbn [length Nat.eqb negb].
      - split; [|reflexivity]. exists []. split; [now rewrite app_nil_r | constructor].
      - unfold revokeSession. cbn [fst snd]. rewrite map_sid_of_VStr. split.
        + exists [id :: ids]. split; [reflexivity|].
          constructor; [|constructor]. split; [discriminate|].
          intros id' Hid'. rewrite <- Hids in Hid'.
          apply other_sessions_spec in Hid' as [Hid' Hne]. split; [exact Hne|].
          exists p.1. split; [exact Hin|]. now rewrite <- Hp.
        + intros sid ->. rewrite sessionStore_destroy_others; [reflexivity|].
          rewrite <- Hids. intros Hsid. now apply other_sessions_spec in Hsid as [_ Hne]. }
    destruct Hstep as ((c & Hc & Hcall) & Hst). split.
    + exists (c ++ calls). rewrite Hcalls, Hc, <- app_assoc. split; [reflexivity|].
      apply Forall_app. now split.
    + intros sid Hsid. rewrite (Hstore sid Hsid). now apply Hst.
Qed.

(** X16.  [revokeAllSessions] spares the session [except].  Every list of
    session ids it hands to [revokeSession] is non-empty, is taken from the
    sessions of a user it was called for, and does not contain [except];
    the session stored under [except] is still in the session store
    afterwards. *)
Theorem revokeAllSessions_spares_except (uids except : value)
  (st : db * list (list string)) :
  let st' := revokeAllSessions uids except st in
  (exists calls,
     st'.2 = st.2 ++ calls
     /\ Forall (fun ids =>
          ids <> []
          /\ forall id, In id ids ->
               VStr id <> except
               /\ exists uid, In uid (match uids with VArr l => l | v => [v] end)
                              /\ In id (getSortedSetRange st.1 (sessions_key uid))) calls)
  /\ (forall sid, except = VStr sid -> sessionStore st'.1 !! sid = sessionStore st.1 !! sid).
Proof.
  intros st'. subst st'. unfold revokeAllSessions.
  apply revoke_each_spares.
  generalize (match uids with VArr l => l | v => [v] end) as us. intros us.
  assert (Hgen : forall pre,
            Forall (fun p => In p.1 (pre ++ us)
                             /\ p.2 = getSortedSetRange st.1 (sessions_key p.1))
                   (zip us (List.map (fun uid => getSortedSetRange st.1 (sessions_key uid)) us))).
  { induction us as [|u us IH]; intros pre; [constructor|].
    cbn. constructor.
    - split; [|reflexivity]. apply in_or_app. right. now left.
    - specialize (IH (pre ++ [u])). rewrite <- app_assoc in IH. exact IH. }
  exact (Hgen []).
Qed.

Lemma Permutation_filter {A : Type} (f : A -> bool) (l l' : list A) :
  Permutation l l' -> Permutation (List.filter f l) (List.filter f l').
Proof.
  induction 1 as [|x l l' _ IH|x y l|l l' l'' _ IH1 _ IH2]; cbn [List.filter].
  - constructor.
  - destruct (f x); [now constructor | exact IH].
  - destruct (f x), (f y); try reflexivity; constructor.
  - now transitivity (List.filter f l').
Qed.

(** Removing the members [ex] from a sorted set keeps the members that
    [keep] holds of, when [ex] holds exactly the others. *)
Lemma filter_removed (old : list (string * Z)) (ex : list string) (keep : string -> bool) :
  (forall e, In e old -> existsb (String.eqb e.1) ex = negb (keep e.1)) ->
  (List.filter (fun e => negb (existsb (String.eqb e.1) ex)) old).*1
  = List.filter keep old.*1.
Proof.
  induction old as [|e old IH]; intros Hin; [reflexivity|].
  cbn [List.filter fmap list_fmap].
  rewrite (Hin e (or_introl eq_refl)), negb_involutive.
  destruct (keep e.1); cbn [fmap list_fmap];
    change (list_fmap _ _ fst) with (fmap (M:=list) (@fst string Z));
    rewrite IH by (intros e' He'; apply Hin; now right); reflexivity.
Qed.

Lemma own_session_spec (d : db) (uid : value) (sid : string) :
  own_session d uid sid = true <->
  exists user, sessionStore d !! sid = Some (PassportUser user)
               /\ num_eq (parseInt10 user) (parseInt10 uid) = true.
Proof.
  unfold own_session, expired.
  destruct (sessionStore d !! sid) as [[| | |user]|]; cbn;
    try (split; [discriminate | intros (u & Hu & _); discriminate]).
  destruct (num_eq (parseInt10 user) (parseInt10 uid)) eqn:Heq; cbn.
  - split; [intros _; now exists user | reflexivity].
  - split; [discriminate | intros (u & [= <-] & Hu); congruence].
Qed.

(** Where no callback throws, the callbacks sort the ids by the test. *)
Lemma sort_sessions_Ok (d : db) (uid : value) (sids ex act : list string) :
  sort_sessions d uid sids = Ok (ex, act) ->
  ex = List.filter (fun sid => negb (own_session d uid sid)) sids
  /\ act = List.filter (own_session d uid) sids
  /\ Forall (fun sid => sessionStore d !! sid <> Some NullPassport) sids.
Proof.
  revert ex act. induction sids as [|sid sids IH]; intros ex act; cbn [sort_sessions].
  - intros [= <- <-]. repeat split; constructor.
  - unfold own_session at 1 2.
    destruct (expired d uid sid) as [e|msg] eqn:He; cbn [Js.bind]; [|discriminate].
    destruct (sort_sessions d uid sids) as [[ex' act']|msg]; cbn [Js.bind]; [|discriminate].
    destruct (IH ex' act' eq_refl) as (Hex & Hact & Hall).
    assert (Hnn : sessionStore d !! sid <> Some NullPassport).
    { intros Hn. unfold expired in He. rewrite Hn in He. discriminate. }
    cbn [List.filter]. rewrite He.
    destruct e; cbn [fst snd negb]; intros [= <- <-]; subst ex' act';
      (split; [reflexivity|]; split; [reflexivity|]; now constructor).
Qed.

(** A callback throws only on a null passport. *)
Lemma sort_sessions_Throw (d : db) (uid : value) (sids : list string) (msg : string) :
  sort_sessions d uid sids = Throw msg ->
  exists sid, In sid sids /\ sessionStore d !! sid = Some NullPassport.
Proof.
  revert msg. induction sids as [|sid sids IH]; intros msg; cbn [sort_sessions];
    [discriminate|].
  destruct (expired d uid sid) as [e|msg'] eqn:He; cbn [Js.bind].
  - destruct (sort_sessions d uid sids) as [[ex' act']|msg']; cbn [Js.bind]; [discriminate|].
    intros _. destruct (IH msg' eq_refl) as (s & Hin & Hs).
    exists s. split; [now right | exact Hs].
  - intros _. exists sid. split; [now left|].
    unfold expired in He.
    now destruct (sessionStore d !! sid) as [[| | |user]|].
Qed.

(** Whatever the order in which the session lookups settle,
    [cleanExpiredSessions] either throws on a null passport, before it
    removes anything, or removes the expired ids and returns the others. *)
Lemma cleanExpiredSessions_cases (settled : list string -> list string)
  (uid : value) (d : db) :
  let sids := getSortedSetRange d (sessions_key uid) in
  Permutation (settled sids) sids ->
  match cleanExpiredSessions settled uid d with
  | (Ok activeSids, d') =>
      Permutation (List.map sid_of activeSids) (getSortedSetRange d' (sessions_key uid))
      /\ sessionStore d' = sessionStore d
      /\ (forall sid,
            In sid (getSortedSetRange d' (sessions_key uid)) <->
            In sid sids
            /\ exists user, sessionStore d !! sid = Some (PassportUser user)
                            /\ num_eq (parseInt10 user) (parseInt10 uid) = true)
      /\ Forall (fun sid => sessionStore d !! sid <> Some NullPassport) sids
  | (Throw _, d') =>
      d' = d /\ exists sid, In sid sids /\ sessionStore d !! sid = Some NullPassport
  end.
Proof.
  intros sids Hperm. subst sids. unfold cleanExpiredSessions.
  destruct (getSortedSetRange d (sessions_key uid)) as [|sid0 rest] eqn:Hsids.
  - split; [|split; [|split]]; [now rewrite Hsids | reflexivity | | constructor].
    intros sid. rewrite Hsids. split; [intros [] | intros [[] _]].
  - set (sids := sid0 :: rest) in *.
    destruct (sort_sessions d uid (settled sids)) as [[ex act]|msg] eqn:Hsort.
    + apply sort_sessions_Ok in Hsort as (Hex & Hact & Hall).
      assert (Hkept : getSortedSetRange (sortedSetRemove (sessions_key uid) ex d)
                        (sessions_key uid)
                      = List.filter (own_session d uid) sids).
      { rewrite <- Hsids.
        unfold getSortedSetRange, sortedSetRemove. cbn [sortedSets].
        rewrite lookup_insert_eq. cbn [default].
        apply filter_removed. intros e He.
        assert (Hin : In e.1 sids).
        { rewrite <- Hsids. unfold getSortedSetRange. now apply in_map. }
        destruct (own_session d uid e.1) eqn:Hown; cbn [negb].
        - apply not_true_iff_false. intros Hexi.
          apply existsb_exists in Hexi as (x & Hx & Heq).
          apply String.eqb_eq in Heq. subst x ex.
          apply filter_In in Hx as [_ Hx]. rewrite Hown in Hx. discriminate.
        - apply existsb_exists. exists e.1. split; [|apply String.eqb_refl].
          subst ex. apply filter_In. split; [|now rewrite Hown].
          apply (Permutation_in _ (Permutation_sym Hperm) Hin). }
      rewrite Hkept, map_sid_of_VStr. subst act.
      split; [now apply Permutation_filter|]. split; [reflexivity|].
      split; [intros sid; rewrite filter_In, own_session_spec; reflexivity|].
      apply Forall_forall. intros sid Hin.
      rewrite Forall_forall in Hall. apply Hall.
      apply list_elem_of_In, (Permutation_in _ (Permutation_sym Hperm)).
      now apply list_elem_of_In.
    + split; [reflexivity|].
      apply sort_sessions_Throw in Hsort as (sid & Hin & Hs).
      exists sid. split; [|exact Hs]. apply (Permutation_in _ Hperm Hin).
Qed.

(** X17.  Whatever the order in which the session lookups settle, when
    [cleanExpiredSessions] fulfils it returns, in some order, exactly the
    session ids left in 'uid:<uid>:sessions': those that were there and
    whose stored session carries a passport of that very user; the session
    store is not touched.  When a stored session of the user has a null
    passport it throws, and the database is as it was. *)
Theorem cleanExpiredSessions_keeps_active (settled : list string -> list string)
  (uid : value) (d : db) :
  let sids := getSortedSetRange d (sessions_key uid) in
  Permutation (settled sids) sids ->
  (forall activeSids d',
     cleanExpiredSessions settled uid d = (Ok activeSids, d') ->
     Permutation (List.map sid_of activeSids) (getSortedSetRange d' (sessions_key uid))
     /\ sessionStore d' = sessionStore d
     /\ (forall sid,
           In sid (getSortedSetRange d' (sessions_key uid)) <->
           In sid sids
           /\ exists user, sessionStore d !! sid = Some (PassportUser user)
                           /\ num_eq (parseInt10 user) (parseInt10 uid) = true))
  /\ ((exists sid, In sid sids /\ sessionStore d !! sid = Some NullPassport) ->
      exists e, cleanExpiredSessions settled uid d = (Throw e, d)).
Proof.
  intros sids Hperm.
  pose proof (cleanExpiredSessions_cases settled uid d Hperm) as Hcases.
  destruct (cleanExpiredSessions settled uid d) as [[activeSids|e] d'].
  - destruct Hcases as (Hp & Hs & Hiff & Hall). split.
    + intros a d0 [= <- <-]. split; [exact Hp|]. split; [exact Hs | exact Hiff].
    + intros (sid & Hin & Hnull). rewrite Forall_forall in Hall.
      now destruct (Hall sid (proj2 (list_elem_of_In _ _) Hin)).
  - destruct Hcases as [-> _]. split; [discriminate|]. intros _. now exists e.
Qed.

End AuthSessions.

Section AuthLockout.
Context `{Host} (env : Auth.lockoutEnv).
Import Auth.


End AuthLockout.

(** Logging user 1 out everywhere but in session [s2] revokes [s0] and [s1]
    in one call and keeps [s2] in the store. *)
Example revokeAllSessions_keeps_current :
  let st' := @Auth.revokeAllSessions evalHost (VNum (num_of_Z 1)) (VStr "s2")
               (Auth.two_sessions, []) in
  st'.2 = [["s0"; "s1"]]
  /\ Auth.getSortedSetRange st'.1 "uid:1:sessions" = ["s2"]
  /\ Auth.sessionStore st'.1 !! "s2" = Some (Auth.PassportUser (VStr "1"))
  /\ Auth.sessionStore st'.1 !! "s1" = None.
Proof. vm_compute. repeat split. Qed.

(** The stale entry [s0] is dropped and the two active sessions are
    returned, the later one first when its lookup settles first. *)
Lemma cleanExpiredSessions_keeps_active_witness :
  let r := @Auth.cleanExpiredSessions evalHost Auth.last_first (VNum (num_of_Z 1))
             Auth.two_sessions in
  r.1 = Ok [VStr "s2"; VStr "s1"]
  /\ Auth.getSortedSetRange r.2 "uid:1:sessions" = ["s1"; "s2"]
  /\ Permutation ["s2"; "s1"] (Auth.getSortedSetRange r.2 "uid:1:sessions").
Proof.
  pose proof (@cleanExpiredSessions_keeps_active evalHost Auth.last_first
                (VNum (num_of_Z 1)) Auth.two_sessions) as T.
  cbn zeta in T.
  assert (Hperm : Permutation
                    (Auth.last_first
                       (Auth.getSortedSetRange Auth.two_sessions
                          (@Auth.sessions_key evalHost (VNum (num_of_Z 1)))))
                    (Auth.getSortedSetRange Auth.two_sessions
                       (@Auth.sessions_key evalHost (VNum (num_of_Z 1))))).
  { unfold Auth.last_first. symmetry. apply Permutation_rev. }
  destruct (T Hperm) as [T1 _].
  split; [vm_compute; reflexivity|]. split; [vm_compute; reflexivity|].
  exact (proj1 (T1 _ _ eq_refl)).
Defined.

(** A session whose passport is null makes [addSession] throw before it
    adds anything. *)
Example addSession_null_passport :
  let d := {| Auth.sortedSets := {[ "uid:1:sessions" := [("s1", 1000%Z)] ]};
              Auth.sessionStore := {[ "s1" := Auth.NullPassport ]} |} in
  @Auth.addSession evalHost (VNum (num_of_Z 1)) 2000 Auth.in_turn (VNum (num_of_Z 1)) "s2"
    (d, [])
  = (Throw "Cannot read properties of null", (d, [])).
Proof. vm_compute. reflexivity. Qed.


(** ** Invitations *)

Section InviteFacts.
Context `{Host} (env : Invite.Env).
Import Invite.

(** X19.  [User.sendInvitationEmail] mails only new addresses.  When it
    sends the invitation, the address belongs to no user, the inviter had
    not invited it before, the inviter exists, and the six writes that
    record the invitation have been made; it writes nothing unless these
    three conditions hold.  For an address that belongs to a user it returns
    true after the lookup alone, and for an address the inviter has already
    invited it throws '[[error:email-invited]]' after the two lookups. *)
Theorem sendInvitationEmail_mails_only_new (uid email groupsToJoin : value)
  (log : list event) :
  let key := "invitation:uid:" +:+ ToString uid +:+ ":invited:" +:+ ToString email in
  let after := sendInvitationEmail env uid email groupsToJoin log in
  let fresh :=
    truthy uid = true
    /\ (exists v, getUidByEmail env email = Ok v /\ truthy v = false)
    /\ (exists v, db_exists env key = Ok v /\ truthy v = false)
    /\ (exists v, user_exists env uid = Ok v /\ truthy v = true) in
  exists mid,
    after.2 = log ++ mid
    /\ (existsb is_mail mid = true -> fresh /\ length (List.filter is_write mid) = 6%nat)
    /\ (existsb is_write mid = true -> fresh)
    /\ (forall v, truthy uid = true ->
          getUidByEmail env email = Ok v -> truthy v = true ->
          after.1 = Ok (VBool true) /\ mid = [GetUidByEmail email])
    /\ (forall v w, truthy uid = true ->
          getUidByEmail env email = Ok v -> truthy v = false ->
          db_exists env key = Ok w -> truthy w = true ->
          after.1 = Throw "[[error:email-invited]]"
          /\ mid = [GetUidByEmail email; DbExists key]).
Proof.
  intros key after fresh. subst after.
  unfold sendInvitationEmail, prepareInvitation, write. fold key.
  unfold bindM, call, ret, throw.
  destruct (truthy uid) eqn:Hu; cbn [negb].
  2:{ exists []. cbn [fst snd]. rewrite app_nil_r.
      split; [reflexivity|]. split; [discriminate|]. split; [discriminate|].
      split; [intros v Hc; discriminate | intros v w Hc; discriminate]. }
  destruct (getUidByEmail env email) as [known|e] eqn:Hk.
  2:{ exists [GetUidByEmail email]. cbn [fst snd].
      split; [reflexivity|]. split; [discriminate|]. split; [discriminate|].
      split; [intros v _ Hc; discriminate | intros v w _ Hc; discriminate]. }
  destruct (truthy known) eqn:Hkt.
  { exists [GetUidByEmail email]. cbn [fst snd].
    split; [reflexivity|]. split; [discriminate|]. split; [discriminate|].
    split; [intros v _ _ _; now split|].
    intros v w _ [= <-]. congruence. }
  destruct (db_exists env key) as [pending|e] eqn:Hp.
  2:{ exists [GetUidByEmail email; DbExists key]. rewrite <- app_assoc. cbn [fst snd app].
      split; [reflexivity|]. split; [discriminate|]. split; [discriminate|].
      split; [intros v _ [= <-]; congruence|].
      intros v w _ _ _ [=]. }
  destruct (truthy pending) eqn:Hpt.
  { exists [GetUidByEmail email; DbExists key]. rewrite <- app_assoc.
    cbn [fst snd app].
    split; [reflexivity|]. split; [discriminate|]. split; [discriminate|].
    split; [intros v _ [= <-]; congruence|].
    intros v w _ _ _ _ _. now split. }
  destruct (user_exists env uid) as [inviter|e] eqn:Hi.
  2:{ eexists [_; _; _]. rewrite <- !app_assoc. cbn [fst snd app].
      split; [reflexivity|]. split; [discriminate|]. split; [discriminate|].
      split; [intros v _ [= <-]; congruence|].
      intros v w _ _ _ [= <-]. congruence. }
  destruct (truthy inviter) eqn:Hit; cbn [negb].
  2:{ eexists [_; _; _]. rewrite <- !app_assoc. cbn [fst snd app].
      split; [reflexivity|]. split; [discriminate|]. split; [discriminate|].
      split; [intros v _ [= <-]; congruence|].
      intros v w _ _ _ [= <-]. congruence. }
  assert (Hfresh : fresh).
  { subst fresh. split; [reflexivity|]. split; [now exists known|].
    split; [now exists pending | now exists inviter]. }
  clearbody fresh.
  repeat match goal with
         | |- context [db_write env ?ev] => destruct (db_write env ev)
         end;
    try destruct (getUserField env uid "username");
    try destruct (translate env _);
    try destruct (sendToEmail env "invitation" email);
    rewrite <- !app_assoc; cbn [fst snd app];
    (eexists; split; [reflexivity|]);
    (split; [first [discriminate | intros _; split; [exact Hfresh | reflexivity]]|]);
    (split; [first [discriminate | intros _; exact Hfresh]|]);
    (split; [intros v _ Hv Ht; congruence|]);
    intros v w _ Hv Ht Hw Hwt; congruence.
Qed.

(** X20.  An invitation token is accepted only against its stored record.
    [User.verifyInvitation] fulfils exactly when the token of the query is
    truthy and the field 'token' of 'invitation:token:<token>' is truthy and
    strictly equal to it; without a token it throws before any lookup.
    [User.isInviteTokenValid] returns something truthy exactly when the token
    is truthy and the stored email is truthy and strictly equal to the
    email entered. *)
Theorem invitation_token_checks (token other : value) (log : list event) :
  let key := "invitation:token:" +:+ ToString token in
  (verifyInvitation env token log = (Ok tt, log ++ [GetObjectField key "token"])
   <-> truthy token = true
       /\ exists stored, getObjectField env key "token" = Ok stored
            /\ truthy stored = true /\ strict_eq stored token = true)
  /\ (forall log', verifyInvitation env token log = (Ok tt, log') ->
        log' = log ++ [GetObjectField key "token"])
  /\ (truthy token = false ->
        exists e, verifyInvitation env token log = (Throw e, log))
  /\ ((exists v log', isInviteTokenValid env token other log = (Ok v, log')
                      /\ truthy v = true)
      <-> truthy token = true
          /\ exists email, getObjectField env key "email" = Ok email
               /\ truthy email = true /\ strict_eq email other = true).
Proof.
  intros key. unfold verifyInvitation, isInviteTokenValid. fold key.
  unfold bindM, call, lift, ret, throw.
  split; [|split; [|split]].
  - destruct (truthy token) eqn:Ht; cbn [negb].
    + destruct (getObjectField env key "token") as [stored|e] eqn:Hs.
      * destruct (truthy stored) eqn:Hst; cbn [negb orb].
        -- destruct (strict_eq stored token) eqn:Heq; cbn [negb].
           ++ split; [intros _; split; [reflexivity | now exists stored]|reflexivity].
           ++ split; [discriminate|]. intros (_ & s & [= <-] & _ & Hc). congruence.
        -- split; [discriminate|]. intros (_ & s & [= <-] & Hc & _). congruence.
      * split; [discriminate|]. intros (_ & s & Hc & _). discriminate.
    + split; [|intros [Hc _]; discriminate].
      destruct (admin_only env) as [[|]|e]; discriminate.
  - intros log'. destruct (truthy token); cbn [negb].
    + destruct (getObjectField env key "token") as [stored|e]; [|discriminate].
      destruct (negb (truthy stored) || negb (strict_eq stored token)); [discriminate|].
      now intros [= <-].
    + destruct (admin_only env) as [[|]|e]; discriminate.
  - intros ->. cbn [negb]. destruct (admin_only env) as [[|]|e]; eauto.
  - destruct (truthy token) eqn:Ht; cbn [negb].
    + destruct (getObjectField env key "email") as [email|e] eqn:Hs.
      * destruct (truthy email) eqn:Het.
        -- destruct (strict_eq email other) eqn:Heq.
           ++ split; [intros _; split; [reflexivity | now exists email]|].
              intros _. eexists _, _. split; reflexivity.
           ++ split.
              ** intros (v & log' & [= <- _] & Hv). discriminate.
              ** intros (_ & s & [= <-] & _ & Hc). congruence.
        -- split.
           ++ intros (v & log' & [= <- _] & Hv). congruence.
           ++ intros (_ & s & [= <-] & Hc & _). congruence.
      * split.
        -- intros (v & log' & Hc & _). discriminate.
        -- intros (_ & s & Hc & _). discriminate.
    + split.
      * intros (v & log' & [= <- _] & Hv). discriminate.
      * intros [Hc _]. discriminate.
Qed.

End InviteFacts.

(** An invitation to a new address is recorded and mailed; one to the
    address of user 5 is not. *)
Lemma sendInvitationEmail_mails_only_new_witness :
  (exists mid,
     (@Invite.sendInvitationEmail evalHost
        (Invite.evalEnv VNull (VBool false) VNull)
        (VNum (num_of_Z 1)) (VStr "new@example.org") (VArr []) []).2 = [] ++ mid
     /\ existsb Invite.is_mail mid = true
     /\ length (List.filter Invite.is_write mid) = 6%nat)
  /\ @Invite.sendInvitationEmail evalHost
       (Invite.evalEnv (VNum (num_of_Z 5)) (VBool false) VNull)
       (VNum (num_of_Z 1)) (VStr "known@example.org") (VArr []) []
     = (Ok (VBool true), [Invite.GetUidByEmail (VStr "known@example.org")]).
Proof.
  split.
  - destruct (@sendInvitationEmail_mails_only_new evalHost
                (Invite.evalEnv VNull (VBool false) VNull)
                (VNum (num_of_Z 1)) (VStr "new@example.org") (VArr []) [])
      as (mid & Hmid & Hmail & _).
    exists mid. split; [exact Hmid|].
    assert (Hm : existsb Invite.is_mail mid = true).
    { cbn [app] in Hmid. rewrite <- Hmid. reflexivity. }
    split; [exact Hm|]. now apply Hmail.
  - destruct (@sendInvitationEmail_mails_only_new evalHost
                (Invite.evalEnv (VNum (num_of_Z 5)) (VBool false) VNull)
                (VNum (num_of_Z 1)) (VStr "known@example.org") (VArr []) [])
      as (mid & Hmid & _ & _ & Hknown & _).
    destruct (Hknown (VNum (num_of_Z 5)) eq_refl eq_refl eq_refl) as [Hr Hm].
    cbn [app] in Hmid. rewrite Hm in Hmid.
    now apply injective_projections.
Defined.

Lemma invitation_token_checks_witness :
  @Invite.verifyInvitation evalHost (Invite.evalEnv VNull (VBool false) (VStr "6d9b"))
    (VStr "6d9b") []
  = (Ok tt, [Invite.GetObjectField "invitation:token:6d9b" "token"])
  /\ exists e,
       @Invite.verifyInvitation evalHost (Invite.evalEnv VNull (VBool false) (VStr "6d9b"))
         VUndefined [] = (Throw e, []).
Proof.
  destruct (@invitation_token_checks evalHost
              (Invite.evalEnv VNull (VBool false) (VStr "6d9b")) (VStr "6d9b") VNull [])
    as (Hok & _).
  destruct (@invitation_token_checks evalHost
              (Invite.evalEnv VNull (VBool false) (VStr "6d9b")) VUndefined VNull [])
    as (_ & _ & Hno & _).
  split.
  - apply Hok. split; [reflexivity|]. exists (VStr "6d9b"). repeat split.
  - apply Hno. reflexivity.
Defined.

(** ** The filters of the flag list *)

Section FlagFilters.
Context `{Host} (escape trim : string -> string).
Import ModsFilters.

Lemma parseFilters_lookup (q : query) (l : list string) (memo : query) (k : string) :
  foldl (fun memo cur =>
           match q !! cur with
           | Some v =>
               match parsed escape trim v with
               | Some v' => <[cur := v']> memo
               | None => memo
               end
           | None => memo
           end) memo l !! k
  = if decide (k ∈ l)
    then match q !! k ≫= parsed escape trim with
         | Some v => Some v
         | None => memo !! k
         end
    else memo !! k.
Proof.
  revert memo. induction l as [|cur l IH]; intros memo.
  - cbn [foldl]. destruct (decide (k ∈ [])) as [Hin|_]; [|reflexivity].
    now apply elem_of_nil in Hin.
  - cbn [foldl]. rewrite IH.
    set (memo' := match q !! cur with
                  | Some v => match parsed escape trim v with
                              | Some v' => <[cur := v']> memo
                              | None => memo
                              end
                  | None => memo
                  end).
    assert (Hmemo : memo' !! k
                    = if decide (k = cur)
                      then match q !! k ≫= parsed escape trim with
                           | Some v => Some v
                           | None => memo !! k
                           end
                      else memo !! k).
    { subst memo'. destruct (decide (k = cur)) as [->|Hne].
      - destruct (q !! cur) as [v|]; cbn; [|reflexivity].
        destruct (parsed escape trim v); [apply lookup_insert_eq | reflexivity].
      - destruct (q !! cur) as [v|]; [|reflexivity].
        destruct (parsed escape trim v); [|reflexivity].
        now apply lookup_insert_ne. }
    destruct (decide (k ∈ l)) as [Hin|Hnin].
    + rewrite decide_True by (now right).
      destruct (q !! k ≫= parsed escape trim); [reflexivity|].
      rewrite Hmemo. destruct (decide (k = cur)); reflexivity.
    + rewrite Hmemo. destruct (decide (k = cur)) as [->|Hne].
      * rewrite decide_True by (now left). reflexivity.
      * rewrite decide_False; [reflexivity|].
        intros Hin. apply elem_of_cons in Hin as [?|?]; contradiction.
Qed.

(** X21.  [parseFilters] lets through the valid filters only.  A key of
    the parsed filters is one of the valid filters, and its value comes from
    the query under that key: the escaped trimmed string, when the query
    holds a string that is not blank, or the array of the escaped trimmed
    strings of its elements, when it holds a non-empty array.  Every valid
    filter the query gives in one of these two forms is kept. *)
Theorem parseFilters_whitelist (q : query) (valid : list string) (k : string) :
  parseFilters escape trim q valid !! k
  = (if decide (k ∈ valid) then q !! k ≫= parsed escape trim else None)
  /\ (forall v, parseFilters escape trim q valid !! k = Some v ->
        k ∈ valid
        /\ ((exists s, q !! k = Some (VStr s) /\ trim s <> ""
                       /\ v = VStr (escape (trim s)))
            \/ (exists xs, q !! k = Some (VArr xs) /\ xs <> []
                  /\ v = VArr (List.map (fun item => VStr (escape (trim (ToString item))))
                                        xs)))).
Proof.
  assert (Hlookup : parseFilters escape trim q valid !! k
                    = (if decide (k ∈ valid) then q !! k ≫= parsed escape trim else None)).
  { unfold parseFilters. rewrite parseFilters_lookup, lookup_empty.
    destruct (decide (k ∈ valid)); [|reflexivity].
    now destruct (q !! k ≫= parsed escape trim). }
  split; [exact Hlookup|].
  intros v Hv. rewrite Hlookup in Hv.
  destruct (decide (k ∈ valid)) as [Hin|]; [|discriminate].
  split; [exact Hin|].
  destruct (q !! k) as [x|]; [|discriminate]. cbn in Hv.
  destruct x as [| |b|n|s|[|x xs]]; try discriminate.
  - cbn [parsed] in Hv.
    destruct (String.eqb (trim s) "") eqn:Ht; [discriminate|].
    injection Hv as <-. left. exists s. apply String.eqb_neq in Ht. auto.
  - injection Hv as <-. right. exists (x :: xs). split; [reflexivity|].
    split; [discriminate | reflexivity].
Qed.

(** X22.  A moderator restricted to some categories only filters within
    them.  When [res.locals.cids] is set, the filter 'cid' that
    [adjustCidFilters] returns is that list itself, or an array all of whose
    elements are in it, or a single value that is in it, the elements being
    compared as strings; the other filters are returned as they were. *)
Theorem adjustCidFilters_restricts (filters : query) (cids : list string) :
  let adjusted := (adjustCidFilters filters (Some cids)).1 in
  match adjusted !! "cid" with
  | Some (VArr l) => Forall (fun c => In (ToString c) cids) l
  | Some v => In (ToString v) cids
  | None => False
  end
  /\ forall k, k <> "cid" -> adjusted !! k = filters !! k.
Proof.
  intros adjusted. subst adjusted. unfold adjustCidFilters.
  assert (Hall : Forall (fun c => In (ToString c) cids) (List.map VStr cids)).
  { apply List.Forall_forall. intros c Hc.
    apply in_map_iff in Hc as (s & <- & Hs). exact Hs. }
  destruct (truthy (default VUndefined (filters !! "cid"))) eqn:Ht; cbn [negb].
  2:{ cbn [fst]. rewrite lookup_insert_eq. split; [exact Hall|].
      intros k Hk. now apply lookup_insert_ne. }
  destruct (filters !! "cid") as [cid|] eqn:Hcid; [|discriminate].
  cbn [from_option id] in *.
  assert (Hin : forall v : value,
            existsb (String.eqb (ToString v)) cids = true -> In (ToString v) cids).
  { intros v Hv. apply existsb_exists in Hv as (s & Hs & Heq).
    apply String.eqb_eq in Heq. now rewrite Heq. }
  destruct cid as [| |b|n|s|l]; try discriminate;
    try (destruct (existsb (String.eqb (ToString _)) cids) eqn:Hex; cbn [negb fst];
         [rewrite Hcid; split; [now apply Hin | reflexivity]
         |rewrite lookup_insert_eq; split; [exact Hall|];
          intros k Hk; now apply lookup_insert_ne]).
  cbn [fst]. rewrite lookup_insert_eq. split.
  - apply List.Forall_forall. intros c Hc. apply filter_In in Hc as [_ Hc]. now apply Hin.
  - intros k Hk. now apply lookup_insert_ne.
Qed.

(** X23.  The sort of the flag list is sanitised.  [parseSort] never
    returns 'newest'; when it returns something truthy, that is the sort of
    the query and one of the valid sorts.  So the sort handed to the
    template, [sort || 'newest'], is 'newest' or a valid sort taken from the
    query. *)
Theorem parseSort_sanitised (sort0 : value) (sorts : list value) :
  let sort := parseSort sort0 sorts in
  sort <> VStr "newest"
  /\ (truthy sort = true -> sort = sort0 /\ array_includes sorts sort0 = true)
  /\ (or_else sort (VStr "newest") = VStr "newest"
      \/ (or_else sort (VStr "newest") = sort0 /\ array_includes sorts sort0 = true)).
Proof.
  intros sort. subst sort. unfold parseSort.
  destruct (truthy sort0) eqn:Ht.
  - destruct (array_includes sorts sort0) eqn:Hinc.
    + destruct (is_str sort0 "newest") eqn:Hn.
      * split; [discriminate|]. split; [discriminate|]. now left.
      * split.
        { intros ->. cbn in Hn. discriminate. }
        split; [intros _; now split|].
        right. unfold or_else. rewrite Ht. now split.
    + cbn [is_str]. split; [discriminate|]. split; [discriminate|]. now left.
  - cbn [is_str]. split; [discriminate|]. split; [discriminate|]. now left.
Qed.

End FlagFilters.

(** A moderator of the categories 1 and 2 asks for the flags of category 9,
    sorted by a sort that is not valid, with a filter that is not valid: the
    flags are filtered by the moderated categories and sorted by 'newest'. *)
Example list_filters_of_moderator :
  let r := @ModsFilters.list_filters evalHost (fun s => s) (fun s => s)
             {[ "cid" := VStr "9"; "sort" := VStr "random"; "secret" := VStr "1" ]}
             (Some ["1"; "2"]) ModsFilters.validSorts in
  r.1.1 !! "cid" = Some (VArr [VStr "1"; VStr "2"])
  /\ r.1.1 !! "secret" = None
  /\ r.1.2 = false
  /\ r.2 = VStr "newest".
Proof. vm_compute. repeat split. Qed.

(** ** The post queue: rights and pages *)

Section QueueFacts.
Context `{Host}.
Import ModsFilters.

Lemma num_eq_sym (a b : jsnum) : num_eq a b = num_eq b a.
Proof.
  destruct a as [| | |x], b as [| | |y]; try reflexivity.
  cbn [num_eq]. destruct (Qeq_bool x y) eqn:Hxy.
  - symmetry. apply Qeq_bool_iff. symmetry. now apply Qeq_bool_iff.
  - symmetry. apply not_true_iff_false. intros Hyx.
    apply Qeq_bool_iff in Hyx. symmetry in Hyx. apply Qeq_bool_iff in Hyx. congruence.
Qed.

Lemma strict_eq_sym (a b : value) : strict_eq a b = strict_eq b a.
Proof.
  destruct a as [| |x|x|x|x], b as [| |y|y|y|y]; try reflexivity; cbn [strict_eq].
  - now destruct x, y.
  - apply num_eq_sym.
  - apply String.eqb_sym.
Qed.

(** X24.  The rights shown in the post queue match what the viewer may
    see.  Every post the queue shows is in a selected category, if any is
    selected.  A post shown with [canAccept] is not the viewer's own, and the
    viewer is an administrator, a global moderator or a moderator of the
    category of that very post; a post shown with [canEdit] is the viewer's
    own unless the viewer is an administrator or a global moderator. *)
Theorem queue_rights (v : viewer) (postData : list (option post)) :
  Forall (fun p =>
            (selectedCids v = [] \/ array_includes (selectedCids v) (category_cid p) = true)
            /\ (canAccept p = true ->
                strict_eq (user_uid p) (req_uid v) = false
                /\ (isAdmin v = true \/ isGlobalMod v = true
                    \/ array_includes (moderatedCids v)
                         (VNum (ToNumber (category_cid p))) = true))
            /\ (canEdit p = true ->
                strict_eq (user_uid p) (req_uid v) = true
                \/ isAdmin v = true \/ isGlobalMod v = true))
         (queue_for v postData).
Proof.
  unfold queue_for. apply List.Forall_forall. intros p Hp.
  apply in_map_iff in Hp as (p0 & <- & Hp0).
  apply list_elem_of_In, list_elem_of_omap in Hp0 as (o & Ho & Hid).
  unfold id in Hid. subst o.
  apply list_elem_of_In, filter_In in Ho as [_ Hshown].
  cbn [shown] in Hshown. apply andb_true_iff in Hshown as [Hsel Hmay].
  cbn [with_rights category_cid user_uid canAccept canEdit].
  split; [|split].
  - apply orb_true_iff in Hsel as [Hsel | Hsel]; [left | now right].
    apply Nat.eqb_eq in Hsel. now destruct (selectedCids v).
  - intros Hacc. apply andb_true_iff in Hacc as [Hself _].
    apply negb_true_iff in Hself. split; [exact Hself|].
    rewrite strict_eq_sym, Hself, orb_false_r in Hmay.
    apply orb_true_iff in Hmay as [Hmay | Hmay]; [|now right; right].
    apply orb_true_iff in Hmay as [Hmay | Hmay]; [now left | now right; left].
  - intros Hed.
    apply orb_true_iff in Hed as [Hed | Hed]; [|now right; right].
    apply orb_true_iff in Hed as [Hed | Hed]; [now left | now right; left].
Qed.

End QueueFacts.

Section QueuePages.
Context {A : Type}.
Import ModsFilters.

Lemma slice_end_Z (len : nat) (z : Z) :
  slice_end len (Fin (inject_Z z))
  = if (z <? 0)%Z then Z.to_nat (Z.max (Z.of_nat len + z) 0) else Nat.min (Z.to_nat z) len.
Proof. unfold slice_end. cbn [inject_Z Qnum Qden]. now rewrite Z.quot_1_r. Qed.

Lemma page_offset_Z (page k : Z) :
  exists q, page_offset (num_of_Z page) k = Fin q
            /\ Z.quot (Qnum q) (Zpos (Qden q)) = ((page - 1) * 20 + k)%Z.
Proof.
  eexists. split; [reflexivity|].
  cbn [inject_Z Qnum Qden Qplus Qminus Qmult Qopp].
  change (Z.pos (1 * 1 * 1 * 1)) with 1%Z. change (Z.pos (1 * 1 * 1)) with 1%Z.
  rewrite Z.quot_1_r. ring.
Qed.

Lemma page_of_take_drop (postData : list A) (p : nat) :
  page_of postData (num_of_Z (Z.of_nat (S p))) = take 20 (drop (20 * p) postData).
Proof.
  unfold page_of, js_slice.
  destruct (page_offset_Z (Z.of_nat (S p)) 0) as (q0 & -> & Hq0).
  destruct (page_offset_Z (Z.of_nat (S p)) 20) as (q1 & -> & Hq1).
  unfold slice_end. rewrite Hq0, Hq1.
  replace ((Z.of_nat (S p) - 1) * 20 + 0)%Z with (Z.of_nat (20 * p)) by lia.
  replace ((Z.of_nat (S p) - 1) * 20 + 20)%Z with (Z.of_nat (20 * p + 20)) by lia.
  destruct (Z.ltb_spec (Z.of_nat (20 * p)) 0) as [?|_]; [lia|].
  destruct (Z.ltb_spec (Z.of_nat (20 * p + 20)) 0) as [?|_]; [lia|].
  rewrite !Nat2Z.id.
  destruct (Nat.le_gt_cases (length postData) (20 * p)) as [Hle | Hgt].
  - rewrite Nat.min_r by lia. rewrite !drop_ge by lia. now rewrite !take_nil.
  - rewrite (Nat.min_l (20 * p)) by lia.
    destruct (Nat.le_gt_cases (20 * p + 20) (length postData)) as [Hle' | Hgt'].
    + rewrite Nat.min_l by lia. f_equal. lia.
    + rewrite Nat.min_r by lia.
      rewrite !take_ge; [reflexivity | |]; rewrite length_drop; lia.
Qed.

Lemma concat_pages (postData : list A) (n : nat) :
  concat (List.map (fun p => page_of postData (num_of_Z (Z.of_nat p))) (seq 1 n))
  = take (20 * n) postData.
Proof.
  induction n as [|n IH]; [now rewrite Nat.mul_0_r, take_0|].
  rewrite seq_S, List.map_app, concat_app, IH. cbn [List.map concat Nat.add].
  rewrite app_nil_r, page_of_take_drop.
  replace (20 * S n) with (20 * n + 20) by lia.
  rewrite <- (take_drop (20 * n) (take (20 * n + 20) postData)).
  rewrite take_take, Nat.min_l by lia.
  f_equal. rewrite <- take_drop_commute. f_equal. 
Qed.

(** X25.  The pages of the post queue split it.  With 20 posts per page
    and [pageCount] pages, the pages 1 to [pageCount] hold, one after the
    other, every post of the queue exactly once and in order; there is at
    least one page, and no page, whatever its number, holds more than 20
    posts. *)
Theorem queue_pages (postData : list A) :
  concat (List.map (fun p => page_of postData (num_of_Z (Z.of_nat p)))
                   (seq 1 (pageCount postData)))
  = postData
  /\ (1 <= pageCount postData)%nat
  /\ forall page : Z, (length (page_of postData (num_of_Z page)) <= 20)%nat.
Proof.
  split; [|split].
  - rewrite concat_pages. apply take_ge. unfold pageCount.
    pose proof (Nat.div_mod_eq (length postData + 19) 20) as Hd.
    pose proof (Nat.mod_upper_bound (length postData + 19) 20) as Hm. lia.
  - unfold pageCount. lia.
  - intros page. unfold page_of, js_slice.
    destruct (page_offset_Z page 0) as (q0 & -> & Hq0).
    destruct (page_offset_Z page 20) as (q1 & -> & Hq1).
    unfold slice_end. rewrite Hq0, Hq1.
    rewrite length_take, length_drop.
    destruct (Z.ltb_spec ((page - 1) * 20 + 0) 0), (Z.ltb_spec ((page - 1) * 20 + 20) 0); lia.
Qed.

End QueuePages.

(** ** The composer without scripts *)

Section ComposerFacts.
Context `{Host} (env : Composer.Env).
Import Composer.

(** Every way through [exports.post], by the values it tests and by how
    the calls it makes end. *)
Ltac composer_cases b :=
  unfold post, post_body, performPost, queueOrPost, postFn, res_redirect, ensureContent,
    decideAction, invalidDataError, unhandled, returned, bind, emit, settle, ret, raise;
  destruct (truthy (content b)) eqn:Hcontent; cbn [negb];
  [ destruct (truthy (tid b)) eqn:Htid;
    [ | destruct (truthy (cid b)) eqn:Hcid ];
    [ destruct (shouldQueue env) as [sq|[m| |]] eqn:Hsq;
      [ destruct (truthy sq) eqn:Hsqt;
        [ destruct (addToQueue env) as [[r|]|[m| |]] eqn:Hq
        | destruct (topics_reply env) as [[r|]|[m| |]] eqn:Hp ] | | | ]
    | destruct (shouldQueue env) as [sq|[m| |]] eqn:Hsq;
      [ destruct (truthy sq) eqn:Hsqt;
        [ destruct (addToQueue env) as [[r|]|[m| |]] eqn:Hq
        | destruct (topics_post env) as [[r|]|[m| |]] eqn:Hp ] | | | ]
    | ]
  | ];
  try match goal with
      | |- context [truthy (queued ?x)] => destruct (truthy (queued x)) eqn:Hqueued
      end;
  try match goal with
      | |- context [updateOnlineUsers env] =>
          destruct (updateOnlineUsers env) as [later|[m0| |]] eqn:Hu
      end;
  try match goal with
      | |- context [redirect env ?p] => destruct (redirect env p) as [[]|[m'| |]] eqn:Hr
      end;
  try match goal with
      | |- context [noScriptErrors env ?m ?n] =>
          destruct (noScriptErrors env m n) as [[]|rej] eqn:Hn
      end;
  rewrite <- ?app_assoc; cbn [fst snd app].

(** X26.  [exports.post] of the composer publishes or queues at most one
    post, and it fulfils only after answering the request, the answer, a
    redirect or a call of [helpers.noScriptErrors], being its last act.  It
    rejects only when [helpers.noScriptErrors], called last, rejects, or
    when what a call threw is null or undefined.  Where [res.redirect] does
    not throw, the request is answered at most once. *)
Theorem composer_post_answers (uid : value) (b : body) (log : list event) :
  let run := post env uid b log in
  exists mid,
    run.2 = log ++ mid
    /\ (length (List.filter is_posting mid) <= 1)%nat
    /\ match run.1 with
       | Fulfilled _ =>
           exists before answer, mid = before ++ [answer] /\ is_response answer = true
       | Rejected r =>
           (exists before message0,
              mid = before ++ [NoScriptErrors message0 400]
              /\ noScriptErrors env message0 400 = Rejected r)
           \/ nullish_rejection (shouldQueue env) = true
           \/ nullish_rejection (addToQueue env) = true
           \/ nullish_rejection (topics_reply env) = true
           \/ nullish_rejection (topics_post env) = true
           \/ nullish_rejection (updateOnlineUsers env) = true
           \/ exists path, nullish_rejection (redirect env path) = true
       end
    /\ ((forall path, redirect env path = Fulfilled tt) ->
        (length (List.filter is_response mid) <= 1)%nat).
Proof.
  intros run. subst run.
  composer_cases b;
    (eexists; split; [reflexivity|]);
    (split; [cbn; lia|]);
    (split;
     [ first [ eexists [], _; split; [reflexivity|reflexivity]
             | eexists [_], _; split; [reflexivity|reflexivity]
             | eexists [_; _], _; split; [reflexivity|reflexivity]
             | eexists [_; _; _], _; split; [reflexivity|reflexivity]
             | eexists [_; _; _; _], _; split; [reflexivity|reflexivity]
             | left; eexists [], _; split; [reflexivity|assumption]
             | left; eexists [_], _; split; [reflexivity|assumption]
             | left; eexists [_; _], _; split; [reflexivity|assumption]
             | left; eexists [_; _; _], _; split; [reflexivity|assumption]
             | left; eexists [_; _; _; _], _; split; [reflexivity|assumption]
             | right; left; reflexivity
             | right; right; left; reflexivity
             | right; right; right; left; reflexivity
             | right; right; right; right; left; reflexivity
             | right; right; right; right; right; left; reflexivity
             | right; right; right; right; right; right; eexists; rewrite Hr; reflexivity ]
     | intros Hred; rewrite ?Hred in *; try discriminate; cbn; lia ]).
Qed.

(** X27.  What the composer posts.  Without content, or with neither a
    topic id nor a category id, [exports.post] answers
    '[[error:invalid-data]]' with status 400 and calls no other module.  A
    topic id takes precedence over a category id: with a topic id it never
    calls [topics.post], without one it never calls [topics.reply]; and it
    calls neither when [posts.shouldQueue] says that the post is to be
    queued. *)
Theorem composer_post_decides (uid : value) (b : body) (log : list event) :
  (truthy (content b) = false \/ (truthy (tid b) = false /\ truthy (cid b) = false) ->
     post env uid b log
     = (noScriptErrors env (VStr "[[error:invalid-data]]") 400,
        log ++ [NoScriptErrors (VStr "[[error:invalid-data]]") 400]))
  /\ exists mid,
       (post env uid b log).2 = log ++ mid
       /\ (truthy (tid b) = true ->
           Forall (fun ev => match ev with TopicsPost _ _ _ => False | _ => True end) mid)
       /\ (truthy (tid b) = false ->
           Forall (fun ev => match ev with TopicsReply _ _ => False | _ => True end) mid)
       /\ (forall sq, shouldQueue env = Fulfilled sq -> truthy sq = true ->
           Forall (fun ev => match ev with
                             | TopicsPost _ _ _ | TopicsReply _ _ => False
                             | _ => True
                             end) mid).
Proof.
  split.
  - intros [Hc | [Ht Hcid]].
    + unfold post, post_body, ensureContent, bind, settle, emit. now rewrite Hc.
    + unfold post, post_body, ensureContent, decideAction, bind, settle, emit.
      rewrite Ht, Hcid. now destruct (truthy (content b)).
  - composer_cases b;
      (eexists; split; [reflexivity|]);
      (split; [intros Ht'; try congruence; repeat constructor|]);
      (split; [intros Ht'; try congruence; repeat constructor|]);
      intros sq' Hsq' Hsqt'; try congruence; repeat constructor.
Qed.

End ComposerFacts.

(** A request with a topic id and a category id is posted as a reply, and
    the client is sent to the new post. *)
Example composer_reply_wins :
  @Composer.post evalHost Composer.evalEnv (VNum (num_of_Z 7)) Composer.reply_and_topic []
  = (Composer.Fulfilled tt,
     [ Composer.ShouldQueue (VNum (num_of_Z 7));
       Composer.TopicsReply (VNum (num_of_Z 3)) (VStr "hello");
       Composer.UpdateOnlineUsers (VNum (num_of_Z 7)) None;
       Composer.Redirect "/forum/post/12" ]).
Proof. reflexivity. Qed.

(** Where [res.redirect] throws, the post is published and the request is
    answered a second time, with the error of the redirect. *)
Example composer_redirect_throws :
  @Composer.post evalHost Composer.sentEnv (VNum (num_of_Z 7)) Composer.reply_and_topic []
  = (Composer.Fulfilled tt,
     [ Composer.ShouldQueue (VNum (num_of_Z 7));
       Composer.TopicsReply (VNum (num_of_Z 3)) (VStr "hello");
       Composer.UpdateOnlineUsers (VNum (num_of_Z 7)) None;
       Composer.Redirect "/forum/post/12";
       Composer.NoScriptErrors (VStr "Cannot set headers after they are sent") 400 ]).
Proof. reflexivity. Qed.

Lemma composer_post_decides_witness :
  @Composer.post evalHost Composer.evalEnv (VNum (num_of_Z 7))
    {| Composer.content := VStr ""; Composer.handle := VUndefined;
       Composer.tid := VNum (num_of_Z 3); Composer.cid := VUndefined;
       Composer.title := VUndefined |} []
  = (Composer.Fulfilled tt, [Composer.NoScriptErrors (VStr "[[error:invalid-data]]") 400]).
Proof.
  apply (@composer_post_decides evalHost Composer.evalEnv (VNum (num_of_Z 7)) _ []).
  left. reflexivity.
Defined.

(** ** Moderation controllers: who gets a page *)

Section ModsAccess.
Import Mods.

(** X28.  The moderation pages are rendered for the privileged only.
    [flags.list] renders 'flags/list' only for an administrator, a global
    moderator or a moderator of some category.  [flags.detail] renders
    'flags/detail' only when the flag exists and the user is an administrator
    or a global moderator, or moderates some category and the flag is not a
    flag of a user and, for a flag of a post, is in one of the moderated
    categories.  [postQueue] renders 'post-queue' only for a logged-in
    user. *)
Theorem mods_render_requires_privilege
  (lenv : listEnv) (denv : detailEnv) (qenv : queueEnv)
  (next : string) (done : option string) :
  (In (Render "flags/list") (flags_list lenv done []).2 ->
     exists (a : bool) (cids : list value),
       l_isAdminOrGlobalMod lenv = Ok a /\ l_getModeratedCids lenv = Ok cids
       /\ (a = true \/ cids <> []))
  /\ (In (Render "flags/detail") (flags_detail denv next done []).2 ->
      exists (a : bool) (cids : list value) (t : flagType),
        d_isAdminOrGlobalMod denv = Ok a /\ d_getModeratedCids denv = Ok cids
        /\ d_flags_get denv = Ok (Some t)
        /\ (a = true
            \/ (cids <> [] /\ t <> UserFlag
                /\ (t = PostFlag ->
                    exists flags, d_isMemberOfSortedSets denv = Ok flags
                                  /\ In true flags))))
  /\ (In (Render "post-queue") (postQueue qenv next done []).2 -> q_loggedIn qenv = true).
Proof.
  split; [|split].
  - unfold flags_list, try_catch_done, list_body, both, bindM, await, traced, call,
      call_if_given, ret.
    intros Hin.
    destruct (l_isAdminOrGlobalMod lenv) as [a|] eqn:Ha;
      [|destruct (l_getModeratedCids lenv), (l_validateFilters lenv), (l_validateSort lenv),
          done; cbn in Hin; intuition discriminate].
    destruct (l_getModeratedCids lenv) as [cids|] eqn:Hc;
      [|destruct (l_validateFilters lenv), (l_validateSort lenv), done;
        cbn in Hin; intuition discriminate].
    exists a, cids. split; [reflexivity|]. split; [reflexivity|].
    destruct a; [now left|]. right. intros ->.
    destruct (l_validateFilters lenv), (l_validateSort lenv), done, (l_done lenv);
      cbn in Hin; intuition discriminate.
  - unfold flags_detail, try_catch_done, detail_body, detail_rest, getAssignees, both,
      bindM, await, traced, call, call_if_given, ret.
    intros Hin.
    destruct (d_isAdminOrGlobalMod denv) as [a|] eqn:Ha;
      [|destruct (d_getModeratedCids denv), (d_flags_get denv), (d_privileges denv), done;
        cbn in Hin; intuition discriminate].
    destruct (d_getModeratedCids denv) as [cids|] eqn:Hc;
      [|destruct (d_flags_get denv), (d_privileges denv), done;
        cbn in Hin; intuition discriminate].
    destruct (d_flags_get denv) as [[t|]|] eqn:Hf;
      [| destruct (d_privileges denv), (d_next denv), done;
         cbn in Hin; intuition discriminate
       | destruct (d_privileges denv), done; cbn in Hin; intuition discriminate].
    exists a, cids, t. split; [reflexivity|]. split; [reflexivity|]. split; [reflexivity|].
    destruct a; [now left|]. right.
    destruct (d_privileges denv);
      [|destruct done; cbn in Hin; intuition discriminate].
    cbn [fst snd orb negb] in Hin.
    destruct cids as [|c cids]; cbn [length Nat.eqb negb] in Hin;
      [destruct (d_next denv), done; cbn in Hin; intuition discriminate|].
    split; [discriminate|].
    destruct t.
    + destruct (d_next denv), done; cbn in Hin; intuition discriminate.
    + split; [discriminate|]. intros _.
      destruct (d_isMemberOfSortedSets denv) as [flags|] eqn:Hm;
        [|destruct done; cbn in Hin; intuition discriminate].
      exists flags. split; [reflexivity|].
      destruct (existsb id flags) eqn:Hex.
      * apply existsb_exists in Hex as (x & Hx & Hid). unfold id in Hid. now subst x.
      * destruct (d_next denv), done; cbn in Hin; intuition discriminate.
    + split; [discriminate|]. intros [=].
  - unfold postQueue, try_catch_done, postQueue_body, bindM, await, traced, call,
      call_if_given, ret.
    intros Hin. destruct (q_loggedIn qenv); [reflexivity|].
    destruct (q_next qenv), done, (q_done qenv); cbn in Hin; intuition discriminate.
Qed.

End ModsAccess.

(** ** Default covers *)

Section CoverFacts.
Context `{Host} (relative_path : string) (config : string -> value).
Import CoverPhoto.

Lemma num_rem_nat (n len : nat) :
  len <> 0%nat ->
  element_at_index (num_rem (num_of_Z (Z.of_nat n)) len) = Some (n mod len)%nat.
Proof.
  intros Hlen. unfold num_rem, num_of_Z, element_at_index.
  destruct (Nat.eqb_spec len 0) as [?|_]; [contradiction|].
  set (q := (inject_Z (Z.of_nat n)
             - inject_Z (Z.of_nat len
                         * Z.quot (Qnum (inject_Z (Z.of_nat n)))
                                  (Z.pos (Qden (inject_Z (Z.of_nat n))) * Z.of_nat len)))%Q).
  assert (Hq : q = inject_Z (Z.of_nat (n mod len))).
  { subst q. unfold Qminus, Qplus, Qopp, inject_Z. cbn [Qnum Qden].
    change (1 * 1)%positive with 1%positive. f_equal.
    rewrite Z.mul_1_l, !Z.mul_1_r, Nat2Z.inj_mod.
    rewrite <- Z.rem_mod_nonneg by lia.
    pose proof (Z.quot_rem' (Z.of_nat n) (Z.of_nat len)). lia. }
  rewrite Hq. cbn [inject_Z Qnum Qden]. rewrite Z.div_1_r.
  replace (Qeq_bool _ _) with true by (symmetry; apply Qeq_bool_iff; reflexivity).
  destruct (Z.leb_spec 0 (Z.of_nat (n mod len))) as [_|?]; [|lia].
  cbn [andb]. now rewrite Nat2Z.id.
Qed.

(** X29.  A default cover is the built-in one or one of those configured.
    [getCover] returns the built-in '/assets/images/cover-default.png' or a
    non-empty piece of the configured list, as it stands when it starts with
    'http' and after relative_path otherwise; it returns the built-in cover
    when nothing is configured and for every name of a single character.
    For the number [n] it picks the piece of index [n] modulo the number of
    pieces. *)
Theorem getCover_is_configured (type : string) (id : value) :
  let covers := covers_of (config (type +:+ ":defaultCovers")) in
  let shown cover := if String.prefix "http" cover then cover else relative_path +:+ cover in
  (getCover relative_path config type id = defaultCover relative_path
   \/ exists cover, In cover covers /\ cover <> ""
                    /\ getCover relative_path config type id = shown cover)
  /\ (truthy (config (type +:+ ":defaultCovers")) = false ->
      getCover relative_path config type id = defaultCover relative_path)
  /\ (forall c, id = VStr (String c "") ->
      getCover relative_path config type id = defaultCover relative_path)
  /\ (forall (n : nat) (cover : string),
        id = VNum (num_of_Z (Z.of_nat n)) ->
        truthy (config (type +:+ ":defaultCovers")) = true ->
        covers !! (n mod length covers)%nat = Some cover -> cover <> "" ->
        getCover relative_path config type id = shown cover).
Proof.
  intros covers shown. subst covers shown. unfold getCover.
  split; [|split; [|split]].
  - destruct (negb (truthy _)); [now left|].
    destruct (length _ =? 0)%nat; [now left|].
    unfold element_at.
    destruct (element_at_index _) as [i|]; [|now left].
    destruct (covers_of _ !! i) as [cover|] eqn:Hc; [|now left].
    destruct (String.eqb cover "") eqn:He; [now left|].
    right. exists cover. apply String.eqb_neq in He.
    split; [|split; [exact He | reflexivity]].
    apply list_elem_of_In. now apply list_elem_of_lookup_2 in Hc.
  - now intros ->.
  - intros c ->. destruct (negb (truthy _)); [reflexivity|].
    destruct (length _ =? 0)%nat; reflexivity.
  - intros n cover -> Ht Hc Hne. rewrite Ht. cbn [negb].
    assert (Hlen : length (covers_of (config (type +:+ ":defaultCovers"))) <> 0%nat).
    { intros Hz. rewrite Hz in Hc.
      destruct (covers_of (config (type +:+ ":defaultCovers"))); [discriminate|discriminate]. }
    destruct (Nat.eqb_spec (length (covers_of (config (type +:+ ":defaultCovers")))) 0)
      as [?|_]; [contradiction|].
    unfold element_at, calculateCoverIndex. cbn [ToNumber].
    rewrite (num_rem_nat _ _ Hlen), Hc.
    apply String.eqb_neq in Hne. now rewrite Hne.
Qed.

End CoverFacts.

(** With three covers configured, user 4 gets the second, under '/forum',
    and user 5 the third, which is remote. *)
Lemma getCover_is_configured_witness :
  @CoverPhoto.getDefaultProfileCover evalHost "/forum" CoverPhoto.evalConfig (VStr "4")
  = "/forum/assets/b.png"
  /\ @CoverPhoto.getDefaultProfileCover evalHost "/forum" CoverPhoto.evalConfig (VStr "5")
     = "https://cdn.example.org/c.png"
  /\ @CoverPhoto.getDefaultGroupCover evalHost "/forum" CoverPhoto.evalConfig (VStr "staff")
     = "/forum/assets/images/cover-default.png".
Proof.
  split; [|split].
  - refine (proj2 (proj2 (proj2 (@getCover_is_configured evalHost "/forum"
                                   CoverPhoto.evalConfig "profile" _)))
                  4%nat "/assets/b.png" eq_refl eq_refl eq_refl _).
    discriminate.
  - refine (proj2 (proj2 (proj2 (@getCover_is_configured evalHost "/forum"
                                   CoverPhoto.evalConfig "profile" _)))
                  5%nat "https://cdn.example.org/c.png" eq_refl eq_refl eq_refl _).
    discriminate.
  - apply (@getCover_is_configured evalHost "/forum" CoverPhoto.evalConfig "groups"
             (VStr "staff")). reflexivity.
Defined.

(** ** Listening *)

Section WebServerFacts.
Context `{Host} (env : WebServer.Env).
Import WebServer.


End WebServerFacts.

